(** * remiplace: the real-time state-synchronisation core

    A shallow embedding of the server core of the shared pixel canvas:

    - [Database]        server/models/database.js   (cell table, placement
                        log, write-through cache, amortised log pruning)
    - [CanvasService]   server/services/canvas.js   (export, clear, import)
    - [NonceStore]      server/services/nonceStore.js (replay guard)
    - [WebSocketServer] server/websocket/index.js   (admission, heartbeat,
                        message handlers, cross-instance broadcast)
    - [Validation]      server/middleware/validation.js (request bodies)
    - [Auth]            server/middleware/auth.js   (token and role checks)
    - [Routes]          server/routes/pixels.js, canvas.js, index.js
                        (the HTTP handlers behind their middlewares)

    JavaScript numbers are modelled by [Z] (coordinates, counters and
    millisecond clocks are integers in every run the theorems talk about),
    strings by [string], [null]/[undefined] by [None], a [Map] by a [gmap],
    and every reading of the wall clock ([Date.now()], [datetime('now')]) by
    an explicit argument [now]. *)

From Stdlib Require Import ZArith List Lia Bool Ascii String.
From stdpp Require Import base option list gmap strings pretty.

Local Open Scope Z_scope.

(* ------------------------------------------------------------------ *)
(** ** JavaScript helpers *)

Module Js.

(** Truthiness of a value that is a string, [null] or [undefined]. *)
Definition truthy (v : option string) : bool :=
  match v with
  | Some EmptyString => false
  | Some _ => true
  | None => false
  end.

(** [String.prototype.toLowerCase] on ASCII text. *)
Definition lower_ascii (c : ascii) : ascii :=
  let n := nat_of_ascii c in
  if ((65 <=? n)%nat && (n <=? 90)%nat)%bool then ascii_of_nat (n + 32) else c.

Fixpoint toLowerCase (s : string) : string :=
  match s with
  | EmptyString => EmptyString
  | String c s' => String (lower_ascii c) (toLowerCase s')
  end.

(** [parseInt(s, 10)]: leading white space is skipped, an optional sign is
    read, then the longest run of decimal digits; anything after it is
    ignored.  No digit at all gives [NaN], here [None]. *)
Definition is_space (c : ascii) : bool :=
  let n := nat_of_ascii c in
  ((n =? 32) || (n =? 9) || (n =? 10) || (n =? 11) || (n =? 12) || (n =? 13))%nat.

Definition digit_of (c : ascii) : option Z :=
  let n := nat_of_ascii c in
  if ((48 <=? n)%nat && (n <=? 57)%nat)%bool then Some (Z.of_nat n - 48) else None.

Fixpoint skip_spaces (s : string) : string :=
  match s with
  | String c s' => if is_space c then skip_spaces s' else s
  | EmptyString => s
  end.

Fixpoint read_digits (acc : option Z) (s : string) : option Z :=
  match s with
  | String c s' =>
      match digit_of c with
      | Some d => read_digits (Some (10 * default 0 acc + d)) s'
      | None => acc
      end
  | EmptyString => acc
  end.

Definition parseInt (s : string) : option Z :=
  match skip_spaces s with
  | String "-" s' => Z.opp <$> read_digits None s'
  | String "+" s' => read_digits None s'
  | s' => read_digits None s'
  end.

(** The character [c] occurs in [s]. *)
Fixpoint occurs (c : ascii) (s : string) : Prop :=
  match s with
  | EmptyString => False
  | String a s' => a = c \/ occurs c s'
  end.

(** What a function call produces: a value, or a thrown [Error]. *)
Inductive result (A : Type) : Type :=
| Ok (a : A)
| Throw (message : string).
Arguments Ok {A} a.
Arguments Throw {A} message.

(** The value of a call that returned. *)
Definition value {A} (r : result A) : option A :=
  match r with
  | Ok a => Some a
  | Throw _ => None
  end.

(** [parseInt(s, 16)]: as [parseInt(s, 10)], with the digits [0-9a-fA-F]
    and an optional prefix [0x] or [0X] after the sign. *)
Definition hex_digit_of (c : ascii) : option Z :=
  let n := nat_of_ascii c in
  if ((48 <=? n)%nat && (n <=? 57)%nat)%bool then Some (Z.of_nat n - 48)
  else if ((65 <=? n)%nat && (n <=? 70)%nat)%bool then Some (Z.of_nat n - 55)
  else if ((97 <=? n)%nat && (n <=? 102)%nat)%bool then Some (Z.of_nat n - 87)
  else None.

Fixpoint read_hex_digits (acc : option Z) (s : string) : option Z :=
  match s with
  | String c s' =>
      match hex_digit_of c with
      | Some d => read_hex_digits (Some (16 * default 0 acc + d)) s'
      | None => acc
      end
  | EmptyString => acc
  end.

Definition strip_0x (s : string) : string :=
  match s with
  | String "0" (String "x" s') => s'
  | String "0" (String "X" s') => s'
  | _ => s
  end.

Definition parseInt16 (s : string) : option Z :=
  match skip_spaces s with
  | String "-" s' => Z.opp <$> read_hex_digits None (strip_0x s')
  | String "+" s' => read_hex_digits None (strip_0x s')
  | s' => read_hex_digits None (strip_0x s')
  end.

(** [s.slice(a, b)] for [0 <= a <= b]. *)
Definition slice (a b : nat) (s : string) : string :=
  substring a (b - a) s.

(** [s.replace(c, '')] for a one-character pattern: the first occurrence
    goes. *)
Fixpoint remove_first (c : ascii) (s : string) : string :=
  match s with
  | EmptyString => EmptyString
  | String a s' => if Ascii.eqb a c then s' else String a (remove_first c s')
  end.

(** [s.split(sep)] for a one-character separator. *)
Fixpoint split (sep : ascii) (s : string) : list string :=
  match s with
  | EmptyString => [EmptyString]
  | String c s' =>
      if Ascii.eqb c sep then EmptyString :: split sep s'
      else match split sep s' with
           | w :: ws => String c w :: ws
           | [] => [String c EmptyString]
           end
  end.

(** [Buffer.prototype.writeUInt16LE] and [writeUInt8]: the bytes written,
    or [None] for the [RangeError] (code [ERR_OUT_OF_RANGE]) that a value
    outside the range raises.  [NaN], here [None], passes the range test
    and is stored as 0. *)
Definition writeUInt16LE (value : Z) : option (list Z) :=
  if (65535 <? value) || (value <? 0) then None
  else Some [value mod 256; value / 256].

Definition writeUInt8 (value : option Z) : option (list Z) :=
  match value with
  | Some v => if (255 <? v) || (v <? 0) then None else Some [v]
  | None => Some [0]
  end.

(** [buf.toString('base64')] *)
Definition base64_alphabet : string :=
  "ABCDEFGHIJKLMNOPQRSTUVWXYZabcdefghijklmnopqrstuvwxyz0123456789+/".

Definition base64_char (n : Z) : ascii :=
  default "="%char (String.get (Z.to_nat n) base64_alphabet).

Fixpoint base64 (bytes : list Z) : string :=
  match bytes with
  | [] => EmptyString
  | [a] =>
      String (base64_char (a / 4)) (String (base64_char (a mod 4 * 16)) "==")
  | [a; b] =>
      String (base64_char (a / 4))
        (String (base64_char (a mod 4 * 16 + b / 16))
           (String (base64_char (b mod 16 * 4)) "="))
  | a :: b :: c :: rest =>
      String (base64_char (a / 4))
        (String (base64_char (a mod 4 * 16 + b / 16))
           (String (base64_char (b mod 16 * 4 + c / 64))
              (String (base64_char (c mod 64)) (base64 rest))))
  end.

End Js.

(* ------------------------------------------------------------------ *)
(** ** Configuration (server/config/index.js) *)

Module Config.

Record t := {
  canvas_width : Z;
  canvas_height : Z;
  canvas_palette : list string;
  openMode : bool;
  redis_enabled : bool
}.

(** The values used when the environment sets nothing. *)
Definition defaults : t :=
  {| canvas_width := 220; canvas_height := 150;
     canvas_palette :=
       ["#ff0000"; "#ff7f00"; "#ffff00"; "#00ff00"; "#0000ff";
        "#4b0082"; "#9400d3"; "#000000"; "#ffffff"]%string;
     openMode := false; redis_enabled := false |}.

End Config.

(* ------------------------------------------------------------------ *)
(** ** server/models/database.js *)

Module Database.
Import Js.

Definition HISTORY_MAX_ENTRIES : Z := 100000.
Definition PRUNE_CHECK_INTERVAL : Z := 500.

(** A row of table [pixels] without its primary key [(x, y)]. *)
Record Cell := {
  c_color : string;
  c_placed_by : option string;
  c_placed_at : Z
}.

(** A cache entry: the object [{ x, y, color, placed_by, placed_at }]. *)
Record Pixel := {
  p_x : Z;
  p_y : Z;
  p_color : string;
  p_placed_by : option string;
  p_placed_at : Z
}.

(** A row of table [pixel_history]. *)
Record History := {
  h_id : Z;
  h_x : Z;
  h_y : Z;
  h_color : string;
  h_placed_by : option string;
  h_placed_at : Z
}.

(** A row of table [users] without its primary key [address]. *)
Record UserRow := {
  u_first_seen : Z;
  u_last_seen : Z;
  u_pixel_count : Z
}.

(** What [getAllPixels] hands out: [{ x, y, color }]. *)
Record Dot := {
  d_x : Z;
  d_y : Z;
  d_color : string
}.

Record Snapshot := {
  snap_width : Z;
  snap_height : Z;
  snap_timestamp : Z;
  snap_pixels : list Dot
}.

Record Stats := {
  total_pixels : Z;
  total_users : Z;
  total_placements : Z
}.

(** The module state: the four tables, the sequence of the history
    table's AUTOINCREMENT key, the cache, the statistics cache, the
    pruning counter and the initialisation flag.  [pixel_history] is
    kept newest row first, that is in descending [id]. *)
Record State := {
  pixels : gmap (Z * Z) Cell;
  pixel_history : list History;
  history_seq : Z;
  users : gmap string UserRow;
  canvas_snapshots : list Snapshot;
  cache_pixels : gmap string Pixel;
  cache_count : Z;
  statsCache_data : option Stats;
  statsCache_ts : Z;
  placementsSincePrune : Z;
  dbInitialized : bool
}.

(** Field updates.  They take the record apart once, so that an update
    of an update stays a small term. *)
Definition set_pixels f (s : State) : State :=
  match s with
  | Build_State px h q us sn cp cc sd sts since ini =>
      Build_State (f px) h q us sn cp cc sd sts since ini
  end.

Definition set_history f g (s : State) : State :=
  match s with
  | Build_State px h q us sn cp cc sd sts since ini =>
      Build_State px (f h) (g q) us sn cp cc sd sts since ini
  end.

Definition set_users f (s : State) : State :=
  match s with
  | Build_State px h q us sn cp cc sd sts since ini =>
      Build_State px h q (f us) sn cp cc sd sts since ini
  end.

Definition set_snapshots f (s : State) : State :=
  match s with
  | Build_State px h q us sn cp cc sd sts since ini =>
      Build_State px h q us (f sn) cp cc sd sts since ini
  end.

Definition set_cache_pixels f (s : State) : State :=
  match s with
  | Build_State px h q us sn cp cc sd sts since ini =>
      Build_State px h q us sn (f cp) cc sd sts since ini
  end.

Definition set_cache_count f (s : State) : State :=
  match s with
  | Build_State px h q us sn cp cc sd sts since ini =>
      Build_State px h q us sn cp (f cc) sd sts since ini
  end.

Definition set_statsCache d ts (s : State) : State :=
  match s with
  | Build_State px h q us sn cp cc sd sts since ini =>
      Build_State px h q us sn cp cc d (ts sts) since ini
  end.

Definition set_placementsSincePrune n (s : State) : State :=
  match s with
  | Build_State px h q us sn cp cc sd sts since ini =>
      Build_State px h q us sn cp cc sd sts n ini
  end.

Definition set_dbInitialized b (s : State) : State :=
  match s with
  | Build_State px h q us sn cp cc sd sts since ini =>
      Build_State px h q us sn cp cc sd sts since b
  end.

(** *** The prepared statements [stmt] *)

(** [INSERT INTO pixels ... ON CONFLICT(x, y) DO UPDATE ...] *)
Definition setPixel (x y : Z) (color : string) (by_ : option string) (now : Z)
  : State -> State :=
  set_pixels (insert (x, y)
    {| c_color := color; c_placed_by := by_; c_placed_at := now |}).

(** [DELETE FROM pixels WHERE x = ? AND y = ?] *)
Definition deletePixel (x y : Z) : State -> State :=
  set_pixels (delete (x, y)).

(** [INSERT INTO pixel_history (x, y, color, placed_by)]: the key is the
    next value of the AUTOINCREMENT sequence, which is never below a key
    in use. *)
Definition addHistory (x y : Z) (color : string) (by_ : option string) (now : Z)
    (s : State) : State :=
  let id := history_seq s + 1 in
  set_history
    (cons {| h_id := id; h_x := x; h_y := y; h_color := color;
             h_placed_by := by_; h_placed_at := now |})
    (fun _ => id) s.

(** [INSERT INTO users (address) ... ON CONFLICT DO UPDATE SET last_seen] *)
Definition upsertUser (addr : string) (now : Z) : State -> State :=
  set_users (fun us =>
    match us !! addr with
    | Some u => <[addr := {| u_first_seen := u_first_seen u; u_last_seen := now;
                             u_pixel_count := u_pixel_count u |}]> us
    | None => <[addr := {| u_first_seen := now; u_last_seen := now;
                           u_pixel_count := 0 |}]> us
    end).

(** [UPDATE users SET pixel_count = pixel_count + n WHERE address = ?] *)
Definition addUserPixels (addr : string) (n : Z) : State -> State :=
  set_users (alter (fun u =>
    {| u_first_seen := u_first_seen u; u_last_seen := u_last_seen u;
       u_pixel_count := u_pixel_count u + n |}) addr).

Definition incUserPixels (addr : string) : State -> State :=
  addUserPixels addr 1.

(** [SELECT COUNT( * ) FROM pixel_history] *)
Definition getHistoryCount (s : State) : Z :=
  Z.of_nat (length (pixel_history s)).

(** [SELECT id FROM pixel_history ORDER BY id DESC LIMIT 1 OFFSET ?] *)
Definition history_id_at_offset (offset : Z) (s : State) : option Z :=
  h_id <$> (pixel_history s !! Z.to_nat offset).

(** [DELETE FROM pixel_history WHERE id <= (SELECT ... OFFSET ?)]: with no
    row at that offset the subquery is NULL and nothing is deleted. *)
Definition pruneHistory (offset : Z) (s : State) : State :=
  match history_id_at_offset offset s with
  | Some bound =>
      set_history (List.filter (fun h => negb (h_id h <=? bound))) (fun q => q) s
  | None => s
  end.

(** [DELETE FROM pixels] *)
Definition stmt_clearCanvas : State -> State :=
  set_pixels (fun _ => ∅).

(** *** The cache *)

(** The cache key, the template string [`${x},${y}`]. *)
Definition key (x y : Z) : string :=
  pretty x +:+ "," +:+ pretty y.

Definition key_of (xy : Z * Z) : string := key xy.1 xy.2.

Definition cache_has (k : string) (s : State) : bool :=
  bool_decide (is_Some (cache_pixels s !! k)).

Definition cache_set (k : string) (p : Pixel) : State -> State :=
  set_cache_pixels (insert k p).

Definition cache_delete (k : string) : State -> State :=
  set_cache_pixels (delete k).

Definition invalidate_stats : State -> State :=
  set_statsCache None (fun ts => ts).

(** *** [maybePruneHistory] *)
Definition maybePruneHistory (s : State) : State :=
  let n := placementsSincePrune s + 1 in
  if n <? PRUNE_CHECK_INTERVAL then set_placementsSincePrune n s
  else
    let s := set_placementsSincePrune 0 s in
    if HISTORY_MAX_ENTRIES <? getHistoryCount s
    then pruneHistory HISTORY_MAX_ENTRIES s
    else s.

(** *** The transactions ([getTransactions])

    Each body runs inside [db.transaction].  With integer coordinates,
    string colours and a string-or-null writer no statement of a body
    fails, so the roll-back path is never taken. *)

Definition placePixelTx (x y : Z) (color : string) (addr : option string)
    (now : Z) (s : State) : State :=
  let s := setPixel x y color addr now s in
  let s := addHistory x y color addr now s in
  let s := match addr with
           | Some a => if truthy addr then incUserPixels a (upsertUser a now s) else s
           | None => s
           end in
  let k := key x y in
  let s := if cache_has k s then s else set_cache_count (Z.add 1) s in
  let s := cache_set k {| p_x := x; p_y := y; p_color := color;
                          p_placed_by := addr; p_placed_at := now |} s in
  let s := invalidate_stats s in
  maybePruneHistory s.

(** One turn of the [for] loop of [placeBatch]; the accumulator carries
    the local [newCount]. *)
Definition placeBatch_step (addr : option string) (now : Z)
    (acc : State * Z) (d : Dot) : State * Z :=
  let '(s, newCount) := acc in
  let s := setPixel (d_x d) (d_y d) (d_color d) addr now s in
  let s := addHistory (d_x d) (d_y d) (d_color d) addr now s in
  let k := key (d_x d) (d_y d) in
  let newCount := if cache_has k s then newCount else newCount + 1 in
  let s := cache_set k {| p_x := d_x d; p_y := d_y d; p_color := d_color d;
                          p_placed_by := addr; p_placed_at := now |} s in
  (s, newCount).

Definition placeBatchTx (dots : list Dot) (addr : option string)
    (now : Z) (s : State) : State :=
  let '(s, newCount) := foldl (placeBatch_step addr now) (s, 0) dots in
  let s := match addr with
           | Some a =>
               if truthy addr
               then addUserPixels a (Z.of_nat (length dots)) (upsertUser a now s)
               else s
           | None => s
           end in
  let s := set_cache_count (fun c => c + newCount) s in
  let s := invalidate_stats s in
  maybePruneHistory s.

Definition eraseTx (x y : Z) (admin : option string) (now : Z) (s : State) : State :=
  let s := deletePixel x y s in
  let s := addHistory x y "ERASED" admin now s in
  let k := key x y in
  let s := if cache_has k s
           then set_cache_count (fun c => c - 1) (cache_delete k s)
           else s in
  invalidate_stats s.

Definition bulkImport_step (now : Z) (s : State) (d : Dot) : State :=
  let s := setPixel (d_x d) (d_y d) (d_color d) None now s in
  let k := key (d_x d) (d_y d) in
  let s := if cache_has k s then s else set_cache_count (Z.add 1) s in
  cache_set k {| p_x := d_x d; p_y := d_y d; p_color := d_color d;
                 p_placed_by := None; p_placed_at := now |} s.

Definition bulkImportTx (dots : list Dot) (now : Z) (s : State) : State :=
  foldl (bulkImport_step now) s dots.

(** *** [initDatabase]

    [disk] is the content of the database file that is opened, [backup]
    the [pixels] array of the embedded backup file when one is found. *)

Definition Disk : Type :=
  (gmap (Z * Z) Cell * list History * Z * gmap string UserRow * list Snapshot)%type.

Definition row_of (xy : Z * Z) (c : Cell) : Pixel :=
  {| p_x := xy.1; p_y := xy.2; p_color := c_color c;
     p_placed_by := c_placed_by c; p_placed_at := c_placed_at c |}.

(** [SELECT x, y, color, placed_by, placed_at FROM pixels] *)
Definition select_pixels (t : gmap (Z * Z) Cell) : list Pixel :=
  (fun kc => row_of kc.1 kc.2) <$> map_to_list t.

Definition importTx_step (now : Z) (s : State) (d : Dot) : State :=
  let s := setPixel (d_x d) (d_y d) (d_color d) None now s in
  cache_set (key (d_x d) (d_y d))
    {| p_x := d_x d; p_y := d_y d; p_color := d_color d;
       p_placed_by := None; p_placed_at := now |} s.

Definition initDatabase (disk : Disk) (backup : option (list Dot)) (now : Z) : State :=
  let '(t, h, q, us, sn) := disk in
  let rows := select_pixels t in
  let s := {| pixels := t; pixel_history := h; history_seq := q; users := us;
              canvas_snapshots := sn;
              cache_pixels := foldl (fun c p => <[key (p_x p) (p_y p) := p]> c) ∅ rows;
              cache_count := Z.of_nat (length rows);
              statsCache_data := None; statsCache_ts := 0;
              placementsSincePrune := 0; dbInitialized := false |} in
  let s :=
    if cache_count s =? 0 then
      match backup with
      | Some dots =>
          if 0 <? Z.of_nat (length dots) then
            set_cache_count (fun _ => Z.of_nat (length dots))
              (foldl (importTx_step now) s dots)
          else s
      | None => s
      end
    else s in
  set_dbInitialized true s.

(** A database file that has just been created. *)
Definition empty_disk : Disk := (∅, [], 0, ∅, []).

(** *** [databaseAPI] *)

Definition not_initialized : string :=
  "Database not initialized. Call initDatabase() first.".

Definition ensureInitialized {A} (s : State) (k : result A) : result A :=
  if dbInitialized s then k else Throw not_initialized.

Definition getPixel (x y : Z) (s : State) : option Pixel :=
  cache_pixels s !! key x y.

Definition getAllPixels (s : State) : list Dot :=
  (fun kp => {| d_x := p_x kp.2; d_y := p_y kp.2; d_color := p_color kp.2 |})
    <$> map_to_list (cache_pixels s).

Definition placePixel (x y : Z) (color : string) (addr : option string)
    (now : Z) (s : State) : result State :=
  ensureInitialized s (Ok (placePixelTx x y color addr now s)).

Definition placePixelsBatch (dots : list Dot) (addr : option string)
    (now : Z) (s : State) : result State :=
  match dots with
  | [] => Ok s
  | _ => ensureInitialized s (Ok (placeBatchTx dots addr now s))
  end.

Definition erasePixel (x y : Z) (admin : option string)
    (now : Z) (s : State) : result State :=
  ensureInitialized s (Ok (eraseTx x y admin now s)).

Definition getPixelCount (s : State) : Z := cache_count s.

Definition getStats (now : Z) (s : State) : result (Stats * State) :=
  ensureInitialized s
    (match statsCache_data s with
     | Some d =>
         if now - statsCache_ts s <? 5000 then Ok (d, s)
         else
           let d := {| total_pixels := cache_count s;
                       total_users := Z.of_nat (size (users s));
                       total_placements := getHistoryCount s |} in
           Ok (d, set_statsCache (Some d) (fun _ => now) s)
     | None =>
         let d := {| total_pixels := cache_count s;
                     total_users := Z.of_nat (size (users s));
                     total_placements := getHistoryCount s |} in
         Ok (d, set_statsCache (Some d) (fun _ => now) s)
     end).

Definition clearCanvas (s : State) : result State :=
  ensureInitialized s
    (Ok (invalidate_stats
           (set_cache_count (fun _ => 0)
              (set_cache_pixels (fun _ => ∅) (stmt_clearCanvas s))))).

Definition saveSnapshot (cfg : Config.t) (now : Z) (s : State) : result State :=
  ensureInitialized s
    (Ok (set_snapshots
           (fun l => l ++ [{| snap_width := Config.canvas_width cfg;
                              snap_height := Config.canvas_height cfg;
                              snap_timestamp := now;
                              snap_pixels := getAllPixels s |}]) s)).

Definition bulkImport (dots : list Dot) (now : Z) (s : State) : result State :=
  ensureInitialized s (Ok (invalidate_stats (bulkImportTx dots now s))).

(** *** The placement log and the users, as [databaseAPI] reads them *)

(** What a log row shows: [x, y, color, placed_by, placed_at]. *)
Definition shown (h : History) : Pixel :=
  {| p_x := h_x h; p_y := h_y h; p_color := h_color h;
     p_placed_by := h_placed_by h; p_placed_at := h_placed_at h |}.

(** [LIMIT ?] of SQLite: a negative value puts no bound on the number of
    rows. *)
Definition sql_limit {A} (limit : Z) (rows : list A) : list A :=
  if limit <? 0 then rows else take (Z.to_nat limit) rows.

(** [SELECT x, y, color, placed_by, placed_at FROM pixel_history
     ORDER BY id DESC LIMIT ?]; the rows are kept in that order. *)
Definition stmt_getHistory (limit : Z) (s : State) : list Pixel :=
  shown <$> sql_limit limit (pixel_history s).

(** A row of [getUserHistory]: [x, y, color, placed_at]. *)
Record Trace := {
  t_x : Z;
  t_y : Z;
  t_color : string;
  t_placed_at : Z
}.

(** [SELECT x, y, color, placed_at FROM pixel_history WHERE placed_by = ?
     ORDER BY id DESC LIMIT ?] *)
Definition stmt_getUserHistory (addr : string) (limit : Z) (s : State) : list Trace :=
  (fun h => {| t_x := h_x h; t_y := h_y h; t_color := h_color h;
               t_placed_at := h_placed_at h |})
    <$> sql_limit limit
          (List.filter (fun h => bool_decide (h_placed_by h = Some addr))
             (pixel_history s)).

Definition getRecentHistory (limit : Z) (s : State) : result (list Pixel) :=
  ensureInitialized s (Ok (stmt_getHistory limit s)).

Definition getUserHistory (addr : string) (limit : Z) (s : State)
  : result (list Trace) :=
  ensureInitialized s (Ok (stmt_getUserHistory addr limit s)).

(** [getUser]: the row of [addr], made or refreshed first; [SELECT * FROM
    users WHERE address = ?] gives the row or [undefined]. *)
Definition getUser (addr : string) (now : Z) (s : State)
  : result (option UserRow * State) :=
  ensureInitialized s
    (let s := upsertUser addr now s in Ok (users s !! addr, s)).

(** *** [getCanvasBinary]

    Seven bytes for each cache entry: [x] and [y] as 16-bit little-endian
    numbers, then the three colour channels read from the text of the
    colour.  [None] stands for the [RangeError] of a write.  The entries
    are taken in the order of [map_to_list], which need not be the
    insertion order of the [Map]. *)
Definition binary_record (p : Pixel) : option (list Z) :=
  x ← writeUInt16LE (p_x p);
  y ← writeUInt16LE (p_y p);
  let hex := remove_first "#" (p_color p) in
  r ← writeUInt8 (parseInt16 (slice 0 2 hex));
  g ← writeUInt8 (parseInt16 (slice 2 4 hex));
  b ← writeUInt8 (parseInt16 (slice 4 6 hex));
  Some (x ++ y ++ r ++ g ++ b).

Definition getCanvasBinary (s : State) : option string :=
  (fun records => base64 (concat records))
    <$> mapM binary_record ((map_to_list (cache_pixels s)).*2).

(** *** Runs of mutations *)

Inductive Mutation :=
| Place (x y : Z) (color : string) (addr : option string)
| PlaceBatch (dots : list Dot) (addr : option string)
| Erase (x y : Z) (admin : option string).

Definition mutate (now : Z) (m : Mutation) (s : State) : result State :=
  match m with
  | Place x y color addr => placePixel x y color addr now s
  | PlaceBatch dots addr => placePixelsBatch dots addr now s
  | Erase x y admin => erasePixel x y admin now s
  end.

(** A run is a list of mutations, each with the clock reading at which
    it is served; the first failure stops it. *)
Fixpoint run (ms : list (Z * Mutation)) (s : State) : result State :=
  match ms with
  | [] => Ok s
  | (now, m) :: ms' =>
      match mutate now m s with
      | Ok s' => run ms' s'
      | Throw e => Throw e
      end
  end.

(** The coordinates a run leaves occupied, told from the run alone. *)
Definition occupy (m : Mutation) (o : gset (Z * Z)) : gset (Z * Z) :=
  match m with
  | Place x y _ _ => {[ (x, y) ]} ∪ o
  | PlaceBatch dots _ => list_to_set ((fun d => (d_x d, d_y d)) <$> dots) ∪ o
  | Erase x y _ => o ∖ {[ (x, y) ]}
  end.

Definition occupied (ms : list (Z * Mutation)) (o : gset (Z * Z)) : gset (Z * Z) :=
  foldl (fun o nm => occupy nm.2 o) o ms.

End Database.

(* ------------------------------------------------------------------ *)
(** ** server/services/canvas.js *)

Module CanvasService.
Import Js.

Record Export := {
  ex_width : Z;
  ex_height : Z;
  ex_timestamp : Z;
  ex_pixels : list Database.Dot
}.

Record Status := {
  pixelCount : Z;
  totalSlots : Z;
  isFull : bool
}.

Definition getTotalSlots (cfg : Config.t) : Z :=
  Config.canvas_width cfg * Config.canvas_height cfg.

Definition getStatus (cfg : Config.t) (s : Database.State) : Status :=
  let count := Database.getPixelCount s in
  let total := getTotalSlots cfg in
  {| pixelCount := count; totalSlots := total; isFull := total <=? count |}.

(** [checkAndUpdateFullnessState] always answers
    [{ becameFull: false, status: getStatus() }]. *)
Definition checkAndUpdateFullnessState (cfg : Config.t) (s : Database.State)
  : bool * Status :=
  (false, getStatus cfg s).

Definition exportCanvas (cfg : Config.t) (now : Z) (s : Database.State) : Export :=
  {| ex_width := Config.canvas_width cfg; ex_height := Config.canvas_height cfg;
     ex_timestamp := now; ex_pixels := Database.getAllPixels s |}.

Definition placePixel := Database.placePixel.
Definition placePixelsBatch := Database.placePixelsBatch.

Definition clearCanvas (cfg : Config.t) (now : Z) (s : Database.State)
  : result Database.State :=
  match Database.saveSnapshot cfg now s with
  | Ok s => Database.clearCanvas s
  | Throw e => Throw e
  end.

Definition importCanvas (cfg : Config.t) (dots : list Database.Dot) (now : Z)
    (s : Database.State) : result Database.State :=
  match Database.saveSnapshot cfg now s with
  | Ok s => Database.bulkImport dots now s
  | Throw e => Throw e
  end.

(** [getCanvas]: in the object literal the spread of [status] comes after
    [pixelCount: pixels.length] and replaces it by the status's own
    [pixelCount]. *)
Record Canvas := {
  cv_width : Z;
  cv_height : Z;
  cv_pixelCount : Z;
  cv_totalSlots : Z;
  cv_isFull : bool;
  cv_pixels : list Database.Dot
}.

Definition getCanvas (cfg : Config.t) (s : Database.State) : Canvas :=
  let pixels := Database.getAllPixels s in
  let status := getStatus cfg s in
  {| cv_width := Config.canvas_width cfg; cv_height := Config.canvas_height cfg;
     cv_pixelCount := pixelCount status; cv_totalSlots := totalSlots status;
     cv_isFull := isFull status; cv_pixels := pixels |}.

Definition getPixel := Database.getPixel.


Definition getUserHistory (addr : string) (limit : option Z)
  : Database.State -> result (list Database.Trace) :=
  Database.getUserHistory addr (default 50 limit).

End CanvasService.

(* ------------------------------------------------------------------ *)
(** ** server/services/nonceStore.js *)

Module NonceStore.
Import Js.

Definition TTL : Z := 10 * 60 * 1000.

(** [store] is the local table.  [redisClient] holds what the module knows
    of the Redis server behind the client: for each key its value and the
    instant at which it expires. *)
Record State := {
  store : gmap string Z;
  redisClient : option (gmap string (string * Z))
}.

Definition setRedisClient (client : gmap string (string * Z)) (s : State) : State :=
  {| store := store s; redisClient := Some client |}.

Definition key (addr nonce : string) : string :=
  "nonce:" +:+ toLowerCase addr +:+ ":" +:+ nonce.

(** [{ valid: true }] or [{ valid: false, reason }]. *)
Inductive Verdict :=
| Valid
| Invalid (reason : string).

(** The command [SET k v PX ttl NX]: it stores the value, with its expiry,
    unless the key holds a value that has not expired; the answer is
    ['OK'] ([true]) when it stored. *)
Definition redis_set_px_nx (k v : string) (ttl now : Z)
    (r : gmap string (string * Z)) : bool * gmap string (string * Z) :=
  match r !! k with
  | Some (_, expiry) =>
      if now <? expiry then (false, r) else (true, <[k := (v, now + ttl)]> r)
  | None => (true, <[k := (v, now + ttl)]> r)
  end.

(** [redis_up] tells whether the command sent to Redis comes back; when
    it does not, the [catch] logs the error and the local table is used. *)
Definition checkAndUseNonce (address nonce timestamp : string)
    (now : Z) (redis_up : bool) (s : State) : Verdict * State :=
  let k := key address nonce in
  let local :=
    if bool_decide (is_Some (store s !! k)) then (Invalid "nonce_reused", s)
    else (Valid, {| store := <[k := now]> (store s); redisClient := redisClient s |}) in
  match parseInt timestamp with
  | None => (Invalid "expired_timestamp", s)
  | Some ts =>
      if 5 * 60 * 1000 <? Z.abs (now - ts) then (Invalid "expired_timestamp", s)
      else
        match redisClient s with
        | Some r =>
            if redis_up then
              let '(ok, r') := redis_set_px_nx k (pretty now) TTL now r in
              (if ok then Valid else Invalid "nonce_reused",
               {| store := store s; redisClient := Some r' |})
            else local
        | None => local
        end
  end.

Definition clear (s : State) : State :=
  {| store := ∅; redisClient := redisClient s |}.

(** The periodic clean-up of the local table. *)
Definition cleanup (now : Z) (s : State) : State :=
  {| store := filter (fun kt => ~ TTL < now - kt.2) (store s);
     redisClient := redisClient s |}.

(** What happens to the module between two calls of interest. *)
Inductive Event :=
| Check (address nonce timestamp : string) (redis_up : bool)
| Cleanup.

Definition step (now : Z) (e : Event) (s : State) : State :=
  match e with
  | Check a n t up => (checkAndUseNonce a n t now up s).2
  | Cleanup => cleanup now s
  end.

Definition run (evs : list (Z * Event)) (s : State) : State :=
  foldl (fun s ne => step ne.1 ne.2 s) s evs.

(** The module as it is loaded, without and with a Redis client. *)
Definition initial : State := {| store := ∅; redisClient := None |}.
Definition initial_shared : State := setRedisClient ∅ initial.

End NonceStore.

(* ------------------------------------------------------------------ *)
(** ** server/websocket/index.js *)

Module WebSocketServer.
Import Js.

Definition CHANNEL : string := "drawingboard:broadcast".

(** The decoded token, [ws.user]. *)
Record User := {
  address : string;
  chainId : Z;
  isAuthorized : bool;
  isAdmin : bool
}.

Inductive ReadyState := CONNECTING | OPEN | CLOSING | CLOSED.

(** A [ws] object.  [ws_id] stands for its identity; the fields the module
    adds to it are [undefined] until they are set; [listening] tells
    whether the handlers of ['message'], ['close'], ['error'] and ['pong']
    have been attached to it. *)
Record Socket := {
  ws_id : nat;
  readyState : ReadyState;
  clientIP : option string;
  user : option User;
  isAlive : bool;
  lastActivity : option Z;
  listening : bool
}.

(** The [data] of a message. *)
Inductive Payload :=
| Welcome (clients : Z) (status : CanvasService.Status) (authenticated : bool)
| Pong (ts : option Z) (serverTs : Z)
| Failure (message : string) (code : option string)
| PixelChanged (x y : Z) (color : option string) (placedBy : option string)
| BatchChanged (dots : list Database.Dot) (placedBy : option string)
| StatusChanged (status : CanvasService.Status)
| Cleared (message : string).

(** What a handler does to the outside. *)
Inductive Effect :=
| Send (ws : nat) (type : string) (data : Payload)
| Close (ws : nat) (code : Z) (reason : string)
| Terminate (ws : nat)
| Ping (ws : nat)
| Verify (token : string)
| Publish (channel type : string) (data : Payload) (origin : string).

(** The module state: [wss.clients] in insertion order ([None] while
    [wss] is [null]), [connsByIP], whether [redisPub] is set, and
    [global.__instanceId] with the process id it is made from. *)
Record Server := {
  wss : option (list Socket);
  connsByIP : gmap string (gset nat);
  redisPub : bool;
  instanceId : option string;
  pid : Z
}.

Definition set_wss (f : list Socket -> list Socket) (s : Server) : Server :=
  match s with
  | Build_Server w c r i p => Build_Server (f <$> w) c r i p
  end.

Definition set_connsByIP (f : gmap string (gset nat) -> gmap string (gset nat))
    (s : Server) : Server :=
  match s with
  | Build_Server w c r i p => Build_Server w (f c) r i p
  end.

Definition set_instanceId (i : option string) (s : Server) : Server :=
  match s with
  | Build_Server w c r _ p => Build_Server w c r i p
  end.

(** Update of the fields of one [ws] object. *)
Definition update_socket (id : nat) (f : Socket -> Socket) : Server -> Server :=
  set_wss (fmap (fun c => if decide (ws_id c = id) then f c else c)).

Definition find_socket (id : nat) (s : Server) : option Socket :=
  wss s ≫= List.find (fun c => bool_decide (ws_id c = id)).

Definition set_readyState (r : ReadyState) (c : Socket) : Socket :=
  match c with
  | Build_Socket i _ ip u a l h => Build_Socket i r ip u a l h
  end.

Definition set_clientIP (ip : string) (c : Socket) : Socket :=
  match c with
  | Build_Socket i r _ u a l h => Build_Socket i r (Some ip) u a l h
  end.

Definition set_user (u : User) (c : Socket) : Socket :=
  match c with
  | Build_Socket i r ip _ a l h => Build_Socket i r ip (Some u) a l h
  end.

Definition set_listening (c : Socket) : Socket :=
  match c with
  | Build_Socket i r ip u a l _ => Build_Socket i r ip u a l true
  end.

(** [ws.isAlive = true; ws.lastActivity = Date.now()] *)
Definition touch (now : Z) (c : Socket) : Socket :=
  match c with
  | Build_Socket i r ip u _ _ h => Build_Socket i r ip u true (Some now) h
  end.

(** [ws.isAlive = false] before the ping of a sweep. *)
Definition probe (c : Socket) : Socket :=
  match c with
  | Build_Socket i r ip u _ l h => Build_Socket i r ip u false l h
  end.

(** The object the library has just put into [wss.clients] when it emits
    ['connection']. *)
Definition new_socket (id : nat) : Socket :=
  {| ws_id := id; readyState := OPEN; clientIP := None; user := None;
     isAlive := false; lastActivity := None; listening := false |}.

(** *** Instance identity and broadcast *)

Definition getInstanceId (now : Z) (s : Server) : string * Server :=
  match instanceId s with
  | Some i => (i, s)
  | None =>
      let i := pretty (pid s) +:+ "-" +:+ pretty now in
      (i, set_instanceId (Some i) s)
  end.

(** [send(ws, type, data)] *)
Definition send (c : Socket) (type : string) (data : Payload) : list Effect :=
  match readyState c with
  | OPEN => [Send (ws_id c) type data]
  | _ => []
  end.

Definition broadcastLocal (type : string) (data : Payload) (s : Server) : list Effect :=
  match wss s with
  | None => []
  | Some clients => clients ≫= (fun c => send c type data)
  end.

Definition broadcast (type : string) (data : Payload) (now : Z) (s : Server)
  : Server * list Effect :=
  let local := broadcastLocal type data s in
  if redisPub s then
    let '(i, s) := getInstanceId now s in
    (s, local ++ [Publish CHANNEL type data i])
  else (s, local).

(** A message of the shared channel after [JSON.parse]; [origin] is [None]
    when the field is missing or is not a string. *)
Record Shared := {
  sh_type : string;
  sh_data : Payload;
  sh_origin : option string
}.

(** The handler of [redisSub.on('message')]; [msg] is [None] when the text
    does not parse. *)
Definition on_redis_message (ch : string) (msg : option Shared) (now : Z)
    (s : Server) : Server * list Effect :=
  if negb (String.eqb ch CHANNEL) then (s, [])
  else
    match msg with
    | None => (s, [])
    | Some m =>
        let '(i, s) := getInstanceId now s in
        if bool_decide (sh_origin m = Some i) then (s, [])
        else (s, broadcastLocal (sh_type m) (sh_data m) s)
    end.

(** *** Admission *)

Section Admission.
Variables (MAX_PER_IP MAX_TOTAL : Z).
Variable jwt_verify : string -> option User.
Variable config : Config.t.

(** [None] stands for [{ ok: true }], [Some reason] for a refusal. *)
Definition canConnect (ip : string) (s : Server) : option string :=
  if match wss s with
     | Some clients => MAX_TOTAL <=? Z.of_nat (length clients)
     | None => false
     end
  then Some "Server full"%string
  else if MAX_PER_IP <=? Z.of_nat (size (default ∅ (connsByIP s !! ip)))
  then Some "Too many connections"%string
  else None.

(** The handler of [wss.on('connection')] for the socket [id], which the
    library has already put into [wss.clients]; [ip] is the source address
    taken from the request and [token] the query parameter. *)
Definition on_connection (id : nat) (ip : string) (token : option string)
    (now : Z) (db : Database.State) (s : Server) : Server * list Effect :=
  match canConnect ip s with
  | Some reason =>
      (update_socket id (set_readyState CLOSING) s, [Close id 1013 reason])
  | None =>
      let s := set_connsByIP (fun m => <[ip := {[ id ]} ∪ default ∅ (m !! ip)]> m) s in
      let s := update_socket id (set_clientIP ip) s in
      let welcome (s : Server) (verified : list Effect) (authenticated : bool) :=
        let sent :=
          match find_socket id s with
          | Some c =>
              send c "welcome"
                (Welcome (Z.of_nat (length (default [] (wss s))))
                   (CanvasService.getStatus config db) authenticated)
          | None => []
          end in
        (update_socket id (fun c => touch now (set_listening c)) s,
         verified ++ sent) in
      match token with
      | Some t =>
          if truthy token then
            match jwt_verify t with
            | Some u => welcome (update_socket id (set_user u) s) [Verify t] true
            | None =>
                let s := set_connsByIP
                           (fun m => match m !! ip with
                                     | Some ids => <[ip := ids ∖ {[ id ]}]> m
                                     | None => m
                                     end) s in
                (update_socket id (set_readyState CLOSING) s,
                 [Verify t; Close id 1008 "Invalid token"])
            end
          else welcome s [] false
      | None => welcome s [] false
      end
  end.

(** The library accepts a connection, then the handler runs. *)
Definition accept (id : nat) (ip : string) (token : option string)
    (now : Z) (db : Database.State) (s : Server) : Server * list Effect :=
  on_connection id ip token now db (set_wss (fun l => l ++ [new_socket id]) s).

End Admission.

(** The socket [id] closes: the library takes it out of [wss.clients],
    and the handler of [ws.on('close')], when the socket has one, takes it
    out of [connsByIP]. *)
Definition on_close (id : nat) (s : Server) : Server :=
  let ip := find_socket id s ≫= (fun c => if listening c then clientIP c else None) in
  let s := set_wss (List.filter (fun c => negb (bool_decide (ws_id c = id)))) s in
  match ip with
  | Some ip =>
      set_connsByIP
        (fun m => match m !! ip with
                  | Some ids =>
                      if bool_decide (ids ∖ {[ id ]} = ∅) then delete ip m
                      else <[ip := ids ∖ {[ id ]}]> m
                  | None => m
                  end) s
  | None => s
  end.

(** *** Liveness *)

(** The test of the heartbeat:
    [!ws.isAlive && (now - ws.lastActivity) > 60000]. *)
Definition doomed (now : Z) (c : Socket) : bool :=
  negb (isAlive c) &&
  match lastActivity c with
  | Some t => 60000 <? now - t
  | None => false
  end.

Definition sweep_socket (now : Z) (c : Socket) : Socket * list Effect :=
  if doomed now c then (set_readyState CLOSING c, [Terminate (ws_id c)])
  else (probe c, [Ping (ws_id c)]).

(** One turn of the heartbeat interval. *)
Definition heartbeat (now : Z) (s : Server) : Server * list Effect :=
  (set_wss (fmap (fun c => (sweep_socket now c).1)) s,
   default [] (wss s) ≫= (fun c => (sweep_socket now c).2)).

Definition on_pong (id : nat) (now : Z) : Server -> Server :=
  update_socket id (fun c => if listening c then touch now c else c).

(** *** Messages *)

(** The coordinates and colour of a ['pixel'] message or of one element of
    a ['batch'] message: a coordinate is [None] when it is not a number, the
    colour when it is missing or falsy. *)
Record PixelData := {
  m_x : option Z;
  m_y : option Z;
  m_color : option string
}.

(** A message after [JSON.parse] and the destructuring of [type] and
    [data]. *)
Inductive Inbound :=
| InPing (ts : option Z)
| InPixel (data : option PixelData)
| InBatch (pixels : list PixelData)
| InOther (type : string).

(** What [ws.on('message')] does to the socket itself: a text that does
    not parse ([None]) leaves through the [catch] before the socket is
    marked alive. *)
Definition socket_on_message (raw : option Inbound) (now : Z) (c : Socket) : Socket :=
  match raw with
  | Some _ => touch now c
  | None => c
  end.

Section Handlers.
Variable config : Config.t.

Definition World : Type := (Server * Database.State)%type.

Definition writer_of (c : Socket) : option string :=
  match user c with
  | Some u =>
      if truthy (Some (address u)) then Some (address u)
      else if Config.openMode config then Some "anonymous"%string else None
  | None => if Config.openMode config then Some "anonymous"%string else None
  end.

Definition authorised (c : Socket) : bool :=
  Config.openMode config ||
  match user c with
  | Some u => isAuthorized u
  | None => false
  end.

Definition broadcast_status (now : Z) (w : World) : World * list Effect :=
  let '(s, db) := w in
  let '(_, status) := CanvasService.checkAndUpdateFullnessState config db in
  let '(s, sent) := broadcast "status" (StatusChanged status) now s in
  ((s, db), sent).

Definition handlePixel (c : Socket) (data : option PixelData) (now : Z) (w : World)
  : World * list Effect :=
  let '(s, db) := w in
  match data with
  | Some {| m_x := Some x; m_y := Some y; m_color := color |} =>
      if negb (authorised c) then
        (w, send c "error" (Failure "Auth required" (Some "AUTH_REQUIRED"%string)))
      else
        let writer := writer_of c in
        if truthy color then
          match CanvasService.placePixel x y (default ""%string color) writer now db with
          | Ok db =>
              let '(s, sent) := broadcast "pixel" (PixelChanged x y color writer) now s in
              let '(w, sent') := broadcast_status now (s, db) in
              (w, sent ++ sent')
          | Throw e => (w, send c "error" (Failure e None))
          end
        else if negb (match user c with Some u => isAdmin u | None => false end) then
          (w, send c "error" (Failure "Admin required" (Some "NOT_ADMIN"%string)))
        else
          match Database.erasePixel x y writer now db with
          | Ok db =>
              let '(s, sent) := broadcast "pixel" (PixelChanged x y None writer) now s in
              let '(w, sent') := broadcast_status now (s, db) in
              (w, sent ++ sent')
          | Throw e => (w, send c "error" (Failure e None))
          end
  | _ => (w, send c "error" (Failure "Invalid data" None))
  end.

(** The elements of a batch that pass the filter of [handleBatch]. *)
Definition valid_dot (p : PixelData) : option Database.Dot :=
  match p with
  | {| m_x := Some x; m_y := Some y; m_color := Some color |} =>
      if truthy (Some color)
      then Some {| Database.d_x := x; Database.d_y := y; Database.d_color := color |}
      else None
  | _ => None
  end.

Definition handleBatch (c : Socket) (pixels : list PixelData) (now : Z) (w : World)
  : World * list Effect :=
  let '(s, db) := w in
  match pixels with
  | [] => (w, send c "error" (Failure "Invalid batch" None))
  | _ =>
      if negb (authorised c) then
        (w, send c "error" (Failure "Auth required" (Some "AUTH_REQUIRED"%string)))
      else
        let writer := writer_of c in
        match omap valid_dot pixels with
        | [] => (w, [])
        | valid =>
            match CanvasService.placePixelsBatch valid writer now db with
            | Ok db =>
                let '(s, sent) := broadcast "batch" (BatchChanged valid writer) now s in
                let '(w, sent') := broadcast_status now (s, db) in
                (w, sent ++ sent')
            | Throw e => (w, send c "error" (Failure e None))
            end
        end
  end.

Definition handleMessage (c : Socket) (m : Inbound) (now : Z) (w : World)
  : World * list Effect :=
  match m with
  | InPing ts => (w, send c "pong" (Pong ts now))
  | InPixel data => handlePixel c data now w
  | InBatch pixels => handleBatch c pixels now w
  | InOther _ => (w, [])
  end.

(** The handler of [ws.on('message')] of the socket [id]. *)
Definition on_message (id : nat) (raw : option Inbound) (now : Z) (w : World)
  : World * list Effect :=
  let '(s, db) := w in
  match raw with
  | None => (w, [])
  | Some m =>
      match find_socket id s with
      | Some c =>
          if listening c then
            let s := update_socket id (socket_on_message raw now) s in
            handleMessage (socket_on_message raw now c) m now (s, db)
          else (w, [])
      | None => (w, [])
      end
  end.

End Handlers.

(** *** The life of one connection under the heartbeat *)

Inductive Beat :=
| Ponged
| Spoke (raw : option Inbound)
| Swept.

(** The socket after the listed events, each with its clock reading;
    [None] once a sweep has terminated it. *)
Fixpoint live_through (evs : list (Z * Beat)) (c : Socket) : option Socket :=
  match evs with
  | [] => Some c
  | (now, Ponged) :: evs' => live_through evs' (touch now c)
  | (now, Spoke raw) :: evs' => live_through evs' (socket_on_message raw now c)
  | (now, Swept) :: evs' =>
      if doomed now c then None else live_through evs' (sweep_socket now c).1
  end.

(** A server with no connection, on its own and beside a Redis channel. *)
Definition idle : Server :=
  {| wss := Some []; connsByIP := ∅; redisPub := false;
     instanceId := None; pid := 4242 |}.

Definition idle_shared : Server :=
  {| wss := Some []; connsByIP := ∅; redisPub := true;
     instanceId := None; pid := 4242 |}.

End WebSocketServer.

(* ------------------------------------------------------------------ *)
(** ** server/middleware/errorHandler.js and validation.js *)

Module Validation.
Import Js.

(** A field of a JSON body: [null], a boolean, a number (an integer that
    JavaScript prints in decimal) or a string; arrays and objects as
    field values are left out.  A field that is missing, [undefined], is
    [None]. *)
Inductive Value :=
| VNull
| VBool (b : bool)
| VNum (n : Z)
| VStr (s : string).

(** [String(v)], the conversion that [parseInt], a template string and
    [RegExp.prototype.test] apply to their argument. *)
Definition toString (v : Value) : string :=
  match v with
  | VNull => "null"
  | VBool true => "true"
  | VBool false => "false"
  | VNum n => pretty n
  | VStr s => s
  end.

Definition truthy_value (v : option Value) : bool :=
  match v with
  | Some (VBool b) => b
  | Some (VNum n) => negb (n =? 0)
  | Some (VStr s) => truthy (Some s)
  | Some VNull => false
  | None => false
  end.

(** An [AppError], and what a middleware or a handler can throw: an
    [AppError] or another [Error]. *)
Record AppError := {
  message : string;
  statusCode : Z;
  code : string
}.

Inductive Thrown :=
| Operational (e : AppError)
| Other (message : string).

(** A middleware calls [next()] with the request it has made, or throws. *)
Inductive Passage (A : Type) : Type :=
| Next (a : A)
| Throws (e : Thrown).
Arguments Next {A} a.
Arguments Throws {A} e.

(** [/^#[0-9A-Fa-f]{6}$/.test(s)] *)
Definition is_hex_digit (c : ascii) : bool :=
  match hex_digit_of c with
  | Some _ => true
  | None => false
  end.

Definition hexColorRegex (s : string) : bool :=
  match s with
  | String "#" r =>
      (String.length r =? 6)%nat && forallb is_hex_digit (list_ascii_of_string r)
  | _ => false
  end.

(** The fields [x], [y] and [color] of a body or of an element of
    [pixels]. *)
Record PixelBody := {
  b_x : option Value;
  b_y : option Value;
  b_color : option Value
}.

Definition out_of_range (config : Config.t) (xNum yNum : Z) : bool :=
  (xNum <? 0) || (Config.canvas_width config <=? xNum) ||
  (yNum <? 0) || (Config.canvas_height config <=? yNum).

(** [validatePixel]: on success the body holds the parsed coordinates and
    the colour in lower case, here the result. *)
Definition validatePixel (config : Config.t) (body : PixelBody)
  : Passage Database.Dot :=
  let missing :=
    Throws (Operational {| message := "Missing x, y, or color"; statusCode := 400;
                           code := "VALIDATION_ERROR" |}) in
  match b_x body, b_y body, b_color body with
  | Some x, Some y, Some color =>
      if negb (truthy_value (Some color)) then missing
      else
        match parseInt (toString x), parseInt (toString y) with
        | Some xNum, Some yNum =>
            if out_of_range config xNum yNum then
              Throws (Operational
                {| message := "Out of bounds (0-" +:+ pretty (Config.canvas_width config - 1)
                              +:+ ", 0-" +:+ pretty (Config.canvas_height config - 1) +:+ ")";
                   statusCode := 400; code := "OUT_OF_BOUNDS" |})
            else if negb (hexColorRegex (toString color)) then
              Throws (Operational {| message := "Invalid color format (#RRGGBB)";
                                     statusCode := 400; code := "INVALID_COLOR" |})
            else
              match color with
              | VStr c =>
                  let normalized := toLowerCase c in
                  if negb (bool_decide (normalized ∈ Config.canvas_palette config)) then
                    Throws (Operational {| message := "Color not in palette";
                                           statusCode := 400;
                                           code := "COLOR_NOT_IN_PALETTE" |})
                  else Next {| Database.d_x := xNum; Database.d_y := yNum;
                               Database.d_color := normalized |}
              | _ => Throws (Other "color.toLowerCase is not a function")
              end
        | _, _ =>
            Throws (Operational {| message := "Invalid coordinates"; statusCode := 400;
                                   code := "INVALID_COORDINATES" |})
        end
  | _, _, _ => missing
  end.

(** The body that [validatePixel] leaves in the request. *)
Definition normal_body (d : Database.Dot) : PixelBody :=
  {| b_x := Some (VNum (Database.d_x d)); b_y := Some (VNum (Database.d_y d));
     b_color := Some (VStr (Database.d_color d)) |}.

(** One turn of the loop of [validateCanvasImport]: the error it throws,
    if any. *)
Definition import_item (config : Config.t) (p : PixelBody) : option AppError :=
  match b_x p, b_y p, b_color p with
  | Some x, Some y, Some color =>
      if negb (truthy_value (Some color)) then
        Some {| message := "Invalid pixel data"; statusCode := 400;
                code := "INVALID_PIXEL_DATA" |}
      else
        match parseInt (toString x), parseInt (toString y) with
        | Some xNum, Some yNum =>
            if out_of_range config xNum yNum then
              Some {| message := "Out of bounds: " +:+ pretty xNum +:+ ", " +:+ pretty yNum;
                      statusCode := 400; code := "OUT_OF_BOUNDS" |}
            else if negb (hexColorRegex (toString color)) then
              Some {| message := "Invalid color: " +:+ toString color;
                      statusCode := 400; code := "INVALID_COLOR" |}
            else None
        | _, _ =>
            Some {| message := "Invalid coords: " +:+ toString x +:+ ", " +:+ toString y;
                    statusCode := 400; code := "INVALID_COORDINATES" |}
        end
  | _, _, _ =>
      Some {| message := "Invalid pixel data"; statusCode := 400;
              code := "INVALID_PIXEL_DATA" |}
  end.

(** The loop of [validateCanvasImport]: the first element that fails
    throws. *)
Fixpoint import_loop (config : Config.t) (pixels : list PixelBody) : option AppError :=
  match pixels with
  | [] => None
  | p :: rest =>
      match import_item config p with
      | Some e => Some e
      | None => import_loop config rest
      end
  end.

(** [validateCanvasImport]; [pixels] is [None] when the field is missing
    or is not an array. *)
Definition validateCanvasImport (config : Config.t) (pixels : option (list PixelBody))
  : Passage (list PixelBody) :=
  match pixels with
  | None =>
      Throws (Operational {| message := "pixels array required"; statusCode := 400;
                             code := "VALIDATION_ERROR" |})
  | Some l =>
      match import_loop config l with
      | Some e => Throws (Operational e)
      | None => Next l
      end
  end.

End Validation.

(* ------------------------------------------------------------------ *)
(** ** server/middleware/auth.js *)

Module Auth.
Import Js.

(** What [jwt.verify] does with a token: it returns the payload, or
    throws a [TokenExpiredError] or another error. *)
Inductive Jwt :=
| Decoded (u : WebSocketServer.User)
| TokenExpiredError
| JsonWebTokenError.

(** [res.status(status).json({ error, code })] *)
Record Reply := {
  status : Z;
  error : string;
  code : string
}.

Inductive Passage (A : Type) : Type :=
| Next (a : A)
| Respond (r : Reply).
Arguments Next {A} a.
Arguments Respond {A} r.

(** [req.headers['authorization']?.split(' ')[1]] *)
Definition bearer (authorization : option string) : option string :=
  authorization ≫= (fun h => split " " h !! 1%nat).

Section Middleware.
Variable jwt_verify : string -> Jwt.
Variable adminWallets : list string.

(** The middlewares, as functions to the [req.user] they pass on. *)
Definition authenticateToken (authorization : option string)
  : Passage WebSocketServer.User :=
  match bearer authorization with
  | Some token =>
      if negb (truthy (Some token)) then
        Respond {| status := 401; error := "Authentication required"; code := "NO_TOKEN" |}
      else
        match jwt_verify token with
        | Decoded u => Next u
        | TokenExpiredError =>
            Respond {| status := 401; error := "Token expired"; code := "TOKEN_EXPIRED" |}
        | JsonWebTokenError =>
            Respond {| status := 403; error := "Invalid token"; code := "INVALID_TOKEN" |}
        end
  | None =>
      Respond {| status := 401; error := "Authentication required"; code := "NO_TOKEN" |}
  end.

Definition optionalAuth (authorization : option string)
  : option WebSocketServer.User :=
  match bearer authorization with
  | Some token =>
      if negb (truthy (Some token)) then None
      else
        match jwt_verify token with
        | Decoded u => Some u
        | _ => None
        end
  | None => None
  end.

Definition requireAuthorization (user : option WebSocketServer.User)
  : Passage WebSocketServer.User :=
  match user with
  | None =>
      Respond {| status := 401; error := "Authentication required"; code := "NO_AUTH" |}
  | Some u =>
      if negb (WebSocketServer.isAuthorized u) then
        Respond {| status := 403; error := "NFT required"; code := "NOT_AUTHORIZED" |}
      else Next u
  end.

Definition requireAdmin (user : option WebSocketServer.User)
  : Passage WebSocketServer.User :=
  match user with
  | None =>
      Respond {| status := 401; error := "Authentication required"; code := "NO_AUTH" |}
  | Some u =>
      let isAdmin :=
        WebSocketServer.isAdmin u ||
        bool_decide (toLowerCase (WebSocketServer.address u) ∈ adminWallets) in
      if negb isAdmin then
        Respond {| status := 403; error := "Admin required"; code := "NOT_ADMIN" |}
      else
        Next {| WebSocketServer.address := WebSocketServer.address u;
                WebSocketServer.chainId := WebSocketServer.chainId u;
                WebSocketServer.isAuthorized := WebSocketServer.isAuthorized u;
                WebSocketServer.isAdmin := true |}
  end.

End Middleware.

End Auth.

(* ------------------------------------------------------------------ *)
(** ** server/routes/pixels.js, canvas.js and index.js *)

Module Routes.
Import Js.

(** The JSON bodies that the handlers and the middlewares send. *)
Inductive Body :=
| Failed (error code : string)
| Found (pixel : Database.Pixel)
| Blank (x y : Z)
| Placed (x y : Z) (color placedBy : string)
| PlacedBatch (placed : Z) (pixels : list Database.Dot) (placedBy : string)
| Erased (x y : Z) (erasedBy : string)
| Occupied (error : string) (current_pixels : Z)
| Malformed (error : string)
| Bootstrapped (imported : Z) (timestamp : Z) (message : string).

Record Response := {
  status : Z;
  body : Body
}.

(** A call of [broadcast]: of type ['pixel'] with the cell, its colour
    ([null] for an erasure), the writer and the flag [erased] when the
    object has one, or of type ['batch']. *)
Inductive Broadcast :=
| BPixel (x y : Z) (color : option string) (placedBy : string) (erased : bool)
| BBatch (pixels : list Database.Dot) (placedBy : string).

(** What serving a request comes to: the database afterwards, the
    response, the calls of [broadcast] and the counters incremented. *)
Record Served := {
  db : Database.State;
  response : Response;
  broadcasts : list Broadcast;
  counters : list string
}.

Definition reply (s : Database.State) (status : Z) (body : Body) : Served :=
  {| db := s; response := {| status := status; body := body |};
     broadcasts := []; counters := [] |}.

(** [Math.min(parseInt(limit || fallback, 10), cap)]; [None] is [NaN]. *)
Definition capped_limit (fallback : string) (cap : Z) (limit : option string)
  : option Z :=
  (fun n => Z.min n cap) <$> parseInt (if truthy limit then default fallback limit else fallback).

Section Handlers.
Variable config : Config.t.
Variable development : bool.
Variable jwt_verify : string -> Auth.Jwt.
Variable adminWallets : list string.

(** [errorHandler]: the errors met here have no [name], [type] or [code]
    that the handler knows, apart from the [AppError]s. *)
Definition errorHandler (s : Database.State) (e : Validation.Thrown) : Served :=
  match e with
  | Validation.Operational e =>
      reply s (Validation.statusCode e)
        (Failed (Validation.message e) (Validation.code e))
  | Validation.Other m =>
      reply s 500 (Failed (if development then m else "Unexpected error") "INTERNAL_ERROR")
  end.

Definition denied (s : Database.State) (r : Auth.Reply) : Served :=
  reply s (Auth.status r) (Failed (Auth.error r) (Auth.code r)).

(** [GET /pixels/:x/:y] *)
Definition get_pixel (px py : string) (s : Database.State) : Served :=
  match parseInt px, parseInt py with
  | Some x, Some y =>
      match CanvasService.getPixel x y s with
      | Some pixel => reply s 200 (Found pixel)
      | None => reply s 200 (Blank x y)
      end
  | _, _ => reply s 400 (Failed "Invalid coordinates" "INVALID_COORDINATES")
  end.

(** [POST /pixels]: [authenticateToken], [requireAuthorization],
    [pixelLimiter], whose verdict is [limited], [validatePixel], then the
    handler. *)
Definition post_pixel (authorization : option string) (limited : bool)
    (body : Validation.PixelBody) (now : Z) (s : Database.State) : Served :=
  match Auth.authenticateToken jwt_verify authorization with
  | Auth.Respond r => denied s r
  | Auth.Next user =>
      match Auth.requireAuthorization (Some user) with
      | Auth.Respond r => denied s r
      | Auth.Next user =>
          if limited then
            reply s 429 (Failed "Pixel rate limit exceeded" "PIXEL_RATE_LIMITED")
          else
            match Validation.validatePixel config body with
            | Validation.Throws e => errorHandler s e
            | Validation.Next d =>
                let addr := WebSocketServer.address user in
                match CanvasService.placePixel (Database.d_x d) (Database.d_y d)
                        (Database.d_color d) (Some addr) now s with
                | Throw m => errorHandler s (Validation.Other m)
                | Ok s' =>
                    {| db := s';
                       response :=
                         {| status := 201;
                            body := Placed (Database.d_x d) (Database.d_y d)
                                      (Database.d_color d) addr |};
                       broadcasts :=
                         [BPixel (Database.d_x d) (Database.d_y d)
                            (Some (Database.d_color d)) addr false];
                       counters := ["pixels_placed_total"%string] |}
                end
            end
      end
  end.

(** The elements of a batch after the first filter and the [map]. *)
Record Parsed := {
  q_x : option Z;
  q_y : option Z;
  q_color : string
}.

Definition candidate (p : Validation.PixelBody) : bool :=
  match Validation.b_x p, Validation.b_y p, Validation.b_color p with
  | Some _, Some _, Some color =>
      Validation.truthy_value (Some color) &&
      Validation.hexColorRegex (Validation.toString color)
  | _, _, _ => false
  end.

(** A colour that passed the pattern is a string, so that [toLowerCase]
    is only called on strings. *)
Definition parsed (p : Validation.PixelBody) : Parsed :=
  {| q_x := Validation.b_x p ≫= (fun x => parseInt (Validation.toString x));
     q_y := Validation.b_y p ≫= (fun y => parseInt (Validation.toString y));
     q_color := toLowerCase (default ""%string (Validation.toString <$> Validation.b_color p)) |}.

Definition inside (q : Parsed) : bool :=
  match q_x q, q_y q with
  | Some x, Some y => negb (Validation.out_of_range config x y)
  | _, _ => false
  end.

Definition to_dot (q : Parsed) : option Database.Dot :=
  match q_x q, q_y q with
  | Some x, Some y =>
      Some {| Database.d_x := x; Database.d_y := y; Database.d_color := q_color q |}
  | _, _ => None
  end.

Definition valid_pixels (pixels : list Validation.PixelBody) : list Database.Dot :=
  omap to_dot
    (List.filter (fun q => bool_decide (q_color q ∈ Config.canvas_palette config))
       (List.filter inside (parsed <$> List.filter candidate pixels))).

(** [POST /pixels/batch]; [pixels] is [None] when the field is not an
    array. *)
Definition post_batch (authorization : option string)
    (pixels : option (list Validation.PixelBody)) (now : Z) (s : Database.State)
  : Served :=
  match Auth.authenticateToken jwt_verify authorization with
  | Auth.Respond r => denied s r
  | Auth.Next user =>
      match Auth.requireAuthorization (Some user) with
      | Auth.Respond r => denied s r
      | Auth.Next user =>
          match pixels with
          | None | Some [] => reply s 400 (Failed "Pixels array required" "INVALID_REQUEST")
          | Some pixels =>
              if 10 <? Z.of_nat (length pixels) then
                reply s 400 (Failed "Max 10 pixels per batch" "BATCH_TOO_LARGE")
              else
                match valid_pixels pixels with
                | [] => reply s 400 (Failed "No valid pixels" "INVALID_PIXELS")
                | valid =>
                    let addr := WebSocketServer.address user in
                    match CanvasService.placePixelsBatch valid (Some addr) now s with
                    | Throw m => errorHandler s (Validation.Other m)
                    | Ok s' =>
                        {| db := s';
                           response :=
                             {| status := 201;
                                body := PlacedBatch (Z.of_nat (length valid)) valid addr |};
                           broadcasts := [BBatch valid addr];
                           counters := [] |}
                    end
                end
          end
      end
  end.

(** [DELETE /pixels/:x/:y]: [authenticateToken], [requireAdmin], then the
    handler. *)
Definition delete_pixel (authorization : option string) (px py : string)
    (now : Z) (s : Database.State) : Served :=
  match Auth.authenticateToken jwt_verify authorization with
  | Auth.Respond r => denied s r
  | Auth.Next user =>
      match Auth.requireAdmin adminWallets (Some user) with
      | Auth.Respond r => denied s r
      | Auth.Next user =>
          match parseInt px, parseInt py with
          | Some x, Some y =>
              let addr := WebSocketServer.address user in
              match Database.erasePixel x y (Some addr) now s with
              | Throw m => errorHandler s (Validation.Other m)
              | Ok s' =>
                  {| db := s';
                     response := {| status := 200; body := Erased x y addr |};
                     broadcasts := [BPixel x y None addr true];
                     counters := ["pixels_erased_total"%string] |}
              end
          | _, _ => reply s 400 (Failed "Invalid coordinates" "INVALID_COORDINATES")
          end
      end
  end.

(** [POST /bootstrap]; [pixels] is [None] when the field is missing or is
    not an array, and its elements hold numbers and a string.  Of what
    [canvasService.getStats] adds to the statistics of the database the
    handler reads nothing. *)
Definition bootstrap (pixels : option (list Database.Dot)) (now : Z)
    (s : Database.State) : Served :=
  match Database.getStats now s with
  | Throw m => errorHandler s (Validation.Other m)
  | Ok (stats, s) =>
      if 0 <? Database.total_pixels stats then
        reply s 403
          (Occupied "Canvas already has data. Bootstrap only works on empty database."
             (Database.total_pixels stats))
      else
        match pixels with
        | None => reply s 400 (Malformed "Invalid format: expected { pixels: [...] }")
        | Some dots =>
            match CanvasService.importCanvas config dots now s with
            | Throw m => errorHandler s (Validation.Other m)
            | Ok s' =>
                reply s' 200
                  (Bootstrapped (Z.of_nat (length dots)) now "Bootstrap import complete")
            end
        end
  end.


(** [GET /pixels/user/:address] *)
Definition get_user_history (address : string) (limit : option string)
    (s : Database.State) : option (result (list Database.Trace)) :=
  (fun n => CanvasService.getUserHistory (toLowerCase address) (Some n) s)
    <$> capped_limit "50" 200 limit.

End Handlers.

End Routes.

(* ================================================================== *)
(** * Vocabulary of the properties *)

Module Inv.
Import Js Database.

(** The cache that mirrors a cell table: one entry per row, under the
    row's key. *)
Definition view (t : gmap (Z * Z) Cell) : gmap string Pixel :=
  kmap key_of (map_imap (fun xy c => Some (row_of xy c)) t).

(** A map after a loop that stores, for each element of a list in turn,
    a value under a key. *)
Definition fill `{Countable K} {A V} (kf : A -> K) (vf : A -> V)
    (m : gmap K V) (l : list A) : gmap K V :=
  foldl (fun m a => <[kf a := vf a]> m) m l.

(** The cache after [rows.forEach(p => cache.pixels.set(key, p))]. *)
Definition load (c : gmap string Pixel) (rows : list Pixel) : gmap string Pixel :=
  fill (fun p => key (p_x p) (p_y p)) (fun p => p) c rows.

(** The cache and its count agree with table [pixels]. *)
Record coherent (s : State) : Prop := {
  coh_cache : cache_pixels s = view (pixels s);
  coh_count : cache_count s = Z.of_nat (size (cache_pixels s))
}.

(** The history rows are in strictly descending [id], all below the
    sequence value. *)
Fixpoint descending (bound : Z) (h : list History) : Prop :=
  match h with
  | [] => True
  | r :: h' => h_id r <= bound /\ descending (h_id r - 1) h'
  end.

Definition log_ok (s : State) : Prop :=
  descending (history_seq s) (pixel_history s).

(** The cache holds exactly the rows of table [pixels]. *)
Definition mirror (s : State) : Prop := cache_pixels s = view (pixels s).

(** The states the module can be in: what [initDatabase] builds from a
    database file whose log is well formed, with or without an embedded
    backup, and what the exported operations make of such a state. *)
Inductive reachable : State -> Prop :=
| reach_start t h q us sn backup now :
    descending q h -> reachable (initDatabase (t, h, q, us, sn) backup now)
| reach_mutate s now m s' :
    reachable s -> mutate now m s = Ok s' -> reachable s'
| reach_stats s now d s' :
    reachable s -> getStats now s = Ok (d, s') -> reachable s'
| reach_clear cfg s now s' :
    reachable s -> CanvasService.clearCanvas cfg now s = Ok s' -> reachable s'
| reach_import cfg s dots now s' :
    reachable s -> CanvasService.importCanvas cfg dots now s = Ok s' -> reachable s'
| reach_bulk s dots now s' :
    reachable s -> bulkImport dots now s = Ok s' -> reachable s'.

(** What every reachable state satisfies. *)
Record sound (s : State) : Prop := {
  sound_mirror : mirror s;
  sound_log : log_ok s;
  sound_init : dbInitialized s = true
}.

(** The observable grid: colour and writer of every occupied cell. *)
Definition grid (s : State) : gmap string (Z * Z * string * option string) :=
  (fun p => (p_x p, p_y p, p_color p, p_placed_by p)) <$> cache_pixels s.

(** The same, read from table [pixels]. *)
Definition table_grid (s : State) : gmap (Z * Z) (string * option string) :=
  (fun c => (c_color c, c_placed_by c)) <$> pixels s.

(** The log row a mutation appends when the sequence stands at [q]. *)
Definition entry (q x y : Z) (color : string) (by_ : option string) (now : Z)
  : History :=
  {| h_id := q + 1; h_x := x; h_y := y; h_color := color;
     h_placed_by := by_; h_placed_at := now |}.

(** A database file that was just created, opened with no backup. *)
Definition fresh : State := initDatabase empty_disk None 0.

(** An embedded backup that names the cell (0, 0) twice. *)
Definition twice_listed : list Dot :=
  [ {| d_x := 0; d_y := 0; d_color := "#ff0000" |};
    {| d_x := 0; d_y := 0; d_color := "#0000ff" |} ].

(** The state after 100498 placements on a fresh database. *)
Definition busy : State :=
  N.iter 100498 (placePixelTx 0 0 "#ff0000" (Some "0xa") 0) fresh.

(** The state after 100501 erasures on a fresh database. *)
Definition scrubbed : State :=
  N.iter 100501 (eraseTx 0 0 (Some "0xa") 0) fresh.

(** Log rows a mutation appends, and whether it advances the pruning
    counter. *)
Definition rows_of (m : Mutation) : Z :=
  match m with
  | Place _ _ _ _ => 1
  | PlaceBatch dots _ => Z.of_nat (length dots)
  | Erase _ _ _ => 1
  end.

Definition advances (m : Mutation) : bool :=
  match m with
  | Place _ _ _ _ => true
  | PlaceBatch (_ :: _) _ => true
  | PlaceBatch [] _ => false
  | Erase _ _ _ => false
  end.

Definition is_place (m : Mutation) : bool :=
  match m with
  | Place _ _ _ _ => true
  | _ => false
  end.

(** The pruning counter, paired with the number of rows appended since
    the check last ran, followed along a run without looking at the
    state: the amended reading of the truncation rule. *)
Definition tally (m : Mutation) (c : Z * Z) : Z * Z :=
  if advances m then
    if c.1 + 1 <? PRUNE_CHECK_INTERVAL then (c.1 + 1, c.2 + rows_of m)
    else (0, 0)
  else (c.1, c.2 + rows_of m).

Definition tally_run (ms : list (Z * Mutation)) (c : Z * Z) : Z * Z :=
  foldl (fun c nm => tally nm.2 c) c ms.

Definition triple (d : Dot) : Z * Z * string := (d_x d, d_y d, d_color d).
Definition coord (d : Dot) : Z * Z := (d_x d, d_y d).

(** A new database with one cell placed. *)
Definition painted : State := placePixelTx 1 2 "#ff0000" (Some "0xa") 5 fresh.

(** The occupied cells as a set of [(x, y, colour)] triples, read from
    the cache and from the table. *)
Definition cache_cells (s : State) : gset (Z * Z * string) :=
  list_to_set ((fun d => (d_x d, d_y d, d_color d)) <$> getAllPixels s).

Definition table_cells (s : State) : gset (Z * Z * string) :=
  list_to_set ((fun kc => (kc.1.1, kc.1.2, c_color kc.2)) <$> map_to_list (pixels s)).

(** Within the grid. *)
Definition in_bounds (cfg : Config.t) (x y : Z) : Prop :=
  0 <= x < Config.canvas_width cfg /\ 0 <= y < Config.canvas_height cfg.

End Inv.

Module Replay.
Import Js NonceStore.

(** No record of the pair is in force at [now], in either table. *)
Definition unused (k : string) (now : Z) (s : State) : Prop :=
  store s !! k = None /\
  forall r v expiry, redisClient s = Some r -> r !! k = Some (v, expiry) -> expiry <= now.

(** Two calls consult the same table: there is no shared backend, or it
    answers both calls, or it fails both. *)
Definition same_backend (s : State) (up0 up1 : bool) : Prop :=
  redisClient s = None \/ up0 = up1.

(** The timestamp [t] is within five minutes of [now]. *)
Definition in_window (t : string) (now : Z) : Prop :=
  exists ts, parseInt t = Some ts /\ Z.abs (now - ts) <= 5 * 60 * 1000.

Definition off_window (t : string) (now : Z) : Prop :=
  parseInt t = None \/
  exists ts, parseInt t = Some ts /\ 5 * 60 * 1000 < Z.abs (now - ts).

(** The record made at [now0] by a call with flag [up0] is in force. *)
Definition recorded (k : string) (now0 : Z) (up0 : bool) (s : State) : Prop :=
  match redisClient s with
  | Some r =>
      if up0 then exists v, r !! k = Some (v, now0 + TTL)
      else store s !! k = Some now0
  | None => store s !! k = Some now0
  end.

End Replay.

Module Wire.
Import Js WebSocketServer.

(** The reason of a capacity refusal (close code 1013) among the effects
    of a connection attempt. *)
Fixpoint refused (effs : list Effect) : option string :=
  match effs with
  | [] => None
  | Close _ 1013 reason :: _ => Some reason
  | _ :: effs' => refused effs'
  end.

(** The attempt carries no token, or one that [jwt.verify] accepts. *)
Definition token_ok (jwt_verify : string -> option User) (token : option string) : Prop :=
  truthy token = false \/ exists t u, token = Some t /\ jwt_verify t = Some u.

(** The messages that a list of effects puts on the shared channel, as a
    subscriber reads them. *)
Definition published (effs : list Effect) : list (string * Shared) :=
  effs ≫= (fun e =>
    match e with
    | Publish ch type data origin =>
        [(ch, {| sh_type := type; sh_data := data; sh_origin := Some origin |})]
    | _ => []
    end).

(** Between two sweeps, or before the first, the connection answered: a
    pong or a message that parses arrived.  [answered] is the state of
    that at the head of the list. *)
Fixpoint answers (answered : bool) (evs : list (Z * Beat)) : Prop :=
  match evs with
  | [] => True
  | (_, Ponged) :: evs' => answers true evs'
  | (_, Spoke (Some _)) :: evs' => answers true evs'
  | (_, Spoke None) :: evs' => answers answered evs'
  | (_, Swept) :: evs' => answered = true /\ answers false evs'
  end.

(** At every sweep the last pong or parsed message is at most sixty
    seconds old; [last] is its instant at the head of the list. *)
Fixpoint active (last : Z) (evs : list (Z * Beat)) : Prop :=
  match evs with
  | [] => True
  | (now, Ponged) :: evs' => active now evs'
  | (now, Spoke (Some _)) :: evs' => active now evs'
  | (_, Spoke None) :: evs' => active last evs'
  | (now, Swept) :: evs' => now - last <= 60000 /\ active last evs'
  end.

(** A connection admitted at instant 0 with a token that authorises it. *)
Definition member : User :=
  {| address := "0xa"; chainId := 1; isAuthorized := true; isAdmin := false |}.

Definition guest : Socket :=
  touch 0 (set_listening (set_user member (set_clientIP "10.0.0.1" (new_socket 7)))).

Definition hall : Server :=
  {| wss := Some [guest]; connsByIP := {[ "10.0.0.1"%string := {[ 7%nat ]} ]};
     redisPub := false; instanceId := None; pid := 4242 |}.

(** A client that never answers a ping and sends, every ten seconds, a
    text frame that is not JSON, under sweeps every twenty-five seconds. *)
Definition chatter (raw : option Inbound) : list (Z * Beat) :=
  [(10000, Spoke raw); (20000, Spoke raw); (25000, Swept);
   (30000, Spoke raw); (40000, Spoke raw); (50000, Swept);
   (60000, Spoke raw); (70000, Spoke raw); (75000, Swept)].

(** The same on the server: the handlers and the heartbeat in turn. *)
Definition serve (cfg : Config.t) (evs : list (Z * Beat)) (w : World)
  : World * list Effect :=
  foldl (fun (acc : World * list Effect) (ne : Z * Beat) =>
           let '((s, db), out) := acc in
           match ne.2 with
           | Ponged => ((on_pong 7 ne.1 s, db), out)
           | Spoke raw =>
               let '(w, e) := on_message cfg 7 raw ne.1 (s, db) in (w, out ++ e)
           | Swept =>
               let '(s, e) := heartbeat ne.1 s in ((s, db), out ++ e)
           end) (w, []) evs.

End Wire.

Module Ledger.
Import Js Database.

(** The pixel count that table [users] holds for an address, 0 when it
    has no row. *)
Definition pixel_count_of (a : string) (s : State) : Z :=
  default 0 (u_pixel_count <$> users s !! a).

(** What a mutation adds to the pixel count of [a], told from the
    mutation alone. *)
Definition credit (a : string) (m : Mutation) : Z :=
  match m with
  | Place _ _ _ (Some b) =>
      if truthy (Some b) && bool_decide (b = a) then 1 else 0
  | PlaceBatch (d :: dots) (Some b) =>
      if truthy (Some b) && bool_decide (b = a)
      then Z.of_nat (length (d :: dots)) else 0
  | _ => 0
  end.

Definition credits (a : string) (ms : list (Z * Mutation)) : Z :=
  foldr (fun nm acc => credit a nm.2 + acc) 0 ms.

(** The cached statistics, when there are any, give the present number
    of cells and of log rows. *)
Definition stats_agree (s : State) : Prop :=
  forall d, statsCache_data s = Some d ->
    total_pixels d = getPixelCount s /\ total_placements d = getHistoryCount s.

End Ledger.

Module Desk.
Import Js Database.

(** Every row of table [pixels] lies within the grid and has a colour of
    the palette. *)
Definition tidy (cfg : Config.t) (s : State) : Prop :=
  forall x y c, pixels s !! (x, y) = Some c ->
    Inv.in_bounds cfg x y /\ c_color c ∈ Config.canvas_palette cfg.

(** A cell of the grid with a colour of the palette. *)
Definition fits (cfg : Config.t) (d : Dot) : Prop :=
  Inv.in_bounds cfg (d_x d) (d_y d) /\ d_color d ∈ Config.canvas_palette cfg.

(** The requests of the pixel routes. *)
Inductive Request :=
| GetPixel (px py : string)
| PostPixel (authorization : option string) (limited : bool)
    (body : Validation.PixelBody)
| PostBatch (authorization : option string)
    (pixels : option (list Validation.PixelBody))
| DeletePixel (authorization : option string) (px py : string).

Section Serving.
Variable config : Config.t.
Variable development : bool.
Variable jwt_verify : string -> Auth.Jwt.
Variable adminWallets : list string.

Definition serve (now : Z) (r : Request) (s : State) : Routes.Served :=
  match r with
  | GetPixel px py => Routes.get_pixel px py s
  | PostPixel authorization limited body =>
      Routes.post_pixel config development jwt_verify authorization limited body now s
  | PostBatch authorization pixels =>
      Routes.post_batch config development jwt_verify authorization pixels now s
  | DeletePixel authorization px py =>
      Routes.delete_pixel development jwt_verify adminWallets authorization px py now s
  end.

(** The database after a list of requests, each with its clock
    reading. *)
Definition serve_all (rs : list (Z * Request)) (s : State) : State :=
  foldl (fun s nr => Routes.db (serve nr.1 nr.2 s)) s rs.

End Serving.

(** A token that [jwt.verify] accepts for the user it names. *)
Definition desk_user : WebSocketServer.User :=
  {| WebSocketServer.address := "0xa"; WebSocketServer.chainId := 1;
     WebSocketServer.isAuthorized := true; WebSocketServer.isAdmin := false |}.

Definition desk_jwt (token : string) : Auth.Jwt :=
  if String.eqb token "good" then Auth.Decoded desk_user
  else if String.eqb token "old" then Auth.TokenExpiredError
  else Auth.JsonWebTokenError.

End Desk.

Module Floor.
Import Js WebSocketServer.

(** What happens to the set of connections. *)
Inductive Visit :=
| Arrives (id : nat) (ip : string) (token : option string)
| Leaves (id : nat)
| Sweeps
| Answers (id : nat).

Section Floor.
Variables (MAX_PER_IP MAX_TOTAL : Z).
Variable jwt_verify : string -> option User.
Variable config : Config.t.
Variable db : Database.State.

Definition visit (now : Z) (v : Visit) (s : Server) : Server :=
  match v with
  | Arrives id ip token =>
      (accept MAX_PER_IP MAX_TOTAL jwt_verify config id ip token now db s).1
  | Leaves id => on_close id s
  | Sweeps => (heartbeat now s).1
  | Answers id => on_pong id now s
  end.

Definition visits (vs : list (Z * Visit)) (s : Server) : Server :=
  foldl (fun s nv => visit nv.1 nv.2 s) s vs.

End Floor.

(** The connections that are served: those with their handlers
    attached. *)
Definition served (s : Server) : list Socket :=
  List.filter listening (default [] (wss s)).

(** The connections that [connsByIP] counts for an address. *)
Definition counted (ip : string) (s : Server) : Z :=
  Z.of_nat (size (default ∅ (connsByIP s !! ip))).

(** No address is counted above the cap per address, and the served
    connections stay below the total cap. *)
Definition capped (MAX_PER_IP MAX_TOTAL : Z) (s : Server) : Prop :=
  (forall ip, counted ip s <= MAX_PER_IP) /\
  (Z.of_nat (length (served s)) < MAX_TOTAL \/ served s = []).

End Floor.

(* ================================================================== *)
(** * Properties *)

(* ------------------------------------------------------------------ *)
(** ** The cache key is injective *)

Section CacheKey.

Import Js.

Lemma occurs_app c s1 s2 : occurs c (s1 +:+ s2) <-> occurs c s1 \/ occurs c s2.
Proof. induction s1 as [|a s1 IH]; simpl; [tauto | rewrite IH; tauto]. Qed.

Lemma pretty_N_char_no_comma n : pretty_N_char n <> ","%char.
Proof. unfold pretty_N_char. repeat case_match; discriminate. Qed.

Lemma pretty_N_go_no_comma n s :
  ~ occurs "," s -> ~ occurs "," (pretty_N_go n s).
Proof.
  revert s. induction (N.lt_wf_0 n) as [n _ IH]; intros s Hs.
  destruct (decide (n = 0%N)) as [->|Hn].
  - by rewrite pretty_N_go_0.
  - rewrite pretty_N_go_step by lia.
    apply IH; [apply N.div_lt; lia|].
    simpl. intros [H|H]; [by apply pretty_N_char_no_comma in H | done].
Qed.

Lemma pretty_N_no_comma (n : N) : ~ occurs "," (pretty n).
Proof.
  unfold pretty, pretty_N. destruct (decide (n = 0%N)).
  - simpl. intros [H|[]]. discriminate.
  - apply pretty_N_go_no_comma. simpl. tauto.
Qed.

Lemma pretty_Z_no_comma (z : Z) : ~ occurs "," (pretty z).
Proof.
  destruct z as [|p|p]; unfold pretty, pretty_Z.
  - simpl. intros [H|[]]. discriminate.
  - apply pretty_N_no_comma.
  - rewrite occurs_app. intros [H|H].
    + simpl in H. destruct H as [H|[]]. discriminate.
    + by apply pretty_N_no_comma in H.
Qed.

Lemma split_at_separator c a1 a2 b1 b2 :
  ~ occurs c a1 -> ~ occurs c a2 ->
  a1 +:+ String c b1 = a2 +:+ String c b2 -> a1 = a2 /\ b1 = b2.
Proof.
  revert a2. induction a1 as [|x a1 IH]; intros [|y a2] H1 H2 E; simpl in *.
  - by injection E.
  - injection E as -> _. tauto.
  - injection E as -> _. tauto.
  - injection E as -> E. destruct (IH a2) as [-> ->]; tauto.
Qed.

Lemma key_inj x1 y1 x2 y2 :
  Database.key x1 y1 = Database.key x2 y2 -> x1 = x2 /\ y1 = y2.
Proof.
  unfold Database.key. intros E.
  apply split_at_separator in E as [E1 E2]; try apply pretty_Z_no_comma.
  split; by apply (inj pretty).
Qed.

#[global] Instance key_of_inj : Inj (=) (=) Database.key_of.
Proof.
  intros [x1 y1] [x2 y2] E. unfold Database.key_of in E; simpl in E.
  apply key_inj in E as [-> ->]. done.
Qed.

End CacheKey.

(* ------------------------------------------------------------------ *)
(** ** The cache mirrors the cell table *)

Section Mirror.
Import Js Database Inv.

Lemma view_empty : view ∅ = ∅.
Proof. unfold view. by rewrite map_imap_empty, kmap_empty. Qed.

Lemma view_insert t x y c :
  view (<[(x, y) := c]> t) = <[key x y := row_of (x, y) c]> (view t).
Proof.
  unfold view.
  rewrite (map_imap_insert_Some _ _ _ _ (row_of (x, y) c)) by done.
  by rewrite (kmap_insert key_of).
Qed.

Lemma view_delete t x y :
  view (delete (x, y) t) = delete (key x y) (view t).
Proof. unfold view. by rewrite map_imap_delete, (kmap_delete key_of). Qed.

Lemma view_lookup t x y :
  view t !! key x y = row_of (x, y) <$> t !! (x, y).
Proof.
  unfold view. change (key x y) with (key_of (x, y)).
  rewrite (lookup_kmap key_of), map_lookup_imap.
  by destruct (t !! (x, y)).
Qed.

Lemma view_lookup_Some t k p :
  view t !! k = Some p ->
  k = key (p_x p) (p_y p) /\
  exists c, t !! (p_x p, p_y p) = Some c /\ p = row_of (p_x p, p_y p) c.
Proof.
  unfold view. intros H.
  apply (lookup_kmap_Some key_of) in H as ([x y] & -> & H).
  rewrite map_lookup_imap in H.
  destruct (t !! (x, y)) as [c|] eqn:E; simplify_eq/=.
  split; [done|]. by exists c.
Qed.

Lemma view_size t : size (view t) = size t.
Proof.
  induction t as [|[x y] c t Hnew IH] using map_ind.
  - by rewrite view_empty, !map_size_empty.
  - rewrite view_insert.
    rewrite !map_size_insert_None; [by rewrite IH | done |].
    by rewrite view_lookup, Hnew.
Qed.

End Mirror.

(* ------------------------------------------------------------------ *)
(** ** What each transaction does to each part of the state *)

(** The offset given to the pruning statement is a large literal: it is
    never to be expanded into a unary number. *)
#[local] Arguments Z.to_nat : simpl never.
#[local] Arguments Database.maybePruneHistory : simpl never.
#[local] Arguments Database.pruneHistory : simpl never.

Ltac open_state s :=
  destruct s as [px h q us sn cp cc sd sts since ini].

Ltac db_unfold :=
  cbv beta iota zeta delta
    [Database.placePixelTx Database.placeBatch_step Database.eraseTx
     Database.bulkImport_step Database.importTx_step
     Database.invalidate_stats Database.cache_set Database.cache_delete
     Database.cache_has Database.setPixel Database.deletePixel
     Database.addHistory Database.incUserPixels Database.addUserPixels
     Database.upsertUser Database.stmt_clearCanvas Database.set_statsCache
     Database.set_cache_count Database.set_cache_pixels
     Database.set_snapshots Database.set_users Database.set_history
     Database.set_pixels Database.set_placementsSincePrune
     Database.set_dbInitialized
     Database.pixels Database.pixel_history Database.history_seq
     Database.users Database.canvas_snapshots Database.cache_pixels
     Database.cache_count Database.statsCache_data Database.statsCache_ts
     Database.placementsSincePrune Database.dbInitialized] in *.

Section Effects.
Import Js Database Inv.

(** The pruning check touches the log and its counter only. *)
Lemma maybePruneHistory_shape s :
  exists h n,
    maybePruneHistory s =
    set_history (fun _ => h) (fun q => q) (set_placementsSincePrune n s).
Proof.
  open_state s. unfold maybePruneHistory, pruneHistory, history_id_at_offset,
    getHistoryCount. simpl.
  repeat case_match; db_unfold; eexists _, _; reflexivity.
Qed.

Lemma placePixelTx_shape x y color addr now s :
  exists us,
    placePixelTx x y color addr now s =
    maybePruneHistory
      {| pixels := <[(x, y) := {| c_color := color; c_placed_by := addr;
                                 c_placed_at := now |}]> (pixels s);
         pixel_history :=
           {| h_id := history_seq s + 1; h_x := x; h_y := y; h_color := color;
              h_placed_by := addr; h_placed_at := now |} :: pixel_history s;
         history_seq := history_seq s + 1;
         users := us;
         canvas_snapshots := canvas_snapshots s;
         cache_pixels :=
           <[key x y := {| p_x := x; p_y := y; p_color := color;
                           p_placed_by := addr; p_placed_at := now |}]>
             (cache_pixels s);
         cache_count :=
           if cache_has (key x y) s then cache_count s else 1 + cache_count s;
         statsCache_data := None; statsCache_ts := statsCache_ts s;
         placementsSincePrune := placementsSincePrune s;
         dbInitialized := dbInitialized s |}.
Proof.
  open_state s. db_unfold.
  destruct addr as [a|]; [destruct (truthy (Some a))|];
    destruct (bool_decide (is_Some (cp !! key x y)));
    eexists; reflexivity.
Qed.

Lemma eraseTx_shape x y admin now s :
  eraseTx x y admin now s =
    {| pixels := delete (x, y) (pixels s);
       pixel_history :=
         {| h_id := history_seq s + 1; h_x := x; h_y := y; h_color := "ERASED";
            h_placed_by := admin; h_placed_at := now |} :: pixel_history s;
       history_seq := history_seq s + 1;
       users := users s;
       canvas_snapshots := canvas_snapshots s;
       cache_pixels :=
         if cache_has (key x y) s then delete (key x y) (cache_pixels s)
         else cache_pixels s;
       cache_count :=
         if cache_has (key x y) s then cache_count s - 1 else cache_count s;
       statsCache_data := None; statsCache_ts := statsCache_ts s;
       placementsSincePrune := placementsSincePrune s;
       dbInitialized := dbInitialized s |}.
Proof.
  open_state s. db_unfold.
  by destruct (bool_decide (is_Some (cp !! key x y))).
Qed.

Lemma foldl_invariant {A B} (P : A -> Prop) (f : A -> B -> A) l a :
  P a -> (forall a b, P a -> P (f a b)) -> P (foldl f a l).
Proof. intros Ha Hf. revert a Ha. induction l; simpl; auto. Qed.

(** The loop of [placeBatch] touches the two tables it writes and the
    cache map; the count is only updated after the loop. *)
Lemma placeBatch_loop_frame addr now dots s n :
  let s' := (foldl (placeBatch_step addr now) (s, n) dots).1 in
  cache_count s' = cache_count s /\ users s' = users s /\
  canvas_snapshots s' = canvas_snapshots s /\
  statsCache_data s' = statsCache_data s /\ statsCache_ts s' = statsCache_ts s /\
  placementsSincePrune s' = placementsSincePrune s /\
  dbInitialized s' = dbInitialized s.
Proof.
  revert s n. induction dots as [|d dots IH]; intros s n; simpl; [done|].
  unfold placeBatch_step at 2.
  match goal with |- context [foldl _ (?a, ?b) dots] => specialize (IH a b) end.
  simpl in IH. open_state s. db_unfold. exact IH.
Qed.

Lemma placeBatch_loop_history addr now dots s n :
  let s' := (foldl (placeBatch_step addr now) (s, n) dots).1 in
  history_seq s' = history_seq s + Z.of_nat (length dots) /\
  exists new, pixel_history s' = new ++ pixel_history s /\
              length new = length dots /\
              Forall (fun r => h_placed_by r = addr /\ history_seq s < h_id r) new /\
              (log_ok s -> log_ok s').
Proof.
  revert s n. induction dots as [|d dots IH]; intros s n; simpl.
  - split; [lia|]. exists []. by repeat split.
  - unfold placeBatch_step at 2.
    match goal with |- context [foldl _ (?a, ?b) dots] => specialize (IH a b) end.
    simpl in IH. destruct IH as (Hq & new & Hh & Hl & Hall & Hok).
    open_state s. db_unfold. split; [lia|].
    exists (new ++ [{| h_id := q + 1; h_x := d_x d; h_y := d_y d;
                        h_color := d_color d; h_placed_by := addr;
                        h_placed_at := now |}]).
    rewrite <- app_assoc. simpl. split; [done|].
    split; [rewrite length_app; simpl; lia|].
    split.
    + apply Forall_app. split.
      * eapply Forall_impl; [exact Hall|]. simpl. intros r [? ?]. split; [done|lia].
      * constructor; [|constructor]. simpl. split; [done|lia].
    + intros Hd. apply Hok. unfold log_ok in *. simpl in *.
      split; [lia|]. by replace (q + 1 - 1) with q by lia.
Qed.

(** The loop keeps the cache a mirror of the table, and [newCount] counts
    the entries it adds to the cache. *)
Lemma placeBatch_loop_mirror addr now dots s n :
  let r := foldl (placeBatch_step addr now) (s, n) dots in
  cache_pixels s = view (pixels s) ->
  cache_pixels r.1 = view (pixels r.1) /\
  Z.of_nat (size (cache_pixels r.1)) - r.2 = Z.of_nat (size (cache_pixels s)) - n /\
  dom (pixels r.1) = list_to_set ((fun d => (d_x d, d_y d)) <$> dots) ∪ dom (pixels s).
Proof.
  revert s n. induction dots as [|d dots IH]; intros s n; simpl.
  - intros E. split; [done|]. split; [done|].
    change (dom (pixels s) = ∅ ∪ dom (pixels s)). by rewrite (left_id_L ∅ (∪)).
  - intros E. unfold placeBatch_step at 2.
    match goal with |- context [foldl _ (?a, ?b) dots] => specialize (IH a b) end.
    simpl in IH. destruct IH as (Hc & Hn & Hd).
    + open_state s. db_unfold. subst cp. by rewrite view_insert.
    + split; [exact Hc|]. split.
      * rewrite Hn. open_state s. db_unfold.
        destruct (bool_decide (is_Some (cp !! key (d_x d) (d_y d)))) eqn:B.
        -- apply bool_decide_eq_true in B. rewrite map_size_insert_Some by done. lia.
        -- apply bool_decide_eq_false in B.
           rewrite map_size_insert_None; [lia|].
           by apply eq_None_not_Some.
      * rewrite Hd. open_state s. db_unfold.
        rewrite dom_insert_L.
        change (list_to_set ((fun d => (d_x d, d_y d)) <$> dots) ∪
                  ({[(d_x d, d_y d)]} ∪ dom px) =
                {[(d_x d, d_y d)]} ∪ list_to_set ((fun d => (d_x d, d_y d)) <$> dots) ∪
                  dom px).
        rewrite (comm_L (∪) {[ _ ]} (list_to_set _)).
        by rewrite (assoc_L (∪)).
Qed.

End Effects.

(* ------------------------------------------------------------------ *)
(** ** Coherence of cache and table is kept by every operation *)

Section Coherence.
Import Js Database Inv.

Lemma coherent_maybePruneHistory s :
  coherent s -> coherent (maybePruneHistory s).
Proof.
  intros [Hc Hn]. destruct (maybePruneHistory_shape s) as (h' & n' & ->).
  open_state s. db_unfold. by split.
Qed.

Lemma pixels_maybePruneHistory s : pixels (maybePruneHistory s) = pixels s.
Proof.
  destruct (maybePruneHistory_shape s) as (h' & n' & ->). by open_state s.
Qed.

Lemma cache_maybePruneHistory s :
  cache_pixels (maybePruneHistory s) = cache_pixels s /\
  cache_count (maybePruneHistory s) = cache_count s.
Proof.
  destruct (maybePruneHistory_shape s) as (h' & n' & ->). by open_state s.
Qed.

Lemma coherent_placePixelTx x y color addr now s :
  coherent s ->
  coherent (placePixelTx x y color addr now s) /\
  dom (pixels (placePixelTx x y color addr now s)) = {[ (x, y) ]} ∪ dom (pixels s).
Proof.
  intros [Hc Hn].
  destruct (placePixelTx_shape x y color addr now s) as (us & ->).
  split.
  - apply coherent_maybePruneHistory. split; simpl.
    + by rewrite Hc, view_insert.
    + unfold cache_has.
      destruct (bool_decide (is_Some (cache_pixels s !! key x y))) eqn:B.
      * apply bool_decide_eq_true in B. by rewrite map_size_insert_Some.
      * apply bool_decide_eq_false in B.
        rewrite map_size_insert_None by (by apply eq_None_not_Some). lia.
  - rewrite pixels_maybePruneHistory. simpl. by rewrite dom_insert_L.
Qed.

Lemma coherent_placeBatchTx dots addr now s :
  coherent s ->
  coherent (placeBatchTx dots addr now s) /\
  dom (pixels (placeBatchTx dots addr now s)) =
    list_to_set ((fun d => (d_x d, d_y d)) <$> dots) ∪ dom (pixels s).
Proof.
  intros [Hc Hn]. unfold placeBatchTx.
  pose proof (placeBatch_loop_frame addr now dots s 0) as Hf.
  pose proof (placeBatch_loop_mirror addr now dots s 0 Hc) as Hm.
  destruct (foldl (placeBatch_step addr now) (s, 0) dots) as [s1 n1].
  simpl in Hf, Hm. destruct Hf as (Hcc & _). destruct Hm as (Hv & Hsz & Hd).
  assert (forall s2, pixels s2 = pixels s1 -> cache_pixels s2 = cache_pixels s1 ->
            cache_count s2 = cache_count s1 ->
            coherent (maybePruneHistory (invalidate_stats
               (set_cache_count (fun c => c + n1) s2))) /\
            dom (pixels (maybePruneHistory (invalidate_stats
               (set_cache_count (fun c => c + n1) s2)))) =
            list_to_set ((fun d => (d_x d, d_y d)) <$> dots) ∪ dom (pixels s)) as K.
  { intros s2 E1 E2 E3. split.
    - apply coherent_maybePruneHistory.
      open_state s2. db_unfold. subst. split; simpl; [done|]. lia.
    - rewrite pixels_maybePruneHistory. open_state s2. db_unfold. by subst. }
  destruct addr as [a|]; [destruct (truthy (Some a))|]; apply K; try done;
    by open_state s1.
Qed.

Lemma coherent_eraseTx x y admin now s :
  coherent s ->
  coherent (eraseTx x y admin now s) /\
  dom (pixels (eraseTx x y admin now s)) = dom (pixels s) ∖ {[ (x, y) ]}.
Proof.
  intros [Hc Hn]. rewrite eraseTx_shape. split; [|simpl; by rewrite dom_delete_L].
  unfold cache_has.
  destruct (bool_decide (is_Some (cache_pixels s !! key x y))) eqn:B; split; simpl.
  - by rewrite Hc, view_delete.
  - apply bool_decide_eq_true in B. rewrite map_size_delete_Some by done.
    pose proof (map_size_ne_0_lookup_2 (cache_pixels s) (key x y) B). lia.
  - apply bool_decide_eq_false in B. rewrite <- eq_None_not_Some in B.
    rewrite Hc, view_lookup in B. rewrite fmap_None in B.
    by rewrite delete_id.
  - done.
Qed.

Lemma coherent_bulkImportTx dots now s :
  coherent s -> coherent (bulkImportTx dots now s).
Proof.
  unfold bulkImportTx. intros H. apply (foldl_invariant coherent); [exact H|].
  clear s H. intros s d [Hc Hn]. open_state s. db_unfold. subst cp.
  destruct (bool_decide (is_Some (view px !! key (d_x d) (d_y d)))) eqn:B;
    split; simpl; try by rewrite view_insert.
  - apply bool_decide_eq_true in B. by rewrite map_size_insert_Some.
  - apply bool_decide_eq_false in B.
    rewrite map_size_insert_None by (by apply eq_None_not_Some). lia.
Qed.

End Coherence.

(* ------------------------------------------------------------------ *)
(** ** The cache built at startup *)

Section Startup.
Import Js Database Inv.

Lemma fill_other `{Countable K} {A V} (kf : A -> K) (vf : A -> V) l m k :
  (forall a, a ∈ l -> kf a <> k) -> fill kf vf m l !! k = m !! k.
Proof.
  revert m. induction l as [|a l IH]; intros m Hk; [done|].
  unfold fill in *. simpl. rewrite IH.
  - rewrite lookup_insert_ne; [done|]. apply Hk. by left.
  - intros a' Ha'. apply Hk. by right.
Qed.

Lemma fill_member `{Countable K} {A V} (kf : A -> K) (vf : A -> V) l m a :
  NoDup (kf <$> l) -> a ∈ l -> fill kf vf m l !! kf a = Some (vf a).
Proof.
  revert m. induction l as [|r l IH]; intros m Hnd Hin.
  - by apply elem_of_nil in Hin.
  - rewrite fmap_cons in Hnd. apply NoDup_cons in Hnd as [Hr Hnd].
    apply elem_of_cons in Hin as [->|Hin]; unfold fill in *; simpl.
    + fold (fill kf vf (<[kf r := vf r]> m) l).
      rewrite fill_other; [by rewrite lookup_insert_eq|].
      intros a' Ha' E. apply Hr. rewrite <- E. by apply list_elem_of_fmap_2.
    + by apply IH.
Qed.

Lemma fill_lookup_Some `{Countable K} {A V} (kf : A -> K) (vf : A -> V) l k v :
  fill kf vf ∅ l !! k = Some v -> exists a, a ∈ l /\ kf a = k /\ vf a = v.
Proof.
  induction l as [|a l IH] using rev_ind; [done|].
  unfold fill in *. rewrite foldl_snoc.
  destruct (decide (kf a = k)) as [<-|Hne].
  - rewrite lookup_insert_eq. intros [= <-]. exists a. split; [|done].
    apply elem_of_app. right. by left.
  - rewrite lookup_insert_ne by done. intros Hl.
    destruct (IH Hl) as (a' & Ha' & ? & ?). exists a'. split; [|done].
    apply elem_of_app. by left.
Qed.

Lemma load_other rows c k :
  (forall p, p ∈ rows -> key (p_x p) (p_y p) <> k) -> load c rows !! k = c !! k.
Proof. apply fill_other. Qed.

Lemma load_member rows c p :
  NoDup ((fun p => key (p_x p) (p_y p)) <$> rows) -> p ∈ rows ->
  load c rows !! key (p_x p) (p_y p) = Some p.
Proof. apply (fill_member (fun p => key (p_x p) (p_y p)) (fun p => p)). Qed.

Lemma select_pixels_elem t p :
  p ∈ select_pixels t <->
  exists c, t !! (p_x p, p_y p) = Some c /\ p = row_of (p_x p, p_y p) c.
Proof.
  unfold select_pixels. rewrite list_elem_of_fmap. split.
  - intros ([[x y] c] & -> & H). apply elem_of_map_to_list in H. by exists c.
  - intros (c & H & E). exists ((p_x p, p_y p), c). split; [done|].
    by apply elem_of_map_to_list.
Qed.

Lemma select_pixels_NoDup t :
  NoDup ((fun p => key (p_x p) (p_y p)) <$> select_pixels t).
Proof.
  unfold select_pixels. rewrite <- list_fmap_compose.
  assert ((fun p => key (p_x p) (p_y p)) ∘ (fun kc : Z * Z * Cell => row_of kc.1 kc.2)
          = key_of ∘ fst) as -> by done.
  rewrite list_fmap_compose. apply (NoDup_fmap_2 key_of), NoDup_fst_map_to_list.
Qed.

Lemma load_select t : load ∅ (select_pixels t) = view t.
Proof.
  apply map_eq. intros k. destruct (view t !! k) as [p|] eqn:E.
  - apply view_lookup_Some in E as (-> & c & Hc & Hp).
    apply load_member; [apply select_pixels_NoDup|].
    apply select_pixels_elem. by exists c.
  - rewrite load_other; [done|]. intros p Hp <-.
    apply select_pixels_elem in Hp as (c & Hc & Hp).
    rewrite view_lookup, Hc in E. done.
Qed.

Lemma initDatabase_initialized disk backup now :
  dbInitialized (initDatabase disk backup now) = true.
Proof.
  destruct disk as [[[[t h] q] us] sn]. unfold initDatabase. cbv zeta.
  match goal with |- dbInitialized (set_dbInitialized true ?s) = true =>
    by destruct s end.
Qed.

End Startup.

(* ------------------------------------------------------------------ *)
(** ** Runs of mutations *)

Section Runs.
Import Js Database Inv.

Lemma placeBatchTx_shape dots addr now s :
  exists s1 n1 us,
    foldl (placeBatch_step addr now) (s, 0) dots = (s1, n1) /\
    placeBatchTx dots addr now s =
    maybePruneHistory
      {| pixels := pixels s1; pixel_history := pixel_history s1;
         history_seq := history_seq s1; users := us;
         canvas_snapshots := canvas_snapshots s;
         cache_pixels := cache_pixels s1;
         cache_count := cache_count s + n1;
         statsCache_data := None; statsCache_ts := statsCache_ts s;
         placementsSincePrune := placementsSincePrune s;
         dbInitialized := dbInitialized s |}.
Proof.
  unfold placeBatchTx.
  pose proof (placeBatch_loop_frame addr now dots s 0) as Hf.
  destruct (foldl (placeBatch_step addr now) (s, 0) dots) as [s1 n1].
  simpl in Hf. destruct Hf as (Hcc & Hus & Hsn & Hsd & Hts & Hsince & Hini).
  open_state s1. simpl in *. subst.
  destruct addr as [a|]; [destruct (truthy (Some a))|];
    eexists _, n1, _; (split; [reflexivity|]); db_unfold; reflexivity.
Qed.

Lemma dbInitialized_maybePruneHistory s :
  dbInitialized (maybePruneHistory s) = dbInitialized s.
Proof.
  destruct (maybePruneHistory_shape s) as (h' & n' & ->). by open_state s.
Qed.

Lemma dbInitialized_mutate now m s :
  dbInitialized s = true ->
  exists s', mutate now m s = Ok s' /\ dbInitialized s' = true /\
    s' = match m with
         | Place x y color addr => placePixelTx x y color addr now s
         | PlaceBatch [] _ => s
         | PlaceBatch dots addr => placeBatchTx dots addr now s
         | Erase x y admin => eraseTx x y admin now s
         end.
Proof.
  intros Hi. destruct m as [x y color addr|dots addr|x y admin]; simpl;
    unfold placePixel, placePixelsBatch, erasePixel, ensureInitialized;
    rewrite ?Hi.
  - eexists. split; [done|]. split; [|done].
    destruct (placePixelTx_shape x y color addr now s) as (us & ->).
    by rewrite dbInitialized_maybePruneHistory.
  - destruct dots as [|d dots]; [by exists s|].
    eexists. split; [done|]. split; [|done].
    destruct (placeBatchTx_shape (d :: dots) addr now s) as (s1 & n1 & us & _ & ->).
    by rewrite dbInitialized_maybePruneHistory.
  - eexists. split; [done|]. split; [|done]. by rewrite eraseTx_shape.
Qed.

Lemma coherent_mutate now m s s' :
  coherent s -> dbInitialized s = true -> mutate now m s = Ok s' ->
  coherent s' /\ dbInitialized s' = true /\
  dom (pixels s') = occupy m (dom (pixels s)).
Proof.
  intros Hc Hi Hm.
  destruct (dbInitialized_mutate now m s Hi) as (s2 & E & Hi2 & Hs2).
  rewrite E in Hm. injection Hm as <-. split; [|split; [done|]]; subst s2.
  - destruct m as [x y color addr|[|d dots] addr|x y admin]; try done.
    + by apply coherent_placePixelTx.
    + by apply coherent_placeBatchTx.
    + by apply coherent_eraseTx.
  - destruct m as [x y color addr|[|d dots] addr|x y admin]; simpl.
    + by apply coherent_placePixelTx.
    + by rewrite (left_id_L ∅ (∪)).
    + by apply (coherent_placeBatchTx (d :: dots)).
    + by apply coherent_eraseTx.
Qed.

(** Every run from a coherent, initialised state goes through, ends in a
    coherent state, and leaves occupied exactly the coordinates that the
    run itself tells: those written and not erased afterwards. *)
Lemma run_coherent ms s :
  coherent s -> dbInitialized s = true ->
  exists s', run ms s = Ok s' /\ coherent s' /\ dbInitialized s' = true /\
             dom (pixels s') = occupied ms (dom (pixels s)).
Proof.
  revert s. induction ms as [|[now m] ms IH]; intros s Hc Hi; simpl.
  - by exists s.
  - destruct (dbInitialized_mutate now m s Hi) as (s1 & E & Hi1 & _).
    rewrite E. destruct (coherent_mutate now m s s1 Hc Hi E) as (Hc1 & _ & Hd).
    destruct (IH s1 Hc1 Hi1) as (s' & Hr & Hc' & Hi' & Hd').
    exists s'. split; [done|]. split; [done|]. split; [done|].
    rewrite Hd', Hd. done.
Qed.

Lemma coherent_sizes s :
  coherent s ->
  getPixelCount s = Z.of_nat (size (pixels s)) /\
  getPixelCount s = Z.of_nat (size (dom (pixels s))).
Proof.
  intros [Hc Hn]. unfold getPixelCount.
  rewrite Hn, Hc, view_size, size_dom. done.
Qed.

End Runs.

(* ------------------------------------------------------------------ *)
(** ** The placement log and its truncation *)

Section Log.
Import Js Database Inv.

Lemma descending_bound b h r : descending b h -> r ∈ h -> h_id r <= b.
Proof.
  revert b. induction h as [|e h IH]; intros b Hd Hr.
  - by apply elem_of_nil in Hr.
  - destruct Hd as [He Hd]. apply elem_of_cons in Hr as [->|Hr]; [done|].
    specialize (IH _ Hd Hr). lia.
Qed.

Lemma descending_take b h n : descending b h -> descending b (take n h).
Proof.
  revert b n. induction h as [|e h IH]; intros b [|n]; simpl; try done.
  intros [? ?]. split; [done|]. by apply IH.
Qed.

Lemma filter_none_below b v h :
  descending b h -> b <= v ->
  List.filter (fun e => negb (h_id e <=? v)) h = [].
Proof.
  revert b. induction h as [|e h IH]; intros b Hd Hv; simpl; [done|].
  destruct Hd as [He Hd].
  assert ((h_id e <=? v) = true) as -> by (apply Z.leb_le; lia). simpl.
  apply (IH (h_id e - 1)); [done|lia].
Qed.

(** On a log in descending [id], deleting every row whose [id] is at
    most that of the row at offset [n] keeps the [n] newest rows. *)
Lemma prune_keeps_newest b h n r :
  descending b h -> h !! n = Some r ->
  List.filter (fun e => negb (h_id e <=? h_id r)) h = take n h.
Proof.
  revert b n. induction h as [|e h IH]; intros b n Hd Hn; [done|].
  destruct Hd as [He Hd]. destruct n as [|n]; simpl in *.
  - injection Hn as ->. rewrite Z.leb_refl. simpl.
    apply (filter_none_below (h_id r - 1)); [done|lia].
  - assert (h_id r <= h_id e - 1) as Hr.
    { eapply descending_bound; [exact Hd|]. by eapply list_elem_of_lookup_2. }
    assert ((h_id e <=? h_id r) = false) as -> by (apply Z.leb_gt; lia). simpl.
    f_equal. by apply (IH (h_id e - 1)).
Qed.

Lemma pruneHistory_spec n s :
  log_ok s ->
  pruneHistory n s = set_history (take (Z.to_nat n)) (fun q => q) s.
Proof.
  intros Hd. unfold pruneHistory, history_id_at_offset.
  destruct (pixel_history s !! Z.to_nat n) as [r|] eqn:E; simpl.
  - open_state s. db_unfold. unfold log_ok in Hd; simpl in *.
    by rewrite (prune_keeps_newest _ _ _ _ Hd E).
  - apply lookup_ge_None in E. open_state s. db_unfold. simpl in *.
    by rewrite take_ge.
Qed.

(** The check is skipped until the counter reaches the interval. *)
Lemma maybePruneHistory_skip s :
  placementsSincePrune s + 1 < PRUNE_CHECK_INTERVAL ->
  maybePruneHistory s = set_placementsSincePrune (placementsSincePrune s + 1) s.
Proof.
  intros H. unfold maybePruneHistory.
  by rewrite (proj2 (Z.ltb_lt _ _) H).
Qed.

(** When it runs, the counter restarts and the [HISTORY_MAX_ENTRIES]
    newest rows are kept. *)
Lemma maybePruneHistory_check s :
  PRUNE_CHECK_INTERVAL <= placementsSincePrune s + 1 -> log_ok s ->
  maybePruneHistory s =
    set_history (take (Z.to_nat HISTORY_MAX_ENTRIES)) (fun q => q)
      (set_placementsSincePrune 0 s).
Proof.
  intros H Hd. unfold maybePruneHistory.
  rewrite (proj2 (Z.ltb_ge _ _) H).
  destruct (HISTORY_MAX_ENTRIES <? getHistoryCount (set_placementsSincePrune 0 s)) eqn:E.
  - apply pruneHistory_spec. by open_state s.
  - apply Z.ltb_ge in E. open_state s. unfold getHistoryCount in E. db_unfold.
    rewrite take_ge; [done|]. lia.
Qed.

Lemma log_ok_maybePruneHistory s : log_ok s -> log_ok (maybePruneHistory s).
Proof.
  intros Hd.
  destruct (Z.lt_ge_cases (placementsSincePrune s + 1) PRUNE_CHECK_INTERVAL) as [H|H].
  - rewrite maybePruneHistory_skip by done. by open_state s.
  - rewrite maybePruneHistory_check by done. open_state s. unfold log_ok in *.
    db_unfold. by apply descending_take.
Qed.

Lemma history_seq_maybePruneHistory s :
  history_seq (maybePruneHistory s) = history_seq s.
Proof.
  destruct (maybePruneHistory_shape s) as (h' & n' & ->). by open_state s.
Qed.

Lemma log_ok_placePixelTx x y color addr now s :
  log_ok s -> log_ok (placePixelTx x y color addr now s).
Proof.
  intros Hd. destruct (placePixelTx_shape x y color addr now s) as (us & ->).
  apply log_ok_maybePruneHistory. unfold log_ok in *. simpl.
  split; [lia|]. by replace (history_seq s + 1 - 1) with (history_seq s) by lia.
Qed.

Lemma log_ok_eraseTx x y admin now s :
  log_ok s -> log_ok (eraseTx x y admin now s).
Proof.
  intros Hd. rewrite eraseTx_shape. unfold log_ok in *. simpl.
  split; [lia|]. by replace (history_seq s + 1 - 1) with (history_seq s) by lia.
Qed.

Lemma log_ok_placeBatchTx dots addr now s :
  log_ok s -> log_ok (placeBatchTx dots addr now s).
Proof.
  intros Hd.
  destruct (placeBatchTx_shape dots addr now s) as (s1 & n1 & us & E & ->).
  apply log_ok_maybePruneHistory.
  destruct (placeBatch_loop_history addr now dots s 0) as (_ & new & _ & _ & _ & Hok).
  rewrite E in Hok. simpl in Hok. by apply Hok.
Qed.

End Log.

(* ------------------------------------------------------------------ *)
(** ** Reachable states *)

Section Reachable.
Import Js Database Inv.

Lemma sound_placePixelTx x y color addr now s :
  sound s -> sound (placePixelTx x y color addr now s).
Proof.
  intros [Hm Hd Hi]. split.
  - destruct (placePixelTx_shape x y color addr now s) as (us & ->).
    unfold mirror in *. rewrite pixels_maybePruneHistory.
    rewrite (proj1 (cache_maybePruneHistory _)). simpl.
    by rewrite Hm, view_insert.
  - by apply log_ok_placePixelTx.
  - destruct (placePixelTx_shape x y color addr now s) as (us & ->).
    by rewrite dbInitialized_maybePruneHistory.
Qed.

Lemma sound_placeBatchTx dots addr now s :
  sound s -> sound (placeBatchTx dots addr now s).
Proof.
  intros [Hm Hd Hi]. split.
  - destruct (placeBatchTx_shape dots addr now s) as (s1 & n1 & us & E & ->).
    unfold mirror in *. rewrite pixels_maybePruneHistory.
    rewrite (proj1 (cache_maybePruneHistory _)). simpl.
    pose proof (placeBatch_loop_mirror addr now dots s 0 Hm) as (Hv & _).
    by rewrite E in Hv.
  - by apply log_ok_placeBatchTx.
  - destruct (placeBatchTx_shape dots addr now s) as (s1 & n1 & us & E & ->).
    by rewrite dbInitialized_maybePruneHistory.
Qed.

Lemma sound_eraseTx x y admin now s :
  sound s -> sound (eraseTx x y admin now s).
Proof.
  intros [Hm Hd Hi]. split.
  - rewrite eraseTx_shape. unfold mirror, cache_has in *. simpl.
    destruct (bool_decide (is_Some (cache_pixels s !! key x y))) eqn:B.
    + by rewrite Hm, view_delete.
    + apply bool_decide_eq_false in B. rewrite <- eq_None_not_Some in B.
      rewrite Hm, view_lookup in B. rewrite fmap_None in B.
      by rewrite delete_id.
  - by apply log_ok_eraseTx.
  - by rewrite eraseTx_shape.
Qed.

Lemma sound_bulkImportTx dots now s :
  sound s -> sound (bulkImportTx dots now s).
Proof.
  unfold bulkImportTx. intros H. apply (foldl_invariant sound); [exact H|].
  clear s H. intros s d [Hm Hd Hi]. open_state s. unfold mirror, log_ok in *.
  db_unfold. subst cp.
  destruct (bool_decide (is_Some (view px !! key (d_x d) (d_y d))));
    split; unfold mirror, log_ok; cbn [pixels cache_pixels pixel_history history_seq
                                       dbInitialized];
    try done; by rewrite view_insert.
Qed.

Lemma mirror_importTx dots now s :
  mirror s -> mirror (foldl (importTx_step now) s dots).
Proof.
  intros Hm. apply (foldl_invariant mirror); [done|].
  clear s Hm. intros s d Hm. open_state s. unfold mirror in *.
  db_unfold. subst cp. by rewrite view_insert.
Qed.

Lemma log_ok_importTx dots now s :
  log_ok s -> log_ok (foldl (importTx_step now) s dots).
Proof.
  intros Hd. apply (foldl_invariant log_ok); [done|].
  clear s Hd. intros s d Hd. by open_state s.
Qed.

Lemma mirror_initDatabase t h q us sn backup now :
  mirror (initDatabase (t, h, q, us, sn) backup now).
Proof.
  unfold initDatabase. cbv zeta.
  change (foldl _ ∅ (select_pixels t)) with (load ∅ (select_pixels t)).
  rewrite load_select.
  match goal with |- mirror (set_dbInitialized true ?s0) =>
    assert (mirror s0) as Hm; [|by destruct s0] end.
  destruct (_ =? 0); [|done].
  destruct backup as [dots|]; [|done].
  destruct (0 <? Z.of_nat (length dots)); [|done].
  match goal with |- mirror (set_cache_count _ (foldl _ ?s0 dots)) =>
    pose proof (mirror_importTx dots now s0 eq_refl) as Hm;
    by destruct (foldl (importTx_step now) s0 dots) end.
Qed.

Lemma sound_initDatabase t h q us sn backup now :
  descending q h -> sound (initDatabase (t, h, q, us, sn) backup now).
Proof.
  intros Hd. split; [apply mirror_initDatabase| |apply initDatabase_initialized].
  unfold initDatabase. cbv zeta.
  match goal with |- log_ok (set_dbInitialized true ?s0) =>
    assert (log_ok s0) as Hl; [|by destruct s0] end.
  destruct (_ =? 0); [|done].
  destruct backup as [dots|]; [|done].
  destruct (0 <? Z.of_nat (length dots)); [|done].
  match goal with |- log_ok (set_cache_count _ (foldl _ ?s0 dots)) =>
    pose proof (log_ok_importTx dots now s0 Hd) as Hl;
    by destruct (foldl (importTx_step now) s0 dots) end.
Qed.

Lemma sound_frame s s' :
  sound s ->
  pixels s' = pixels s -> cache_pixels s' = cache_pixels s ->
  pixel_history s' = pixel_history s -> history_seq s' = history_seq s ->
  dbInitialized s' = dbInitialized s -> sound s'.
Proof.
  intros [Hm Hd Hi] E1 E2 E3 E4 E5. split.
  - unfold mirror in *. by rewrite E1, E2.
  - unfold log_ok in *. by rewrite E3, E4.
  - by rewrite E5.
Qed.

(** Every reachable state is sound. *)
Lemma reachable_sound s : reachable s -> sound s.
Proof.
  induction 1 as [t h q us sn backup now Hd
                 |s now m s' _ IH Hm
                 |s now d s' _ IH Hg
                 |cfg s now s' _ IH Hc
                 |cfg s dots now s' _ IH Hc
                 |s dots now s' _ IH Hc].
  - by apply sound_initDatabase.
  - destruct (dbInitialized_mutate now m s) as (s2 & E & _ & ->); [by destruct IH|].
    rewrite E in Hm. injection Hm as <-.
    destruct m as [x y color addr|[|d dots] addr|x y admin]; try done.
    + by apply sound_placePixelTx.
    + by apply sound_placeBatchTx.
    + by apply sound_eraseTx.
  - unfold getStats, ensureInitialized in Hg. rewrite (sound_init _ IH) in Hg.
    destruct (statsCache_data s) as [d0|];
      [destruct (now - statsCache_ts s <? 5000)|];
      injection Hg as _ <-; try done;
      apply (sound_frame s); try done; by open_state s.
  - unfold CanvasService.clearCanvas, saveSnapshot, clearCanvas, ensureInitialized in Hc.
    rewrite (sound_init _ IH) in Hc.
    match type of Hc with context [dbInitialized ?s0] =>
      assert (dbInitialized s0 = true) as E
        by (destruct IH as [_ _ Hi]; by open_state s) end.
    rewrite E in Hc. injection Hc as <-. destruct IH as [Hm Hd Hi].
    open_state s. unfold mirror, log_ok in *. db_unfold.
    split; simpl; try done; by rewrite ?view_empty.
  - unfold CanvasService.importCanvas, saveSnapshot, bulkImport, ensureInitialized in Hc.
    rewrite (sound_init _ IH) in Hc.
    match type of Hc with context [bulkImportTx dots now ?s0] =>
      assert (sound s0) as S0
        by (apply (sound_frame s); try done; by open_state s) end.
    rewrite (sound_init _ S0) in Hc. injection Hc as <-.
    apply (sound_bulkImportTx dots now) in S0.
    apply (sound_frame _ _ S0);
      by destruct (bulkImportTx dots now _).
  - unfold bulkImport, ensureInitialized in Hc. rewrite (sound_init _ IH) in Hc.
    injection Hc as <-. apply (sound_bulkImportTx dots now) in IH.
    apply (sound_frame _ _ IH); by destruct (bulkImportTx dots now s).
Qed.

Lemma reachable_fresh : reachable fresh.
Proof. by apply (reach_start ∅ [] 0 ∅ [] None 0). Qed.

Lemma reachable_painted : reachable painted.
Proof.
  apply (reach_mutate fresh 5 (Place 1 2 "#ff0000" (Some "0xa"%string)));
    [apply reachable_fresh|reflexivity].
Qed.

End Reachable.

(* ------------------------------------------------------------------ *)
(** ** Claims about the cell store and its cache *)

Section StoreClaims.
Import Js Database Inv.

Lemma fill_size `{Countable K} {A V} (kf : A -> K) (vf : A -> V) l (m : gmap K V) :
  NoDup (kf <$> l) -> (forall a, a ∈ l -> m !! kf a = None) ->
  size (fill kf vf m l) = (size m + length l)%nat.
Proof.
  revert m. induction l as [|a l IH]; intros m Hnd Hm.
  - unfold fill. simpl. lia.
  - rewrite fmap_cons in Hnd. apply NoDup_cons in Hnd as [Ha Hnd].
    unfold fill in *. simpl. rewrite IH; [|done|].
    + rewrite map_size_insert_None; [simpl; lia|]. apply Hm. by left.
    + intros a' Ha'. rewrite lookup_insert_ne; [apply Hm; by right|].
      intros E. apply Ha. rewrite E. by apply list_elem_of_fmap_2.
Qed.

Lemma importTx_frame dots now s :
  pixels (foldl (importTx_step now) s dots) =
    fill coord (fun d => {| c_color := d_color d; c_placed_by := None;
                            c_placed_at := now |}) (pixels s) dots.
Proof.
  unfold fill. revert s. induction dots as [|d dots IH]; intros s; [done|].
  simpl. rewrite IH. f_equal. by open_state s.
Qed.

(** The cache built at startup is coherent unless an embedded backup that
    repeats a coordinate is taken in. *)
Lemma initDatabase_coherent_backup disk backup now :
  (forall dots, backup = Some dots -> NoDup (coord <$> dots)) ->
  coherent (initDatabase disk backup now).
Proof.
  intros Hnd. destruct disk as [[[[t h] q] us] sn].
  split; [apply mirror_initDatabase|].
  pose proof (mirror_initDatabase t h q us sn backup now) as Hm.
  unfold mirror in Hm. rewrite Hm, view_size. clear Hm.
  unfold initDatabase. cbv zeta.
  assert (Z.of_nat (length (select_pixels t)) = Z.of_nat (size t)) as E.
  { unfold select_pixels. by rewrite length_fmap, length_map_to_list. }
  match goal with |- context [set_dbInitialized true ?s0] =>
    assert (cache_count s0 = Z.of_nat (size (pixels s0))) as Hc;
      [|by destruct s0] end.
  cbn [cache_count]. destruct (_ =? 0) eqn:B; [|done].
  destruct backup as [dots|]; [|done].
  destruct (0 <? Z.of_nat (length dots)); [|done].
  apply Z.eqb_eq in B. rewrite E in B.
  assert (t = ∅) as -> by (apply map_size_empty_inv; lia).
  match goal with |- context [foldl (importTx_step now) ?s0 dots] =>
    pose proof (importTx_frame dots now s0) as Hp;
    destruct (foldl (importTx_step now) s0 dots) end.
  cbn [pixels cache_count set_cache_count] in *. rewrite Hp.
  rewrite fill_size; [by rewrite map_size_empty| by apply Hnd |done].
Qed.

(** From the cache built at startup, out of the rows of the table or of an
    embedded backup that names each coordinate once, after every run of
    place, batch-place and erase operations the occupied count equals the
    number of coordinates occupied at startup or written since, and not
    erased afterwards, and the number of rows of table [pixels]. *)
Theorem count_tracks_rows disk backup now ms :
  (forall dots, backup = Some dots -> NoDup (coord <$> dots)) ->
  exists s',
    run ms (initDatabase disk backup now) = Ok s' /\
    getPixelCount s' =
      Z.of_nat (size (occupied ms (dom (pixels (initDatabase disk backup now))))) /\
    getPixelCount s' = Z.of_nat (size (pixels s')).
Proof.
  intros Hnd.
  destruct (run_coherent ms (initDatabase disk backup now))
    as (s' & Hr & Hc & _ & Hd).
  - by apply initDatabase_coherent_backup.
  - apply initDatabase_initialized.
  - exists s'. split; [done|]. destruct (coherent_sizes s' Hc) as [H1 H2].
    split; [|done]. by rewrite H2, Hd.
Qed.

(** C2.  The occupied count is meant to equal the number of occupied
    coordinates and of rows of table [pixels], starting from the cache built
    at startup.  [initDatabase] breaks this when it takes in an embedded
    backup that lists a coordinate twice: it sets the count to the length of
    the list.  On a new database file and the backup [twice_listed], the
    start-up state reports two occupied cells over one stored row, and a
    placement and an erasure later the count is still one too many. *)
Theorem startup_backup_miscounts :
  let s := initDatabase empty_disk (Some twice_listed) 0 in
  let later := value (run [(1, Place 1 1 "#00ff00" None);
                           (2, Erase 1 1 (Some "0xadmin"%string))] s) in
  reachable s /\
  getPixelCount s = 2 /\
  Z.of_nat (size (pixels s)) = 1 /\
  Z.of_nat (size (occupied [] (dom (pixels s)))) = 1 /\
  getPixelCount <$> later = Some 2 /\
  (fun s' => Z.of_nat (size (pixels s'))) <$> later = Some 1.
Proof.
  split; [apply (reach_start ∅ [] 0 ∅ [] (Some twice_listed) 0); exact I|].
  vm_compute. repeat split.
Qed.

(** C10.  In every reachable state, erasing a coordinate that holds no
    cell succeeds, leaves the table, the cache and the occupied count as
    they were, and appends one log row with the colour ['ERASED']. *)
Theorem erase_absent_cell x y admin now s :
  reachable s -> getPixel x y s = None ->
  exists s',
    erasePixel x y admin now s = Ok s' /\
    pixels s' = pixels s /\
    cache_pixels s' = cache_pixels s /\
    getPixelCount s' = getPixelCount s /\
    pixel_history s' = entry (history_seq s) x y "ERASED" admin now :: pixel_history s.
Proof.
  intros Hr Hx. destruct (reachable_sound s Hr) as [Hm _ Hi].
  unfold erasePixel, ensureInitialized. rewrite Hi.
  eexists. split; [reflexivity|].
  rewrite eraseTx_shape. unfold getPixelCount, getPixel, cache_has in *. simpl.
  rewrite Hx. rewrite bool_decide_eq_false_2 by (by intros [? ?]).
  repeat split; try done.
  apply delete_id. unfold mirror in Hm. rewrite Hm, view_lookup in Hx.
  by apply fmap_None in Hx.
Qed.

Lemma erase_absent_cell_witness :
  exists s',
    erasePixel 3 4 (Some "0xadmin") 7 fresh = Ok s' /\
    pixels s' = pixels fresh /\
    cache_pixels s' = cache_pixels fresh /\
    getPixelCount s' = getPixelCount fresh /\
    pixel_history s' =
      entry (history_seq fresh) 3 4 "ERASED" (Some "0xadmin") 7 :: pixel_history fresh.
Proof.
  apply (erase_absent_cell 3 4 (Some "0xadmin") 7 fresh).
  - apply reachable_fresh.
  - reflexivity.
Defined.

End StoreClaims.

(* ------------------------------------------------------------------ *)
(** ** Claims about the placement log *)

Section LogClaims.
Import Js Database Inv.

Lemma getHistoryCount_maybePruneHistory_skip s :
  placementsSincePrune s + 1 < PRUNE_CHECK_INTERVAL ->
  getHistoryCount (maybePruneHistory s) = getHistoryCount s /\
  pixel_history (maybePruneHistory s) = pixel_history s /\
  placementsSincePrune (maybePruneHistory s) = placementsSincePrune s + 1.
Proof.
  intros H. rewrite maybePruneHistory_skip by done. by open_state s.
Qed.

(** What a check that has come due leaves behind. *)
Lemma check_leaves_newest s :
  log_ok s -> PRUNE_CHECK_INTERVAL <= placementsSincePrune s + 1 ->
  pixel_history (maybePruneHistory s) =
    take (Z.to_nat HISTORY_MAX_ENTRIES) (pixel_history s) /\
  placementsSincePrune (maybePruneHistory s) = 0 /\
  getHistoryCount (maybePruneHistory s) <= HISTORY_MAX_ENTRIES /\
  (HISTORY_MAX_ENTRIES < getHistoryCount s ->
   getHistoryCount (maybePruneHistory s) = HISTORY_MAX_ENTRIES).
Proof.
  intros Hd H. rewrite maybePruneHistory_check by done.
  open_state s. unfold getHistoryCount. db_unfold.
  rewrite length_take. unfold HISTORY_MAX_ENTRIES. repeat split; lia.
Qed.

(** One mutation, seen from the log: the counter and the bound on the
    log follow [tally]. *)
Lemma mutate_tally now m s e :
  log_ok s -> dbInitialized s = true ->
  getHistoryCount s <= HISTORY_MAX_ENTRIES + e ->
  exists s',
    mutate now m s = Ok s' /\ log_ok s' /\ dbInitialized s' = true /\
    placementsSincePrune s' = (tally m (placementsSincePrune s, e)).1 /\
    getHistoryCount s' <= HISTORY_MAX_ENTRIES + (tally m (placementsSincePrune s, e)).2.
Proof.
  intros Hd Hi He.
  destruct (dbInitialized_mutate now m s Hi) as (s' & E & Hi' & Hs').
  exists s'. split; [done|]. split; [|split; [done|]].
  { subst s'. destruct m as [x y color addr|[|d dots] addr|x y admin]; try done.
    - by apply log_ok_placePixelTx.
    - by apply log_ok_placeBatchTx.
    - by apply log_ok_eraseTx. }
  assert (forall s1 n, log_ok s1 ->
            placementsSincePrune s1 = placementsSincePrune s ->
            getHistoryCount s1 = getHistoryCount s + n ->
            placementsSincePrune (maybePruneHistory s1) =
              (if placementsSincePrune s + 1 <? PRUNE_CHECK_INTERVAL
               then (placementsSincePrune s + 1, e + n) else (0, 0)).1 /\
            getHistoryCount (maybePruneHistory s1) <= HISTORY_MAX_ENTRIES +
              (if placementsSincePrune s + 1 <? PRUNE_CHECK_INTERVAL
               then (placementsSincePrune s + 1, e + n) else (0, 0)).2) as K.
  { intros s1 n Hd1 Hs1 Hn.
    destruct (placementsSincePrune s + 1 <? PRUNE_CHECK_INTERVAL) eqn:B; simpl.
    - apply Z.ltb_lt in B. rewrite <- Hs1 in B.
      destruct (getHistoryCount_maybePruneHistory_skip s1 B) as (-> & _ & ->). lia.
    - apply Z.ltb_ge in B. rewrite <- Hs1 in B.
      destruct (check_leaves_newest s1 Hd1 B) as (_ & -> & ? & _). lia. }
  subst s'. destruct m as [x y color addr|[|d dots] addr|x y admin];
    unfold tally; simpl advances; simpl rows_of; cbv iota.
  - destruct (placePixelTx_shape x y color addr now s) as (us & ->).
    apply K; [|done|].
    + unfold log_ok in *. simpl. split; [lia|].
      by replace (history_seq s + 1 - 1) with (history_seq s) by lia.
    + unfold getHistoryCount. simpl. lia.
  - simpl. split; [done|lia].
  - destruct (placeBatchTx_shape (d :: dots) addr now s) as (s1 & n1 & us & E1 & ->).
    destruct (placeBatch_loop_history addr now (d :: dots) s 0)
      as (_ & new & Hh & Hl & _ & Hok).
    rewrite E1 in Hh, Hok. simpl fst in Hh, Hok.
    apply K; [by apply Hok|done|].
    unfold getHistoryCount. cbn [pixel_history].
    rewrite Hh, length_app, Hl. cbn [length]. lia.
  - rewrite eraseTx_shape. unfold getHistoryCount in *. simpl. split; [done|]. lia.
Qed.

Lemma run_tally ms s e :
  log_ok s -> dbInitialized s = true ->
  getHistoryCount s <= HISTORY_MAX_ENTRIES + e ->
  exists s',
    run ms s = Ok s' /\ log_ok s' /\
    placementsSincePrune s' = (tally_run ms (placementsSincePrune s, e)).1 /\
    getHistoryCount s' <= HISTORY_MAX_ENTRIES + (tally_run ms (placementsSincePrune s, e)).2.
Proof.
  revert s e. induction ms as [|[now m] ms IH]; intros s e Hd Hi He; simpl.
  - by exists s.
  - destruct (mutate_tally now m s e Hd Hi He) as (s1 & -> & Hd1 & Hi1 & Hs1 & He1).
    destruct (IH s1 _ Hd1 Hi1 He1) as (s' & Hr & Hd' & Hs' & He').
    exists s'. split; [done|]. split; [done|].
    unfold tally_run in *. simpl.
    destruct (tally m (placementsSincePrune s, e)) as [c1 e1]. simpl in *.
    by rewrite <- Hs1.
Qed.

(** In a run of single placements no more rows pile up than the counter
    has counted. *)
Lemma tally_run_places ms c :
  Forall (fun nm => is_place nm.2 = true) ms ->
  0 <= c.2 <= c.1 -> c.1 < PRUNE_CHECK_INTERVAL ->
  0 <= (tally_run ms c).2 <= (tally_run ms c).1 /\
  (tally_run ms c).1 < PRUNE_CHECK_INTERVAL.
Proof.
  revert c. induction ms as [|[now m] ms IH]; intros [c1 e1] Hp Hc Hk; simpl in *.
  - done.
  - apply Forall_cons in Hp as [Hm Hp]. unfold tally_run in *. simpl.
    apply IH; [done|..]; destruct m; try done; unfold tally; simpl;
      destruct (c1 + 1 <? PRUNE_CHECK_INTERVAL) eqn:B; simpl;
      try apply Z.ltb_lt in B; unfold PRUNE_CHECK_INTERVAL in *; lia.
Qed.

(** C3, as amended.  Single placements and non-empty batches, but not
    erasures, advance the pruning counter by one; the check runs on every
    500th advance and then cuts a log of more than 100000 rows back to
    exactly its 100000 newest rows.  Along any run from a reachable state
    the counter follows [tally] and the log holds at most 100000 rows plus
    those appended since the check last ran: never more than 100000 + 499
    in a run of single placements. *)
Theorem log_truncation ms s e :
  reachable s ->
  getHistoryCount s <= HISTORY_MAX_ENTRIES + e ->
  exists s',
    run ms s = Ok s' /\
    placementsSincePrune s' = (tally_run ms (placementsSincePrune s, e)).1 /\
    getHistoryCount s' <=
      HISTORY_MAX_ENTRIES + (tally_run ms (placementsSincePrune s, e)).2 /\
    (Forall (fun nm => is_place nm.2 = true) ms ->
     0 <= e <= placementsSincePrune s ->
     placementsSincePrune s < PRUNE_CHECK_INTERVAL ->
     getHistoryCount s' <= HISTORY_MAX_ENTRIES + (PRUNE_CHECK_INTERVAL - 1)) /\
    (forall s0,
       log_ok s0 -> PRUNE_CHECK_INTERVAL <= placementsSincePrune s0 + 1 ->
       placementsSincePrune (maybePruneHistory s0) = 0 /\
       pixel_history (maybePruneHistory s0) =
         take (Z.to_nat HISTORY_MAX_ENTRIES) (pixel_history s0) /\
       getHistoryCount (maybePruneHistory s0) <= HISTORY_MAX_ENTRIES /\
       (HISTORY_MAX_ENTRIES < getHistoryCount s0 ->
        getHistoryCount (maybePruneHistory s0) = HISTORY_MAX_ENTRIES)).
Proof.
  intros Hreach He. destruct (reachable_sound s Hreach) as [_ Hd Hi].
  destruct (run_tally ms s e Hd Hi He) as (s' & Hr & _ & Hs & Hb).
  exists s'. split; [done|]. split; [done|]. split; [done|]. split.
  - intros Hp Hc Hk.
    pose proof (tally_run_places ms (placementsSincePrune s, e) Hp Hc Hk) as [? ?].
    lia.
  - intros s0 Hd0 Hk0.
    destruct (check_leaves_newest s0 Hd0 Hk0) as (? & ? & ? & ?). done.
Qed.

Lemma log_truncation_witness :
  exists s',
    run [(1, Place 0 0 "#ff0000" (Some "0xa")); (2, Erase 0 0 (Some "0xadmin"))] fresh
      = Ok s' /\
    placementsSincePrune s' = 1 /\ getHistoryCount s' <= HISTORY_MAX_ENTRIES + 2.
Proof.
  destruct (log_truncation
              [(1, Place 0 0 "#ff0000" (Some "0xa")); (2, Erase 0 0 (Some "0xadmin"))]
              fresh 0)
    as (s' & Hr & Hs & Hb & _).
  - apply reachable_fresh.
  - by vm_compute.
  - exists s'. split; [exact Hr|]. split; [exact Hs|exact Hb].
Defined.

(** C3 as stated fails: an erasure appends a log row without advancing
    the check, so 100501 erasures on a new database leave 100501 rows,
    more than the ceiling plus the interval, with the counter still at
    zero and no truncation ever attempted. *)
Lemma erasures_outgrow_ceiling :
  placementsSincePrune (eraseTx 0 0 (Some "0xa") 0 fresh) = placementsSincePrune fresh /\
  placementsSincePrune scrubbed = 0 /\
  getHistoryCount scrubbed = 100501 /\
  ~ getHistoryCount scrubbed <= HISTORY_MAX_ENTRIES + PRUNE_CHECK_INTERVAL.
Proof. vm_compute. repeat split. intros H. by apply H. Qed.

(** The log after one placement: the new row, then the old log, cut to
    its newest rows when the check came due. *)
Lemma placePixelTx_history x y color addr now s :
  log_ok s ->
  history_seq (placePixelTx x y color addr now s) = history_seq s + 1 /\
  exists m, (1 <= m)%nat /\
    pixel_history (placePixelTx x y color addr now s) =
      entry (history_seq s) x y color addr now :: take m (pixel_history s) /\
    (placementsSincePrune s + 1 < PRUNE_CHECK_INTERVAL \/
     getHistoryCount s + 1 <= HISTORY_MAX_ENTRIES ->
     (length (pixel_history s) <= m)%nat).
Proof.
  intros Hd. destruct (placePixelTx_shape x y color addr now s) as (us & ->).
  rewrite history_seq_maybePruneHistory. split; [done|].
  match goal with |- context [maybePruneHistory ?s0] => set (s1 := s0) end.
  assert (log_ok s1) as Hd1.
  { unfold log_ok in *. subst s1. simpl. split; [lia|].
    by replace (history_seq s + 1 - 1) with (history_seq s) by lia. }
  destruct (Z.lt_ge_cases (placementsSincePrune s1 + 1) PRUNE_CHECK_INTERVAL) as [H|H].
  - exists (S (length (pixel_history s))). split; [lia|].
    destruct (getHistoryCount_maybePruneHistory_skip s1 H) as (_ & -> & _).
    subst s1. simpl. rewrite take_ge by lia. split; [done|]. lia.
  - exists (Z.to_nat (HISTORY_MAX_ENTRIES - 1)). unfold HISTORY_MAX_ENTRIES.
    split; [lia|].
    destruct (check_leaves_newest s1 Hd1 H) as (-> & _).
    subst s1. cbn [pixel_history placementsSincePrune] in *.
    unfold HISTORY_MAX_ENTRIES, getHistoryCount.
    replace (Z.to_nat 100000) with (S (Z.to_nat (100000 - 1))) by lia.
    split; [done|]. intros [Hq|Hq]; lia.
Qed.

(** C5, as amended.  From every reachable state, placing the same cell
    with the same colour and writer twice leaves the same grid, in the
    cache and in the table, and the same occupied count as placing it
    once; the log receives a row at
    each call, so that its two newest rows after the second call are the two
    placements where one call leaves one; and when no truncation comes due
    during the two calls (the counter stays below the interval, or the log
    stays within the ceiling) the log has grown by exactly two rows, against
    one after a single call. *)
Theorem place_twice x y color addr now1 now2 s :
  reachable s ->
  exists s1 s2,
    placePixel x y color addr now1 s = Ok s1 /\
    placePixel x y color addr now2 s1 = Ok s2 /\
    grid s2 = grid s1 /\ table_grid s2 = table_grid s1 /\
    getPixelCount s2 = getPixelCount s1 /\
    take 1 (pixel_history s1) = [entry (history_seq s) x y color addr now1] /\
    take 2 (pixel_history s2) =
      [entry (history_seq s + 1) x y color addr now2;
       entry (history_seq s) x y color addr now1] /\
    (placementsSincePrune s + 2 < PRUNE_CHECK_INTERVAL \/
     getHistoryCount s + 2 <= HISTORY_MAX_ENTRIES ->
     pixel_history s1 = entry (history_seq s) x y color addr now1 :: pixel_history s /\
     pixel_history s2 =
       entry (history_seq s + 1) x y color addr now2 ::
       entry (history_seq s) x y color addr now1 :: pixel_history s).
Proof.
  intros Hreach. destruct (reachable_sound s Hreach) as [_ Hd Hi].
  set (s1 := placePixelTx x y color addr now1 s).
  set (s2 := placePixelTx x y color addr now2 s1).
  assert (dbInitialized s1 = true) as Hi1.
  { subst s1. destruct (placePixelTx_shape x y color addr now1 s) as (us & ->).
    by rewrite dbInitialized_maybePruneHistory. }
  assert (log_ok s1) as Hd1 by (by apply log_ok_placePixelTx).
  exists s1, s2.
  split; [unfold placePixel, ensureInitialized; by rewrite Hi|].
  split; [unfold placePixel, ensureInitialized; by rewrite Hi1|].
  assert (grid s2 = grid s1 /\ table_grid s2 = table_grid s1 /\
          getPixelCount s2 = getPixelCount s1) as (Hg & Ht & Hc).
  { subst s2. destruct (placePixelTx_shape x y color addr now2 s1) as (us2 & ->).
    unfold grid, table_grid, getPixelCount.
    rewrite pixels_maybePruneHistory.
    destruct (cache_maybePruneHistory
      {| pixels := <[(x, y) := {| c_color := color; c_placed_by := addr;
                                 c_placed_at := now2 |}]> (pixels s1);
         pixel_history :=
           {| h_id := history_seq s1 + 1; h_x := x; h_y := y; h_color := color;
              h_placed_by := addr; h_placed_at := now2 |} :: pixel_history s1;
         history_seq := history_seq s1 + 1; users := us2;
         canvas_snapshots := canvas_snapshots s1;
         cache_pixels :=
           <[key x y := {| p_x := x; p_y := y; p_color := color;
                           p_placed_by := addr; p_placed_at := now2 |}]>
             (cache_pixels s1);
         cache_count :=
           if cache_has (key x y) s1 then cache_count s1 else 1 + cache_count s1;
         statsCache_data := None; statsCache_ts := statsCache_ts s1;
         placementsSincePrune := placementsSincePrune s1;
         dbInitialized := dbInitialized s1 |}) as [-> ->].
    cbn [pixels cache_pixels cache_count].
    subst s1. destruct (placePixelTx_shape x y color addr now1 s) as (us1 & ->).
    unfold cache_has. rewrite pixels_maybePruneHistory.
    rewrite !(proj1 (cache_maybePruneHistory _)).
    cbn [pixels cache_pixels].
    rewrite !fmap_insert. cbn [c_color c_placed_by p_x p_y p_color p_placed_by].
    rewrite !insert_insert_eq, lookup_insert_eq.
    by rewrite (bool_decide_eq_true_2 (is_Some (Some _))) by eauto. }
  split; [done|]. split; [done|]. split; [done|].
  destruct (placePixelTx_history x y color addr now1 s Hd) as (Hq1 & m1 & Hm1 & Hh1 & Hk1).
  destruct (placePixelTx_history x y color addr now2 s1 Hd1) as (Hq2 & m2 & Hm2 & Hh2 & Hk2).
  fold s1 in Hq1, Hh1. fold s2 in Hq2, Hh2. rewrite Hq1 in Hh2.
  rewrite Hh1 in Hh2. destruct m2 as [|m2]; [lia|]. cbn [take] in Hh2.
  split; [by rewrite Hh1|]. split; [by rewrite Hh2|].
  intros Hq.
  assert (length (pixel_history s) <= m1)%nat as L1.
  { apply Hk1. unfold PRUNE_CHECK_INTERVAL, HISTORY_MAX_ENTRIES in *. lia. }
  rewrite (take_ge _ m1) in Hh1, Hh2 by done.
  assert (length (pixel_history s1) <= S m2)%nat as L2.
  { apply Hk2. unfold getHistoryCount in *. rewrite Hh1. cbn [length].
    unfold PRUNE_CHECK_INTERVAL, HISTORY_MAX_ENTRIES in *.
    destruct Hq as [Hq|Hq]; [left|right; lia].
    clear Hh1 Hh2 Hq1 Hq2 Hk1 Hk2 Hg Ht Hc Hd1 Hi1. subst s2 s1.
    destruct (placePixelTx_shape x y color addr now1 s) as (us1 & ->).
    match goal with |- context [maybePruneHistory ?s0] =>
      destruct (getHistoryCount_maybePruneHistory_skip s0) as (_ & _ & ->) end;
      cbn [placementsSincePrune]; unfold PRUNE_CHECK_INTERVAL; lia. }
  rewrite Hh1 in L2. cbn [length] in L2.
  rewrite (take_ge _ m2) in Hh2 by lia.
  by rewrite Hh1, Hh2.
Qed.

Lemma place_twice_witness :
  exists s1 s2,
    placePixel 1 2 "#ff0000" (Some "0xa") 10 fresh = Ok s1 /\
    placePixel 1 2 "#ff0000" (Some "0xa") 20 s1 = Ok s2 /\
    grid s2 = grid s1 /\ table_grid s2 = table_grid s1 /\
    getPixelCount s2 = getPixelCount s1 /\
    take 1 (pixel_history s1) =
      [entry (history_seq fresh) 1 2 "#ff0000" (Some "0xa") 10] /\
    take 2 (pixel_history s2) =
      [entry (history_seq fresh + 1) 1 2 "#ff0000" (Some "0xa") 20;
       entry (history_seq fresh) 1 2 "#ff0000" (Some "0xa") 10] /\
    (placementsSincePrune fresh + 2 < PRUNE_CHECK_INTERVAL \/
     getHistoryCount fresh + 2 <= HISTORY_MAX_ENTRIES ->
     pixel_history s1 =
       entry (history_seq fresh) 1 2 "#ff0000" (Some "0xa") 10 :: pixel_history fresh /\
     pixel_history s2 =
       entry (history_seq fresh + 1) 1 2 "#ff0000" (Some "0xa") 20 ::
       entry (history_seq fresh) 1 2 "#ff0000" (Some "0xa") 10 :: pixel_history fresh).
Proof.
  apply (place_twice 1 2 "#ff0000" (Some "0xa") 10 20 fresh).
  apply reachable_fresh.
Defined.

(** C5 as stated fails on the log.  After 100498 placements on a new
    database the log holds 100498 rows and the counter stands at 498.
    Placing the in-bounds cell (0, 0) in the palette colour [#ff0000] once
    more gives 100499 rows; placing it twice makes the check come due
    with 100500 rows, and the log is cut back to 100000 rows: fewer than
    after one placement, and not the 100500 that two more rows would
    make. *)
Lemma place_twice_shrinks_log :
  let place := fun s => value (placePixel 0 0 "#ff0000" (Some "0xa") 0 s) in
  in_bounds Config.defaults 0 0 /\
  In "#ff0000"%string (Config.canvas_palette Config.defaults) /\
  getHistoryCount busy = 100498 /\
  getHistoryCount <$> place busy = Some 100499 /\
  getHistoryCount <$> (place busy ≫= place) = Some 100000 /\
  getHistoryCount <$> (place busy ≫= place) <> Some (getHistoryCount busy + 2).
Proof.
  split; [unfold in_bounds; simpl; lia|]. split; [by left|].
  vm_compute. repeat split. discriminate.
Qed.

End LogClaims.

(* ------------------------------------------------------------------ *)
(** ** Export, clear, import *)

Section RoundTrip.
Import Js Database Inv.

Lemma elem_of_table_cells s x y c :
  (x, y, c) ∈ table_cells s <->
  exists cell, pixels s !! (x, y) = Some cell /\ c_color cell = c.
Proof.
  unfold table_cells. rewrite elem_of_list_to_set, list_elem_of_fmap. split.
  - intros ([[x' y'] cell] & E & H). simpl in E. injection E as -> -> ->.
    apply elem_of_map_to_list in H. by exists cell.
  - intros (cell & H & <-). exists ((x, y), cell). split; [done|].
    by apply elem_of_map_to_list.
Qed.

Lemma elem_of_cache_cells s t :
  t ∈ cache_cells s <->
  exists k p, cache_pixels s !! k = Some p /\ (p_x p, p_y p, p_color p) = t.
Proof.
  unfold cache_cells, getAllPixels.
  rewrite elem_of_list_to_set, list_elem_of_fmap. split.
  - intros (d & -> & H). apply list_elem_of_fmap in H as ([k p] & -> & H).
    apply elem_of_map_to_list in H. by exists k, p.
  - intros (k & p & H & <-).
    exists {| d_x := p_x p; d_y := p_y p; d_color := p_color p |}. split; [done|].
    apply list_elem_of_fmap. exists (k, p). split; [done|].
    by apply elem_of_map_to_list.
Qed.

(** In a coherent state the cache and the table hold the same cells. *)
Lemma cells_agree s : mirror s -> cache_cells s = table_cells s.
Proof.
  unfold mirror. intros Hc. apply set_eq. intros [[x y] c].
  rewrite elem_of_cache_cells, elem_of_table_cells, Hc. split.
  - intros (k & p & H & E). apply view_lookup_Some in H as (_ & cell & H & Hp).
    injection E as <- <- <-. exists cell. split; [done|]. by rewrite Hp.
  - intros (cell & H & <-). exists (key x y), (row_of (x, y) cell).
    split; [|done]. by rewrite view_lookup, H.
Qed.

(** The exported list names every coordinate once. *)
Lemma getAllPixels_NoDup s : mirror s -> NoDup (coord <$> getAllPixels s).
Proof.
  unfold mirror. intros Hc. unfold getAllPixels. rewrite <- list_fmap_compose.
  apply (NoDup_fmap_1 key_of). rewrite <- list_fmap_compose.
  erewrite list_fmap_ext; [apply (NoDup_fst_map_to_list (cache_pixels s))|].
  intros i [k p] H. apply list_elem_of_lookup_2, elem_of_map_to_list in H.
  rewrite Hc in H. apply view_lookup_Some in H as (-> & _). done.
Qed.

Lemma pixels_bulkImportTx dots now s :
  pixels (bulkImportTx dots now s) =
  fill coord (fun d => {| c_color := d_color d; c_placed_by := None;
                          c_placed_at := now |}) (pixels s) dots.
Proof.
  unfold bulkImportTx, fill. revert s.
  induction dots as [|d dots IH]; intros s; [done|]. simpl. rewrite IH.
  f_equal. open_state s. db_unfold. by destruct (bool_decide _).
Qed.

(** Importing a list without repeated coordinates into an empty table
    stores exactly the listed cells. *)
Lemma table_cells_bulkImportTx dots now s :
  pixels s = ∅ -> NoDup (coord <$> dots) ->
  table_cells (bulkImportTx dots now s) = list_to_set (triple <$> dots).
Proof.
  intros He Hnd. apply set_eq. intros [[x y] c].
  rewrite elem_of_table_cells, pixels_bulkImportTx, He.
  rewrite elem_of_list_to_set, list_elem_of_fmap. split.
  - intros (cell & H & <-).
    apply fill_lookup_Some in H as (d & Hd & E & <-).
    exists d. split; [|done]. unfold triple, coord in *. simpl. by injection E as -> ->.
  - intros (d & E & Hd). unfold triple in E. injection E as -> -> ->.
    eexists. split; [by apply (fill_member coord _ dots ∅ d)|done].
Qed.

(** C6.  From every reachable state, exporting the canvas, clearing it
    and importing the exported list gives back the same set of
    (x, y, colour) cells, in the cache and in the table. *)
Theorem export_clear_import cfg now1 now2 now3 s :
  reachable s ->
  exists s1 s2,
    CanvasService.clearCanvas cfg now2 s = Ok s1 /\
    CanvasService.importCanvas cfg
      (CanvasService.ex_pixels (CanvasService.exportCanvas cfg now1 s)) now3 s1 = Ok s2 /\
    cache_cells s1 = ∅ /\
    cache_cells s2 = cache_cells s /\
    table_cells s2 = table_cells s /\
    cache_cells s =
      list_to_set (triple <$> CanvasService.ex_pixels (CanvasService.exportCanvas cfg now1 s)) /\
    coherent s2.
Proof.
  intros Hreach. destruct (reachable_sound s Hreach) as [Hc _ Hi].
  set (snap := fun now s => [{| snap_width := Config.canvas_width cfg;
                                snap_height := Config.canvas_height cfg;
                                snap_timestamp := now;
                                snap_pixels := getAllPixels s |}]).
  set (s1 := invalidate_stats (set_cache_count (fun _ => 0)
               (set_cache_pixels (fun _ => ∅)
                  (stmt_clearCanvas (set_snapshots (fun l => l ++ snap now2 s) s))))).
  set (s1' := set_snapshots (fun l => l ++ snap now3 s1) s1).
  set (s2 := bulkImportTx (getAllPixels s) now3 s1').
  assert (dbInitialized s1 = true /\ pixels s1 = ∅ /\ cache_pixels s1 = ∅ /\
          cache_count s1 = 0) as (Hi1 & Hp1 & Hcp1 & Hcc1)
    by (subst s1; by open_state s).
  assert (dbInitialized s1' = true /\ pixels s1' = ∅ /\ cache_pixels s1' = ∅ /\
          cache_count s1' = 0) as (Hi1' & Hp & Hcp & Hcc).
  { subst s1'. destruct s1. simpl in *. by subst. }
  assert (coherent s1') as Hc1.
  { split; [by rewrite Hcp, Hp, view_empty|]. by rewrite Hcc, Hcp, map_size_empty. }
  pose proof (coherent_bulkImportTx (getAllPixels s) now3 s1' Hc1) as Hc2.
  fold s2 in Hc2.
  assert (coherent (invalidate_stats s2)) as Hc2'.
  { destruct Hc2 as [? ?]. destruct s2. by split. }
  assert (table_cells (invalidate_stats s2) = table_cells s2) as Ht
    by (by destruct s2).
  assert (table_cells (invalidate_stats s2) = cache_cells s) as Hrt.
  { rewrite Ht. subst s2.
    rewrite table_cells_bulkImportTx; [done|done|by apply getAllPixels_NoDup]. }
  exists s1, (invalidate_stats s2).
  split.
  { unfold CanvasService.clearCanvas, saveSnapshot, clearCanvas, ensureInitialized.
    rewrite Hi.
    assert (dbInitialized (set_snapshots (fun l => l ++ snap now2 s) s) = true) as E
      by (by open_state s).
    subst snap. cbv beta in *. by rewrite E. }
  split.
  { unfold CanvasService.importCanvas, saveSnapshot, bulkImport, ensureInitialized.
    rewrite Hi1. fold (snap now3 s1). fold s1'. by rewrite Hi1'. }
  split.
  { apply set_eq. intros t. rewrite elem_of_cache_cells, Hcp1.
    split; [by intros (? & ? & ? & ?)|set_solver]. }
  split; [by rewrite (cells_agree _ (coh_cache _ Hc2'))|].
  split; [rewrite Hrt; by apply cells_agree|].
  split; [done|done].
Qed.

Lemma export_clear_import_witness :
  exists s1 s2,
    CanvasService.clearCanvas Config.defaults 20 painted = Ok s1 /\
    CanvasService.importCanvas Config.defaults
      (CanvasService.ex_pixels (CanvasService.exportCanvas Config.defaults 10 painted))
      30 s1 = Ok s2 /\
    cache_cells s1 = ∅ /\
    cache_cells s2 = cache_cells painted /\
    table_cells s2 = table_cells painted /\
    cache_cells painted =
      list_to_set (triple <$> CanvasService.ex_pixels
                     (CanvasService.exportCanvas Config.defaults 10 painted)) /\
    coherent s2.
Proof.
  apply (export_clear_import Config.defaults 10 20 30 painted).
  apply reachable_painted.
Defined.

End RoundTrip.

(* ------------------------------------------------------------------ *)
(** ** The replay guard *)

Section ReplayGuard.
Import Js NonceStore Replay.

Lemma redisClient_step now e s :
  redisClient s = None <-> redisClient (step now e s) = None.
Proof.
  destruct e as [a n t up|]; simpl; [|done].
  unfold checkAndUseNonce.
  destruct (parseInt t) as [ts|]; [|done].
  destruct (5 * 60 * 1000 <? Z.abs (now - ts)); [done|].
  destruct (redisClient s) as [r|] eqn:E.
  - destruct up.
    + destruct (redis_set_px_nx _ _ _ _ r). simpl. done.
    + destruct (bool_decide _); simpl; by rewrite ?E.
  - destruct (bool_decide _); simpl; by rewrite ?E.
Qed.

(** A timestamp that does not parse, or lies more than five minutes from
    the server clock on either side, is refused before any table is
    looked at. *)
Lemma expired_timestamp a n t now up s :
  off_window t now ->
  checkAndUseNonce a n t now up s = (Invalid "expired_timestamp", s).
Proof.
  unfold checkAndUseNonce. intros [->|(ts & -> & H)]; [done|].
  by rewrite (proj2 (Z.ltb_lt _ _) H).
Qed.

Lemma first_use_accepted a n t now up s :
  in_window t now -> unused (key a n) now s ->
  (checkAndUseNonce a n t now up s).1 = Valid /\
  recorded (key a n) now up (checkAndUseNonce a n t now up s).2.
Proof.
  intros (ts & Hp & Hw) [Hs Hr]. unfold checkAndUseNonce, recorded.
  rewrite Hp, (proj2 (Z.ltb_ge _ _) Hw), Hs.
  rewrite bool_decide_eq_false_2 by (by intros [? ?]).
  destruct (redisClient s) as [r|] eqn:E; [destruct up|]; simpl;
    rewrite ?E, ?lookup_insert_eq; try done.
  unfold redis_set_px_nx.
  destruct (r !! key a n) as [[v expiry]|] eqn:Er.
  - specialize (Hr r v expiry eq_refl Er).
    rewrite (proj2 (Z.ltb_ge _ _) Hr). simpl.
    split; [done|]. eexists. apply lookup_insert_eq.
  - simpl. split; [done|]. eexists. apply lookup_insert_eq.
Qed.

Lemma recorded_step k now0 up0 now e s :
  now < now0 + TTL ->
  recorded k now0 up0 s -> recorded k now0 up0 (step now e s).
Proof.
  intros Hn. unfold recorded. destruct e as [a n t up|]; simpl.
  - unfold checkAndUseNonce.
    destruct (parseInt t) as [ts|]; [|done].
    destruct (5 * 60 * 1000 <? Z.abs (now - ts)); [done|].
    destruct (redisClient s) as [r|] eqn:E.
    + destruct up.
      * unfold redis_set_px_nx.
        destruct (decide (key a n = k)) as [->|Hne].
        -- destruct up0; simpl.
           ++ intros [v Hv]. rewrite Hv, (proj2 (Z.ltb_lt _ _) Hn). simpl. eauto.
           ++ destruct (r !! k) as [[v expiry]|]; [destruct (now <? expiry)|]; done.
        -- destruct (r !! key a n) as [[v expiry]|];
             [destruct (now <? expiry)|]; simpl; try done;
             destruct up0; try done; intros [v0 Hv0]; exists v0;
             by rewrite lookup_insert_ne.
      * destruct (bool_decide (is_Some (store s !! key a n))) eqn:B; simpl;
          rewrite ?E; [done|].
        destruct up0; [done|]. intros Hk.
        apply bool_decide_eq_false in B.
        rewrite lookup_insert_ne; [done|]. intros Heq. apply B. rewrite Heq. eauto.
    + destruct (bool_decide (is_Some (store s !! key a n))) eqn:B; simpl;
        rewrite ?E; [done|]. intros Hk.
      apply bool_decide_eq_false in B.
      rewrite lookup_insert_ne; [done|]. intros Heq. apply B. rewrite Heq. eauto.
  - assert (store s !! k = Some now0 ->
            filter (fun kt : string * Z => ~ TTL < now - kt.2) (store s) !! k = Some now0) as K.
    { intros Hk. apply map_lookup_filter_Some. split; [done|]. simpl. lia. }
    destruct (redisClient s); [destruct up0|]; auto.
Qed.

Lemma recorded_run k now0 up0 evs s :
  Forall (fun ne => ne.1 < now0 + TTL) evs ->
  recorded k now0 up0 s -> recorded k now0 up0 (run evs s).
Proof.
  revert s. induction evs as [|[now e] evs IH]; intros s Ht Hr; [done|].
  apply Forall_cons in Ht as [Ht1 Ht]. unfold run in *. simpl.
  apply IH; [done|]. by apply recorded_step.
Qed.

Lemma redisClient_run evs s :
  redisClient s = None <-> redisClient (run evs s) = None.
Proof.
  revert s. induction evs as [|[now e] evs IH]; intros s; [done|].
  unfold run in *. simpl. rewrite <- IH. apply redisClient_step.
Qed.

Lemma reuse_rejected a n t now0 up0 now1 up1 s :
  recorded (key a n) now0 up0 s ->
  redisClient s = None \/ up0 = up1 ->
  in_window t now1 -> now1 < now0 + TTL ->
  (checkAndUseNonce a n t now1 up1 s).1 = Invalid "nonce_reused".
Proof.
  intros Hr Hb (ts & Hp & Hw) Hn. unfold checkAndUseNonce, recorded in *.
  rewrite Hp, (proj2 (Z.ltb_ge _ _) Hw).
  destruct (redisClient s) as [r|] eqn:E.
  - destruct Hb as [?| ->]; [done|]. destruct up1.
    + destruct Hr as [v Hv]. unfold redis_set_px_nx.
      by rewrite Hv, (proj2 (Z.ltb_lt _ _) Hn).
    + rewrite Hr. by rewrite bool_decide_eq_true_2 by eauto.
  - rewrite Hr. by rewrite bool_decide_eq_true_2 by eauto.
Qed.

(** C1, as amended.  A first call with a timestamp within five minutes of
    the server clock is accepted.  Whatever calls and clean-ups follow
    within the TTL, a later call for the same pair, made within the TTL
    with a timestamp that is itself within five minutes of the clock, is
    rejected with [nonce_reused] provided it consults the table that took
    the record: the local table when no shared backend is set, the shared
    backend when it answers both calls, the local table when it fails
    both.  A call whose timestamp does not parse or is more than five
    minutes off, in either direction, is rejected with
    [expired_timestamp], whatever the tables hold. *)
Theorem replay_guard a n t0 now0 up0 s :
  in_window t0 now0 -> unused (key a n) now0 s ->
  (checkAndUseNonce a n t0 now0 up0 s).1 = Valid /\
  (forall evs t1 now1 up1,
     Forall (fun ne => ne.1 < now0 + TTL) evs -> now1 < now0 + TTL ->
     in_window t1 now1 -> same_backend s up0 up1 ->
     (checkAndUseNonce a n t1 now1 up1
        (run evs (checkAndUseNonce a n t0 now0 up0 s).2)).1
     = Invalid "nonce_reused") /\
  (forall a' n' t' now' up' s',
     off_window t' now' ->
     checkAndUseNonce a' n' t' now' up' s' = (Invalid "expired_timestamp", s')).
Proof.
  intros Hw Hu. destruct (first_use_accepted a n t0 now0 up0 s Hw Hu) as [Hv Hr].
  split; [done|]. split.
  - intros evs t1 now1 up1 Ht Hn Hw1 Hb.
    apply (reuse_rejected a n t1 now0 up0); try done.
    + by apply recorded_run.
    + destruct Hb as [Hb|Hb]; [left|by right].
      apply redisClient_run.
      by apply (redisClient_step now0 (Check a n t0 up0) s).
  - intros. by apply expired_timestamp.
Qed.

Lemma replay_guard_witness :
  (checkAndUseNonce "0xAbC1" "n1" "1000000" 1000000 false initial).1 = Valid /\
  (forall evs t1 now1 up1,
     Forall (fun ne => ne.1 < 1000000 + TTL) evs -> now1 < 1000000 + TTL ->
     in_window t1 now1 -> same_backend initial false up1 ->
     (checkAndUseNonce "0xAbC1" "n1" t1 now1 up1
        (run evs (checkAndUseNonce "0xAbC1" "n1" "1000000" 1000000 false initial).2)).1
     = Invalid "nonce_reused") /\
  (forall a' n' t' now' up' s',
     off_window t' now' ->
     checkAndUseNonce a' n' t' now' up' s' = (Invalid "expired_timestamp", s')).
Proof.
  apply (replay_guard "0xAbC1" "n1" "1000000" 1000000 false initial).
  - exists 1000000. split; [reflexivity|]. simpl. lia.
  - split; [reflexivity|]. intros r v expiry H. discriminate H.
Defined.

(** C1 as stated fails when a shared backend is set and stops answering
    between the two calls: the first call records the pair in Redis, the
    second, an instant later and with the same triple, falls back to the
    local table, finds nothing there and is accepted too. *)
Lemma shared_backend_outage_replays :
  let first := checkAndUseNonce "0xAbC1" "n1" "1000000" 1000000 true initial_shared in
  let second := checkAndUseNonce "0xAbC1" "n1" "1000000" 1000000 false first.2 in
  first.1 = Valid /\ second.1 = Valid /\ second.1 <> Invalid "nonce_reused".
Proof. vm_compute. repeat split. discriminate. Qed.

(** The three calls of the specification's example, on the local table. *)
Example replay_example :
  let first := checkAndUseNonce "0xAbC1" "n1" "1000000" 1000000 false initial in
  let second := checkAndUseNonce "0xAbC1" "n1" "1000000" 1000000 false first.2 in
  let stale := checkAndUseNonce "0xAbC1" "n2" "400000" 1000000 false second.2 in
  first.1 = Valid /\ second.1 = Invalid "nonce_reused" /\
  stale.1 = Invalid "expired_timestamp".
Proof. vm_compute. repeat split. Qed.

End ReplayGuard.

(* ------------------------------------------------------------------ *)
(** ** Cross-instance broadcast *)

Section Fanout.
Import Js WebSocketServer Wire.

Lemma getInstanceId_stable now now' s :
  (getInstanceId now' (getInstanceId now s).2).1 = (getInstanceId now s).1 /\
  wss (getInstanceId now s).2 = wss s.
Proof.
  unfold getInstanceId. destruct s as [w c r [i|] p]; simpl; done.
Qed.

Lemma broadcastLocal_getInstanceId type data now s :
  broadcastLocal type data (getInstanceId now s).2 = broadcastLocal type data s.
Proof.
  unfold broadcastLocal. by rewrite (proj2 (getInstanceId_stable now now s)).
Qed.

Lemma delivered_broadcastLocal type data s clients c :
  wss s = Some clients -> c ∈ clients -> readyState c = OPEN ->
  Send (ws_id c) type data ∈ broadcastLocal type data s.
Proof.
  intros Hw Hc Ho. unfold broadcastLocal. rewrite Hw.
  apply list_elem_of_bind. exists c. split; [|done].
  unfold send. rewrite Ho. by left.
Qed.

(** C9.  A message of the shared channel that parses is redelivered to
    the local connections exactly when its origin tag differs from the
    identity of the receiving instance: with a foreign tag every open local
    connection is sent it, with the instance's own tag nothing is sent.
    What an instance publishes carries its own identity, so that it is not
    delivered a second time when the channel hands it back. *)
Theorem redelivery_iff_foreign msg now s :
  let me := (getInstanceId now s).1 in
  let out := (on_redis_message CHANNEL (Some msg) now s).2 in
  out = (if bool_decide (sh_origin msg = Some me) then []
         else broadcastLocal (sh_type msg) (sh_data msg) s) /\
  (forall clients c,
     wss s = Some clients -> c ∈ clients -> readyState c = OPEN ->
     Send (ws_id c) (sh_type msg) (sh_data msg) ∈ out <-> sh_origin msg <> Some me) /\
  (forall type data now' ch m,
     (ch, m) ∈ published (broadcast type data now s).2 ->
     (on_redis_message ch (Some m) now' (broadcast type data now s).1).2 = []).
Proof.
  cbv zeta. unfold on_redis_message. rewrite String.eqb_refl. simpl.
  destruct (getInstanceId now s) as [me s'] eqn:E. simpl.
  assert (broadcastLocal (sh_type msg) (sh_data msg) s' =
          broadcastLocal (sh_type msg) (sh_data msg) s) as Hb.
  { replace s' with (getInstanceId now s).2 by (by rewrite E).
    apply broadcastLocal_getInstanceId. }
  split; [|split].
  - destruct (bool_decide (sh_origin msg = Some me)); [done|]. by rewrite Hb.
  - intros clients c Hw Hc Ho.
    destruct (bool_decide (sh_origin msg = Some me)) eqn:B; simpl.
    + apply bool_decide_eq_true in B. split; [|done].
      intros H. by apply elem_of_nil in H.
    + apply bool_decide_eq_false in B. split; [done|]. intros _.
      rewrite Hb. by eapply delivered_broadcastLocal.
  - intros type data now' ch m. unfold broadcast.
    destruct (redisPub s); simpl.
    + rewrite E. simpl. unfold published. rewrite bind_app. simpl.
      intros H. apply elem_of_app in H as [H|H].
      * exfalso. apply list_elem_of_bind in H as (e & He & Hin).
        unfold broadcastLocal in Hin. destruct (wss s) as [cl|]; [|by apply elem_of_nil in Hin].
        apply list_elem_of_bind in Hin as (c & Hs & _).
        unfold send in Hs. destruct (readyState c);
          try (by apply elem_of_nil in Hs).
        apply list_elem_of_singleton in Hs as ->. by apply elem_of_nil in He.
      * apply list_elem_of_singleton in H. injection H as -> ->.
        rewrite String.eqb_refl. simpl.
        pose proof (getInstanceId_stable now now' s) as [Hi _].
        rewrite E in Hi. simpl in Hi.
        destruct (getInstanceId now' s') as [me' s''] eqn:E'. simpl in *. subst me'.
        by rewrite bool_decide_eq_true_2.
    + unfold published. intros H. exfalso.
      apply list_elem_of_bind in H as (e & He & Hin).
      unfold broadcastLocal in Hin. destruct (wss s) as [cl|]; [|by apply elem_of_nil in Hin].
      apply list_elem_of_bind in Hin as (c & Hs & _).
      unfold send in Hs. destruct (readyState c);
        try (by apply elem_of_nil in Hs).
      apply list_elem_of_singleton in Hs as ->. by apply elem_of_nil in He.
Qed.

End Fanout.

(* ------------------------------------------------------------------ *)
(** ** Liveness *)

Section Liveness.
Import Js WebSocketServer Wire.

(** The sweep terminates a connection exactly when it is not marked alive
    and its last recorded activity is more than sixty seconds old. *)
Lemma doomed_iff now c :
  doomed now c = true <->
  isAlive c = false /\ exists t, lastActivity c = Some t /\ 60000 < now - t.
Proof.
  unfold doomed. destruct (isAlive c), (lastActivity c) as [t|]; simpl.
  - split; [done|]. by intros [? _].
  - split; [done|]. by intros [? _].
  - rewrite Z.ltb_lt. split.
    + intros H. split; [done|]. by exists t.
    + by intros [_ (t' & [= <-] & H)].
  - split; [done|]. by intros [_ (t' & ? & _)].
Qed.

Lemma heartbeat_terminates id now s :
  Terminate id ∈ (heartbeat now s).2 ->
  exists clients c, wss s = Some clients /\ c ∈ clients /\ ws_id c = id /\
                    doomed now c = true.
Proof.
  unfold heartbeat. simpl. destruct (wss s) as [clients|]; simpl.
  - intros H. apply list_elem_of_bind in H as (c & H & Hc).
    exists clients, c. unfold sweep_socket in H.
    destruct (doomed now c) eqn:D; simpl in H;
      apply list_elem_of_singleton in H; [|done].
    injection H as ->. done.
  - intros H. by apply elem_of_nil in H.
Qed.

(** A connection that answers every probe, by a pong or by a message that
    parses, is never terminated. *)
Lemma answers_survive evs c :
  answers (isAlive c) evs -> is_Some (live_through evs c).
Proof.
  revert c. induction evs as [|[now [|[m|]|]] evs IH]; intros c H; simpl in *.
  - eauto.
  - apply IH. by destruct c.
  - apply IH. by destruct c.
  - by apply IH.
  - destruct H as [Ha H].
    assert (doomed now c = false) as D by (unfold doomed; by rewrite Ha).
    unfold sweep_socket. rewrite !D. simpl. apply IH. by destruct c.
Qed.

(** A connection whose last pong or parsed message is never more than
    sixty seconds old at a sweep is never terminated, whether it answers the
    probes or not. *)
Lemma active_survive evs c last :
  lastActivity c = Some last -> active last evs -> is_Some (live_through evs c).
Proof.
  revert c last. induction evs as [|[now [|[m|]|]] evs IH]; intros c last Hl H;
    simpl in *.
  - eauto.
  - apply (IH _ now); [by destruct c|done].
  - apply (IH _ now); [by destruct c|done].
  - by apply (IH _ last).
  - destruct H as [Ha H].
    assert (doomed now c = false) as D.
    { unfold doomed. rewrite Hl. rewrite (proj2 (Z.ltb_ge _ _) Ha). apply andb_false_r. }
    unfold sweep_socket. rewrite !D. simpl. apply (IH _ last); [|done].
    destruct c. simpl in *. done.
Qed.

(** One missed probe is not fatal: after an answer at [t0], a sweep at
    [t1] and the next at [t2] leave the connection alone as long as [t2] is
    within sixty seconds of [t0], as two sweeps twenty-five seconds apart
    after the answered one are. *)
Lemma one_missed_probe c t0 t1 t2 :
  t1 - t0 <= 60000 -> t2 - t0 <= 60000 ->
  is_Some (live_through [(t0, Ponged); (t1, Swept); (t2, Swept)] c).
Proof.
  intros H1 H2. simpl.
  apply (active_survive [(t1, Swept); (t2, Swept)] (touch t0 c) t0);
    [by destruct c|simpl; auto].
Qed.

(** C8.  The eviction rule is meant to count any inbound message as
    activity, and the handler's own comment says so; but the handler parses
    the text before it marks the socket alive, and a text that does not
    parse leaves through the [catch].  A connection that ignores the pings
    and sends a frame that is not JSON every ten seconds is terminated by
    the third sweep, five seconds after its last message; had the frames
    parsed, it would have been kept. *)
Theorem unparsed_messages_do_not_count :
  live_through (chatter None) guest = None /\
  is_Some (live_through (chatter (Some (InOther "hello"))) guest) /\
  (serve Config.defaults (chatter None) (hall, Inv.fresh)).2 =
    [Ping 7; Ping 7; Terminate 7] /\
  (serve Config.defaults (chatter (Some (InOther "hello"))) (hall, Inv.fresh)).2 =
    [Ping 7; Ping 7; Ping 7].
Proof.
  split; [by vm_compute|]. split; [vm_compute; eauto|].
  split; by vm_compute.
Qed.

End Liveness.

(* ------------------------------------------------------------------ *)
(** ** Writes through the WebSocket handlers *)

Section SocketWrites.
Import Js WebSocketServer Wire.

(** C4.  The core is meant to refuse a write outside the grid and leave
    table, cache and log alone; the HTTP routes check the bounds before
    they call it, the WebSocket handlers and the core itself do not.  On
    the default 220 x 150 grid an authorised connection that sends
    [{ type: 'pixel', data: { x: -1, y: 5, color: '#ff0000' } }] gets the cell
    (-1, 5) stored in the table and in the cache, counted, logged and
    broadcast; a batch with the cell (220, 0) fares the same. *)
Theorem websocket_write_out_of_range :
  let pixel := InPixel (Some {| m_x := Some (-1); m_y := Some 5;
                                m_color := Some "#ff0000"%string |}) in
  let batch := InBatch [{| m_x := Some 220; m_y := Some 0;
                           m_color := Some "#ff0000"%string |}] in
  let w1 := on_message Config.defaults 7 (Some pixel) 1000 (hall, Inv.fresh) in
  let w2 := on_message Config.defaults 7 (Some batch) 1000 (hall, Inv.fresh) in
  ~ Inv.in_bounds Config.defaults (-1) 5 /\
  ~ Inv.in_bounds Config.defaults 220 0 /\
  Database.c_color <$> (Database.pixels w1.1.2 !! (-1, 5)) = Some "#ff0000"%string /\
  Database.p_color <$> Database.getPixel (-1) 5 w1.1.2 = Some "#ff0000"%string /\
  Database.getPixelCount w1.1.2 = 1 /\
  Database.getHistoryCount w1.1.2 = 1 /\
  w1.2 = [Send 7 "pixel" (PixelChanged (-1) 5 (Some "#ff0000"%string) (Some "0xa"%string));
          Send 7 "status" (StatusChanged
            {| CanvasService.pixelCount := 1; CanvasService.totalSlots := 33000;
               CanvasService.isFull := false |})] /\
  Database.c_color <$> (Database.pixels w2.1.2 !! (220, 0)) = Some "#ff0000"%string /\
  Database.getPixelCount w2.1.2 = 1 /\
  Database.getHistoryCount w2.1.2 = 1.
Proof.
  cbv zeta.
  split; [unfold Inv.in_bounds; simpl; lia|].
  split; [unfold Inv.in_bounds; simpl; lia|].
  vm_compute. repeat split.
Qed.

(** The core itself stores whatever coordinates it is given. *)
Lemma placePixel_unchecked x y color addr now s :
  Database.dbInitialized s = true ->
  exists s', Database.placePixel x y color addr now s = Ok s' /\
             is_Some (Database.pixels s' !! (x, y)) /\
             is_Some (Database.getPixel x y s').
Proof.
  intros Hi. unfold Database.placePixel, Database.ensureInitialized. rewrite Hi.
  eexists. split; [done|].
  destruct (placePixelTx_shape x y color addr now s) as (us & ->).
  rewrite pixels_maybePruneHistory. unfold Database.getPixel.
  rewrite (proj1 (cache_maybePruneHistory _)). simpl.
  rewrite !lookup_insert_eq. eauto.
Qed.

End SocketWrites.

(* ------------------------------------------------------------------ *)
(** ** Admission *)

Section AdmissionCaps.
Import Js WebSocketServer Wire.
Variables (MAX_PER_IP MAX_TOTAL : Z).
Variable jwt_verify : string -> option User.
Variable config : Config.t.

Lemma refused_welcome (o : option Socket) clients status authenticated verified :
  refused verified = None ->
  refused (verified ++ match o with
                       | Some c => send c "welcome" (Welcome clients status authenticated)
                       | None => []
                       end) = None.
Proof.
  intros Hv. destruct o as [c|]; [|by rewrite app_nil_r]. unfold send.
  destruct (readyState c); rewrite ?app_nil_r; try done.
  induction verified as [|e verified IH]; simpl in *; [done|].
  destruct e as [| ? code ? | | | |]; try (by apply IH).
  destruct code as [|p|p]; try (by apply IH).
  repeat (destruct p as [p|p|]; try (by apply IH)); done.
Qed.

(** A connection attempt under both caps is taken in: no capacity refusal
    is sent, the socket stays among the clients and is entered under its
    source address. *)
Lemma accept_admits id ip token now db s clients :
  wss s = Some clients ->
  Z.of_nat (length clients) + 1 < MAX_TOTAL ->
  Z.of_nat (size (default ∅ (connsByIP s !! ip))) < MAX_PER_IP ->
  token_ok jwt_verify token ->
  let r := accept MAX_PER_IP MAX_TOTAL jwt_verify config id ip token now db s in
  refused r.2 = None /\
  (exists clients', wss r.1 = Some clients' /\ length clients' = S (length clients)) /\
  connsByIP r.1 = <[ip := {[ id ]} ∪ default ∅ (connsByIP s !! ip)]> (connsByIP s).
Proof.
  intros Hw Ht Hs Htok. destruct s as [w c r i p]. simpl in *. subst w.
  unfold accept, on_connection, canConnect. simpl.
  rewrite length_app. simpl.
  rewrite (proj2 (Z.leb_gt _ _)) by lia.
  rewrite (proj2 (Z.leb_gt _ _)) by lia.
  destruct Htok as [Hf|(t & u & -> & Hv)].
  - destruct token as [t|]; [rewrite Hf|]; simpl.
    + split; [apply (refused_welcome _ _ _ _ [] eq_refl)|].
      split; [|done]. eexists. split; [reflexivity|].
      rewrite !length_fmap, length_app. simpl. lia.
    + split; [apply (refused_welcome _ _ _ _ [] eq_refl)|].
      split; [|done]. eexists. split; [reflexivity|].
      rewrite !length_fmap, length_app. simpl. lia.
  - rewrite Hv. destruct (truthy (Some t)); simpl.
    + split; [apply (refused_welcome _ _ _ _ [Verify t] eq_refl)|].
      split; [|done]. eexists. split; [reflexivity|].
      rewrite !length_fmap, length_app. simpl. lia.
    + split; [apply (refused_welcome _ _ _ _ [] eq_refl)|].
      split; [|done]. eexists. split; [reflexivity|].
      rewrite !length_fmap, length_app. simpl. lia.
Qed.

(** Under both caps no capacity refusal is sent, whatever the token. *)
Lemma accept_passes id ip token now db s clients :
  wss s = Some clients ->
  Z.of_nat (length clients) + 1 < MAX_TOTAL ->
  Z.of_nat (size (default ∅ (connsByIP s !! ip))) < MAX_PER_IP ->
  refused (accept MAX_PER_IP MAX_TOTAL jwt_verify config id ip token now db s).2 = None.
Proof.
  intros Hw Ht Hs. destruct s as [w c r i p]. simpl in *. subst w.
  unfold accept, on_connection, canConnect. simpl.
  rewrite length_app. simpl.
  rewrite (proj2 (Z.leb_gt _ _)) by lia.
  rewrite (proj2 (Z.leb_gt _ _)) by lia.
  destruct token as [t|]; [destruct (truthy (Some t)); [destruct (jwt_verify t)|]|];
    simpl; try done.
  - apply (refused_welcome _ _ _ _ [Verify t] eq_refl).
  - apply (refused_welcome _ _ _ _ [] eq_refl).
  - apply (refused_welcome _ _ _ _ [] eq_refl).
Qed.

(** A connection attempt from a source at its cap is refused at once: the
    close with the per-source reason is the only effect. *)
Lemma accept_refuses_source id ip token now db s clients :
  wss s = Some clients ->
  Z.of_nat (length clients) + 1 < MAX_TOTAL ->
  MAX_PER_IP <= Z.of_nat (size (default ∅ (connsByIP s !! ip))) ->
  let r := accept MAX_PER_IP MAX_TOTAL jwt_verify config id ip token now db s in
  r.2 = [Close id 1013 "Too many connections"] /\
  (exists clients', wss r.1 = Some clients' /\ length clients' = S (length clients)) /\
  connsByIP r.1 = connsByIP s.
Proof.
  intros Hw Ht Hs. destruct s as [w c r i p]. simpl in *. subst w.
  unfold accept, on_connection, canConnect. simpl.
  rewrite length_app. simpl.
  rewrite (proj2 (Z.leb_gt _ _)) by lia.
  rewrite (proj2 (Z.leb_le _ _)) by lia. simpl.
  split; [done|]. split; [|done]. eexists. split; [reflexivity|].
  rewrite !length_fmap, length_app. simpl. lia.
Qed.

(** With the clients at the global cap the handler refuses at once, with
    its own reason. *)
Lemma on_connection_full id ip token now db s clients :
  wss s = Some clients -> MAX_TOTAL <= Z.of_nat (length clients) ->
  (on_connection MAX_PER_IP MAX_TOTAL jwt_verify config id ip token now db s).2
  = [Close id 1013 "Server full"].
Proof.
  intros Hw Ht. unfold on_connection, canConnect. rewrite Hw.
  by rewrite (proj2 (Z.leb_le _ _)) by lia.
Qed.

End AdmissionCaps.

Section AdmissionClaim.
Import Js WebSocketServer Wire.

(** C7.  With the per-source cap at 2 and the global cap out of reach, of
    three successive attempts from one source whose first two are kept
    (no token, or one that verifies) the first two are admitted and the
    third is closed with the per-source reason as the handler's only
    effect, so before any token is verified; a fourth attempt, from another
    source below its cap, is admitted; only the first two sockets are
    entered under the source address; and whenever the clients have reached
    the global cap the handler closes the connection with a reason of its
    own. *)
Theorem admission_caps MAX_TOTAL jwt_verify config db s clients
    ip ip' id1 id2 id3 id4 tok1 tok2 tok3 tok4 now :
  wss s = Some clients ->
  Z.of_nat (length clients) + 4 < MAX_TOTAL ->
  connsByIP s !! ip = None ->
  ip <> ip' ->
  Z.of_nat (size (default ∅ (connsByIP s !! ip'))) < 2 ->
  id1 <> id2 ->
  token_ok jwt_verify tok1 -> token_ok jwt_verify tok2 ->
  let go := accept 2 MAX_TOTAL jwt_verify config in
  let r1 := go id1 ip tok1 now db s in
  let r2 := go id2 ip tok2 now db r1.1 in
  let r3 := go id3 ip tok3 now db r2.1 in
  let r4 := go id4 ip' tok4 now db r3.1 in
  refused r1.2 = None /\
  refused r2.2 = None /\
  r3.2 = [Close id3 1013 "Too many connections"] /\
  connsByIP r3.1 !! ip = Some ({[ id2 ]} ∪ {[ id1 ]}) /\
  refused r4.2 = None /\
  (forall cap s0 clients0 id ip0 tok,
     wss s0 = Some clients0 -> MAX_TOTAL <= Z.of_nat (length clients0) ->
     (on_connection cap MAX_TOTAL jwt_verify config id ip0 tok now db s0).2
     = [Close id 1013 "Server full"]) /\
  "Server full"%string <> "Too many connections"%string.
Proof.
  intros Hw Ht Hip Hne Hip' Hid Hk1 Hk2. cbv zeta.
  destruct (accept_admits 2 MAX_TOTAL jwt_verify config id1 ip tok1 now db s clients)
    as (Hr1 & (cl1 & Hw1 & Hl1) & Hc1); try done; try lia.
  { rewrite Hip. by vm_compute. }
  set (r1 := accept 2 MAX_TOTAL jwt_verify config id1 ip tok1 now db s) in *.
  destruct (accept_admits 2 MAX_TOTAL jwt_verify config id2 ip tok2 now db r1.1 cl1)
    as (Hr2 & (cl2 & Hw2 & Hl2) & Hc2); try done; try lia.
  { rewrite Hc1, lookup_insert_eq, Hip.
    change (default ∅ (@None (gset nat))) with (∅ : gset nat).
    change (default ∅ (Some ({[ id1 ]} ∪ ∅ : gset nat))) with ({[ id1 ]} ∪ ∅ : gset nat).
    rewrite (right_id_L ∅ (∪)), size_singleton. lia. }
  set (r2 := accept 2 MAX_TOTAL jwt_verify config id2 ip tok2 now db r1.1) in *.
  assert (connsByIP r2.1 !! ip = Some ({[ id2 ]} ∪ {[ id1 ]})) as Hin.
  { rewrite Hc2, lookup_insert_eq, Hc1, lookup_insert_eq, Hip.
    change (default ∅ (@None (gset nat))) with (∅ : gset nat).
    change (default ∅ (Some ({[ id1 ]} ∪ ∅ : gset nat))) with ({[ id1 ]} ∪ ∅ : gset nat).
    by rewrite (right_id_L ∅ (∪)). }
  destruct (accept_refuses_source 2 MAX_TOTAL jwt_verify config id3 ip tok3 now db r2.1 cl2)
    as (Hr3 & (cl3 & Hw3 & Hl3) & Hc3); try done; try lia.
  { rewrite Hin.
    change (default ∅ (Some ({[ id2 ]} ∪ {[ id1 ]} : gset nat)))
      with ({[ id2 ]} ∪ {[ id1 ]} : gset nat).
    rewrite size_union by set_solver. rewrite !size_singleton. lia. }
  set (r3 := accept 2 MAX_TOTAL jwt_verify config id3 ip tok3 now db r2.1) in *.
  assert (refused (accept 2 MAX_TOTAL jwt_verify config id4 ip' tok4 now db r3.1).2 = None)
    as Hr4.
  { apply (accept_passes 2 MAX_TOTAL jwt_verify config id4 ip' tok4 now db r3.1 cl3);
      try done; try lia.
    rewrite Hc3, Hc2, lookup_insert_ne, Hc1, lookup_insert_ne by done. done. }
  split; [done|]. split; [done|]. split; [done|].
  split; [by rewrite Hc3|]. split; [done|]. split; [|done].
  intros cap s0 clients0 id ip0 tok Hw0 Hf.
  by eapply on_connection_full.
Qed.

Lemma admission_caps_witness :
  let go := accept 2 10000 (fun _ => Some member) Config.defaults in
  let r1 := go 1%nat "10.0.0.1"%string None 0 Inv.fresh idle in
  let r2 := go 2%nat "10.0.0.1"%string (Some "t"%string) 0 Inv.fresh r1.1 in
  let r3 := go 3%nat "10.0.0.1"%string (Some "t"%string) 0 Inv.fresh r2.1 in
  let r4 := go 4%nat "10.0.0.2"%string None 0 Inv.fresh r3.1 in
  refused r1.2 = None /\
  refused r2.2 = None /\
  r3.2 = [Close 3 1013 "Too many connections"] /\
  connsByIP r3.1 !! "10.0.0.1"%string = Some ({[ 2%nat ]} ∪ {[ 1%nat ]}) /\
  refused r4.2 = None /\
  (forall cap s0 clients0 id ip0 tok,
     wss s0 = Some clients0 -> 10000 <= Z.of_nat (length clients0) ->
     (on_connection cap 10000 (fun _ => Some member) Config.defaults id ip0 tok 0
        Inv.fresh s0).2
     = [Close id 1013 "Server full"]) /\
  "Server full"%string <> "Too many connections"%string.
Proof.
  apply (admission_caps 10000 (fun _ => Some member) Config.defaults Inv.fresh idle []
           "10.0.0.1" "10.0.0.2" 1%nat 2%nat 3%nat 4%nat
           None (Some "t"%string) (Some "t"%string) None 0).
  - reflexivity.
  - simpl. lia.
  - reflexivity.
  - discriminate.
  - by vm_compute.
  - lia.
  - by left.
  - right. by exists "t"%string, member.
Defined.

End AdmissionClaim.

(* ================================================================== *)
(** * Further properties of the code *)

(* ------------------------------------------------------------------ *)
(** ** The database API: cells, statistics, users, log, snapshots *)

Section Lookup.
Import Js Database Inv.

Lemma cache_placePixelTx x y color addr now s :
  cache_pixels (placePixelTx x y color addr now s) =
    <[key x y := {| p_x := x; p_y := y; p_color := color;
                    p_placed_by := addr; p_placed_at := now |}]> (cache_pixels s).
Proof.
  destruct (placePixelTx_shape x y color addr now s) as [us ->].
  by rewrite (proj1 (cache_maybePruneHistory _)).
Qed.

Lemma cache_eraseTx x y admin now s :
  cache_pixels (eraseTx x y admin now s) = delete (key x y) (cache_pixels s).
Proof.
  rewrite eraseTx_shape. cbn. unfold cache_has.
  destruct (bool_decide _) eqn:E; [done|].
  apply bool_decide_eq_false in E.
  symmetry. apply delete_id. by apply eq_None_not_Some.
Qed.

(** X1: a cell that was placed is read back as it was written, an erased
    cell reads as empty, and neither operation touches another cell. *)
Theorem read_your_writes x y color addr admin now1 now2 s :
  dbInitialized s = true ->
  exists s1 s2,
    placePixel x y color addr now1 s = Ok s1 /\
    getPixel x y s1 = Some {| p_x := x; p_y := y; p_color := color;
                              p_placed_by := addr; p_placed_at := now1 |} /\
    erasePixel x y admin now2 s1 = Ok s2 /\
    getPixel x y s2 = None /\
    (forall x' y', (x', y') <> (x, y) ->
       getPixel x' y' s1 = getPixel x' y' s /\
       getPixel x' y' s2 = getPixel x' y' s).
Proof.
  intros Hi.
  destruct (dbInitialized_mutate now1 (Place x y color addr) s Hi) as (s1 & E1 & Hi1 & ->).
  destruct (dbInitialized_mutate now2 (Erase x y admin) _ Hi1) as (s2 & E2 & _ & ->).
  simpl in E1, E2. eexists _, _. split; [exact E1|].
  unfold getPixel. rewrite cache_eraseTx, cache_placePixelTx.
  split; [by rewrite lookup_insert_eq|]. split; [exact E2|].
  split; [by rewrite lookup_delete_eq|].
  intros x' y' Hne.
  assert (key x y <> key x' y') as Hk.
  { intros H. apply key_inj in H as [-> ->]. by apply Hne. }
  split; [|rewrite lookup_delete_ne by done]; rewrite ?cache_placePixelTx;
    by rewrite lookup_insert_ne.
Qed.

Lemma read_your_writes_witness :
  exists s1 s2,
    placePixel 3 4 "#00ff00" (Some "0xa") 10 fresh = Ok s1 /\
    getPixel 3 4 s1 = Some {| p_x := 3; p_y := 4; p_color := "#00ff00";
                              p_placed_by := Some "0xa"%string; p_placed_at := 10 |} /\
    erasePixel 3 4 (Some "0xadmin") 20 s1 = Ok s2 /\
    getPixel 3 4 s2 = None /\
    (forall x' y', (x', y') <> (3, 4) ->
       getPixel x' y' s1 = getPixel x' y' fresh /\
       getPixel x' y' s2 = getPixel x' y' fresh).
Proof. apply (read_your_writes 3 4 "#00ff00" (Some "0xa"%string) (Some "0xadmin"%string) 10 20 fresh). reflexivity. Defined.

End Lookup.

Section Statistics.
Import Js Database Inv Ledger.

Lemma frame_maybePruneHistory s :
  statsCache_data (maybePruneHistory s) = statsCache_data s /\
  statsCache_ts (maybePruneHistory s) = statsCache_ts s /\
  users (maybePruneHistory s) = users s /\
  canvas_snapshots (maybePruneHistory s) = canvas_snapshots s.
Proof.
  destruct (maybePruneHistory_shape s) as (h' & n' & ->). by open_state s.
Qed.

Lemma statsCache_mutate now m s s' :
  dbInitialized s = true -> mutate now m s = Ok s' ->
  s' = s \/ statsCache_data s' = None.
Proof.
  intros Hi Hm.
  destruct (dbInitialized_mutate now m s Hi) as (s2 & E & _ & ->).
  rewrite E in Hm. injection Hm as <-.
  destruct m as [x y color addr|[|d dots] addr|x y admin]; [right|by left|right|right].
  - destruct (placePixelTx_shape x y color addr now s) as [us ->].
    by rewrite (proj1 (frame_maybePruneHistory _)).
  - destruct (placeBatchTx_shape (d :: dots) addr now s) as (s1 & n1 & us & _ & ->).
    by rewrite (proj1 (frame_maybePruneHistory _)).
  - by rewrite eraseTx_shape.
Qed.

Lemma statsCache_initDatabase disk backup now :
  statsCache_data (initDatabase disk backup now) = None.
Proof.
  destruct disk as [[[[t0 h0] q0] us0] sn0]. unfold initDatabase.
  match goal with |- context [foldl (importTx_step now) ?s0] => set (s0' := s0) end.
  assert (forall dots, statsCache_data (foldl (importTx_step now) s0' dots) = None) as F.
  { intros dots. apply (foldl_invariant (fun s => statsCache_data s = None)); [done|].
    intros a b Ha. by open_state a. }
  destruct (cache_count s0' =? 0); [|done].
  destruct backup as [dots|]; [|done].
  destruct (0 <? Z.of_nat (length dots)); [|done].
  specialize (F dots). by destruct (foldl (importTx_step now) s0' dots).
Qed.

(** In every reachable state the cached statistics are those of the
    state. *)
Lemma reachable_stats_agree s : reachable s -> stats_agree s.
Proof.
  induction 1 as [t h q us sn backup now Hd
                 |s now m s' Hr IH Hm
                 |s now d s' Hr IH Hg
                 |cfg s now s' Hr IH Hc
                 |cfg s dots now s' Hr IH Hc
                 |s dots now s' Hr IH Hc]; intros d0 Hd0.
  - by rewrite statsCache_initDatabase in Hd0.
  - destruct (statsCache_mutate now m s s') as [->|E]; try done.
    + by apply reachable_sound.
    + by apply IH.
    + by rewrite E in Hd0.
  - unfold getStats, ensureInitialized in Hg.
    rewrite (sound_init _ (reachable_sound _ Hr)) in Hg.
    destruct (statsCache_data s) as [d1|] eqn:E1;
      [destruct (now - statsCache_ts s <? 5000)|];
      injection Hg as _ <-.
    + by apply IH.
    + revert Hd0. open_state s. simpl. by intros [= <-].
    + revert Hd0. open_state s. simpl. by intros [= <-].
  - unfold CanvasService.clearCanvas, saveSnapshot, clearCanvas, ensureInitialized in Hc.
    rewrite (sound_init _ (reachable_sound _ Hr)) in Hc.
    revert Hc Hd0. open_state s. simpl.
    destruct ini; [|done]. by intros [= <-].
  - unfold CanvasService.importCanvas, saveSnapshot, bulkImport, ensureInitialized in Hc.
    rewrite (sound_init _ (reachable_sound _ Hr)) in Hc.
    revert Hc Hd0. open_state s. simpl.
    destruct ini; [|done]. intros [= <-].
    by destruct (bulkImportTx _ _ _).
  - unfold bulkImport, ensureInitialized in Hc.
    rewrite (sound_init _ (reachable_sound _ Hr)) in Hc.
    injection Hc as <-. revert Hd0. by destruct (bulkImportTx _ _ _).
Qed.

Lemma getStats_reachable now s :
  reachable s ->
  exists d s',
    getStats now s = Ok (d, s') /\
    total_pixels d = getPixelCount s /\
    total_placements d = getHistoryCount s /\
    pixels s' = pixels s /\ cache_pixels s' = cache_pixels s /\
    pixel_history s' = pixel_history s /\
    canvas_snapshots s' = canvas_snapshots s /\ cache_count s' = cache_count s /\
    dbInitialized s' = true.
Proof.
  intros Hr. pose proof (reachable_stats_agree s Hr) as Ha.
  pose proof (sound_init _ (reachable_sound _ Hr)) as Hi.
  unfold getStats, ensureInitialized. rewrite Hi.
  destruct (statsCache_data s) as [d1|] eqn:E1;
    [destruct (now - statsCache_ts s <? 5000)|]; eexists _, _; (split; [reflexivity|]).
  - destruct (Ha d1 E1) as [-> ->]. done.
  - by open_state s.
  - by open_state s.
Qed.

(** X2: in a reachable state [getStats] reports the present number of
    cells and of log rows, never an older one. *)
Theorem getStats_current now s :
  reachable s ->
  exists d s',
    getStats now s = Ok (d, s') /\
    total_pixels d = getPixelCount s /\
    total_placements d = getHistoryCount s /\
    pixels s' = pixels s /\ cache_pixels s' = cache_pixels s /\
    pixel_history s' = pixel_history s.
Proof.
  intros Hr.
  destruct (getStats_reachable now s Hr) as (d & s' & ? & ? & ? & ? & ? & ? & _).
  by exists d, s'.
Qed.

Lemma getStats_current_witness :
  exists d s',
    getStats 9 painted = Ok (d, s') /\
    total_pixels d = getPixelCount painted /\
    total_placements d = getHistoryCount painted /\
    pixels s' = pixels painted /\ cache_pixels s' = cache_pixels painted /\
    pixel_history s' = pixel_history painted.
Proof. apply (getStats_current 9 painted). apply reachable_painted. Defined.

End Statistics.

Section Users.
Import Js Database Inv Ledger.

(** X3: for five seconds [getStats] answers from its cache: a user that
    [getUser] registers in between is not counted. *)
Theorem getStats_serves_cache addr now1 t now2 s :
  dbInitialized s = true -> statsCache_data s = None ->
  users s !! addr = None -> now2 - now1 < 5000 ->
  exists d s1 u s2,
    getStats now1 s = Ok (d, s1) /\
    total_users d = Z.of_nat (size (users s)) /\
    getUser addr t s1 = Ok (Some u, s2) /\
    getStats now2 s2 = Ok (d, s2) /\
    Z.of_nat (size (users s2)) = total_users d + 1.
Proof.
  intros Hi Hn Hu Hlt.
  unfold getStats, getUser, ensureInitialized. rewrite Hi, Hn.
  open_state s. simpl in *. subst. unfold upsertUser.
  eexists _, _, _, _. split; [reflexivity|]. split; [reflexivity|].
  simpl. rewrite Hu. simpl. rewrite lookup_insert_eq. split; [reflexivity|].
  apply Z.ltb_lt in Hlt. cbn. rewrite Hlt. split; [reflexivity|].
  rewrite map_size_insert_None by done. lia.
Qed.

Lemma getStats_serves_cache_witness :
  exists d s1 u s2,
    getStats 1000 fresh = Ok (d, s1) /\
    total_users d = Z.of_nat (size (users fresh)) /\
    getUser "0xb" 2000 s1 = Ok (Some u, s2) /\
    getStats 5999 s2 = Ok (d, s2) /\
    Z.of_nat (size (users s2)) = total_users d + 1.
Proof.
  apply (getStats_serves_cache "0xb" 1000 2000 5999 fresh); reflexivity.
Defined.

Lemma users_placeBatchTx dots addr now s :
  users (placeBatchTx dots addr now s) =
  users (match addr with
         | Some a =>
             if truthy addr
             then addUserPixels a (Z.of_nat (length dots)) (upsertUser a now s)
             else s
         | None => s
         end).
Proof.
  unfold placeBatchTx.
  pose proof (placeBatch_loop_frame addr now dots s 0) as F. simpl in F.
  destruct (foldl _ _ _) as [s1 n1]. simpl in F. destruct F as (_ & Fu & _).
  rewrite (proj1 (proj2 (proj2 (frame_maybePruneHistory _)))).
  destruct s1 as [px1 h1 q1 us1 sn1 cp1 cc1 sd1 sts1 since1 ini1].
  destruct addr as [a|]; [destruct (truthy _)|];
    open_state s; simpl in *; by subst.
Qed.

Lemma users_placePixelTx x y color addr now s :
  users (placePixelTx x y color addr now s) =
  users (match addr with
         | Some a => if truthy addr then incUserPixels a (upsertUser a now s) else s
         | None => s
         end).
Proof.
  unfold placePixelTx.
  rewrite (proj1 (proj2 (proj2 (frame_maybePruneHistory _)))).
  destruct addr as [a|]; [destruct (truthy _)|];
    match goal with
    | |- context [if cache_has ?k ?s0 then _ else _] => destruct (cache_has k s0)
    end; by open_state s.
Qed.

Lemma pixel_count_upsert a b n now s :
  pixel_count_of a (addUserPixels b n (upsertUser b now s)) =
  pixel_count_of a s + (if bool_decide (b = a) then n else 0).
Proof.
  unfold pixel_count_of. open_state s. db_unfold.
  case_bool_decide as E.
  - subst b. rewrite lookup_alter_eq.
    destruct (us !! a) as [u|] eqn:Eu; rewrite lookup_insert_eq; simpl; lia.
  - rewrite lookup_alter_ne by done.
    destruct (us !! b); rewrite lookup_insert_ne by done; lia.
Qed.

Lemma pixel_count_mutate a now m s s' :
  dbInitialized s = true -> mutate now m s = Ok s' ->
  pixel_count_of a s' = pixel_count_of a s + credit a m.
Proof.
  intros Hi Hm.
  destruct (dbInitialized_mutate now m s Hi) as (s2 & E & _ & ->).
  rewrite E in Hm. injection Hm as <-.
  destruct m as [x y color addr|[|d dots] addr|x y admin]; unfold credit.
  - unfold pixel_count_of at 1. rewrite users_placePixelTx.
    destruct addr as [b|]; [|unfold pixel_count_of; lia].
    destruct (truthy (Some b)); [|unfold pixel_count_of; cbn [andb]; lia].
    fold (pixel_count_of a (incUserPixels b (upsertUser b now s))).
    unfold incUserPixels. rewrite pixel_count_upsert. cbn [andb]. by case_bool_decide.
  - destruct addr; lia.
  - unfold pixel_count_of at 1. rewrite users_placeBatchTx.
    destruct addr as [b|]; [|unfold pixel_count_of; lia].
    destruct (truthy (Some b)); [|unfold pixel_count_of; cbn [andb]; lia].
    fold (pixel_count_of a (addUserPixels b (Z.of_nat (length (d :: dots))) (upsertUser b now s))).
    rewrite pixel_count_upsert. cbn [andb]. by case_bool_decide.
  - unfold pixel_count_of. rewrite eraseTx_shape. cbn [users]. lia.
Qed.

(** X4: the pixel count of an address in table [users] grows by one with
    each placement it signs and by the length of each batch it signs;
    erasures and other writers leave it alone. *)
Theorem pixel_count_credits a now ms s :
  dbInitialized s = true ->
  exists s' u s'',
    run ms s = Ok s' /\
    getUser a now s' = Ok (Some u, s'') /\
    u_pixel_count u = pixel_count_of a s + credits a ms /\
    pixel_count_of a s' = pixel_count_of a s + credits a ms.
Proof.
  revert s. induction ms as [|[t m] ms IH]; intros s Hi.
  - exists s. unfold getUser, ensureInitialized, pixel_count_of. rewrite Hi.
    open_state s. db_unfold.
    destruct (us !! a) as [u0|] eqn:Eu; rewrite lookup_insert_eq;
      eexists _, _; (split; [reflexivity|]); (split; [reflexivity|]);
      rewrite ?Eu; simpl; split; lia.
  - destruct (dbInitialized_mutate t m s Hi) as (s1 & E & Hi1 & _).
    destruct (IH s1 Hi1) as (s' & u & s'' & Hr & Hg & Hc & Hc').
    exists s', u, s''. simpl. rewrite E. split; [done|]. split; [done|].
    rewrite (pixel_count_mutate a t m s s1 Hi E) in Hc, Hc'. lia.
Qed.

Lemma pixel_count_credits_witness :
  exists s' u s'',
    run [(1, Place 0 0 "#ff0000" (Some "0xa"));
         (2, PlaceBatch [ {| d_x := 1; d_y := 1; d_color := "#00ff00" |};
                          {| d_x := 1; d_y := 1; d_color := "#0000ff" |} ] (Some "0xa"));
         (3, Erase 0 0 (Some "0xa"));
         (4, Place 5 5 "#ff0000" (Some "0xb"))] fresh = Ok s' /\
    getUser "0xa" 9 s' = Ok (Some u, s'') /\
    u_pixel_count u = pixel_count_of "0xa" fresh +
      credits "0xa" [(1, Place 0 0 "#ff0000" (Some "0xa"));
         (2, PlaceBatch [ {| d_x := 1; d_y := 1; d_color := "#00ff00" |};
                          {| d_x := 1; d_y := 1; d_color := "#0000ff" |} ] (Some "0xa"));
         (3, Erase 0 0 (Some "0xa"));
         (4, Place 5 5 "#ff0000" (Some "0xb"))] /\
    pixel_count_of "0xa" s' = pixel_count_of "0xa" fresh +
      credits "0xa" [(1, Place 0 0 "#ff0000" (Some "0xa"));
         (2, PlaceBatch [ {| d_x := 1; d_y := 1; d_color := "#00ff00" |};
                          {| d_x := 1; d_y := 1; d_color := "#0000ff" |} ] (Some "0xa"));
         (3, Erase 0 0 (Some "0xa"));
         (4, Place 5 5 "#ff0000" (Some "0xb"))].
Proof. apply (pixel_count_credits "0xa" 9 _ fresh). reflexivity. Defined.

End Users.

Section History.
Import Js Database Inv Ledger.


(** X5: the newest row of the log, as [getRecentHistory] and
    [getUserHistory] show it, is the last placement or erasure. *)
Theorem last_write_heads_history x y color a now s :
  reachable s ->
  (exists s',
     placePixel x y color (Some a) now s = Ok s' /\
     getRecentHistory 1 s' =
       Ok [ {| p_x := x; p_y := y; p_color := color;
               p_placed_by := Some a; p_placed_at := now |} ] /\
     getUserHistory a 1 s' =
       Ok [ {| t_x := x; t_y := y; t_color := color; t_placed_at := now |} ]) /\
  (exists s',
     erasePixel x y (Some a) now s = Ok s' /\
     getRecentHistory 1 s' =
       Ok [ {| p_x := x; p_y := y; p_color := "ERASED";
               p_placed_by := Some a; p_placed_at := now |} ] /\
     getUserHistory a 1 s' =
       Ok [ {| t_x := x; t_y := y; t_color := "ERASED"; t_placed_at := now |} ]).
Proof.
  intros Hr. destruct (reachable_sound s Hr) as [_ Hl Hi]. split.
  - destruct (dbInitialized_mutate now (Place x y color (Some a)) s Hi)
      as (s1 & E1 & Hi1 & ->).
    eexists. split; [exact E1|].
    unfold getRecentHistory, getUserHistory, ensureInitialized. rewrite Hi1.
    unfold stmt_getHistory, stmt_getUserHistory.
    destruct (placePixelTx_history x y color (Some a) now s Hl) as (_ & m & _ & -> & _).
    unfold entry. cbn [List.filter h_placed_by]. rewrite bool_decide_eq_true_2 by done.
    done.
  - destruct (dbInitialized_mutate now (Erase x y (Some a)) s Hi)
      as (s1 & E1 & Hi1 & ->).
    eexists. split; [exact E1|].
    unfold getRecentHistory, getUserHistory, ensureInitialized. rewrite Hi1.
    unfold stmt_getHistory, stmt_getUserHistory. rewrite eraseTx_shape.
    cbn [pixel_history List.filter h_placed_by]. rewrite bool_decide_eq_true_2 by done.
    done.
Qed.

Lemma last_write_heads_history_witness :
  (exists s',
     placePixel 1 2 "#ff0000" (Some "0xa"%string) 7 painted = Ok s' /\
     getRecentHistory 1 s' =
       Ok [ {| p_x := 1; p_y := 2; p_color := "#ff0000";
               p_placed_by := Some "0xa"%string; p_placed_at := 7 |} ] /\
     getUserHistory "0xa" 1 s' =
       Ok [ {| t_x := 1; t_y := 2; t_color := "#ff0000"; t_placed_at := 7 |} ]) /\
  (exists s',
     erasePixel 1 2 (Some "0xa"%string) 7 painted = Ok s' /\
     getRecentHistory 1 s' =
       Ok [ {| p_x := 1; p_y := 2; p_color := "ERASED";
               p_placed_by := Some "0xa"%string; p_placed_at := 7 |} ] /\
     getUserHistory "0xa" 1 s' =
       Ok [ {| t_x := 1; t_y := 2; t_color := "ERASED"; t_placed_at := 7 |} ]).
Proof. apply (last_write_heads_history 1 2 "#ff0000" "0xa" 7 painted). apply reachable_painted. Defined.



End History.

Section Snapshots.
Import Js Database Inv Ledger.

Lemma snapshots_bulkImportTx dots now s :
  canvas_snapshots (bulkImportTx dots now s) = canvas_snapshots s /\
  dbInitialized (bulkImportTx dots now s) = dbInitialized s.
Proof.
  unfold bulkImportTx.
  apply (foldl_invariant
           (fun s' => canvas_snapshots s' = canvas_snapshots s /\
                      dbInitialized s' = dbInitialized s)); [done|].
  intros a d [<- <-]. unfold bulkImport_step.
  destruct (cache_has _ _); by open_state a.
Qed.

(** X7: [clearCanvas] and [importCanvas] of the canvas service first add
    a snapshot of the cells they are about to overwrite, and keep the
    snapshots already taken. *)
Theorem snapshot_before_overwrite cfg now dots s :
  reachable s ->
  exists s1 s2 snap,
    CanvasService.clearCanvas cfg now s = Ok s1 /\
    CanvasService.importCanvas cfg dots now s = Ok s2 /\
    canvas_snapshots s1 = canvas_snapshots s ++ [snap] /\
    canvas_snapshots s2 = canvas_snapshots s ++ [snap] /\
    snap_timestamp snap = now /\
    list_to_set (triple <$> snap_pixels snap) = table_cells s.
Proof.
  intros Hr. destruct (reachable_sound s Hr) as [Hm _ Hi].
  pose proof (cells_agree s Hm) as Hc.
  unfold CanvasService.clearCanvas, CanvasService.importCanvas, saveSnapshot,
    clearCanvas, bulkImport, ensureInitialized.
  rewrite Hi.
  set (snap := {| snap_width := Config.canvas_width cfg;
                  snap_height := Config.canvas_height cfg;
                  snap_timestamp := now; snap_pixels := getAllPixels s |}).
  set (s0 := set_snapshots (fun l => l ++ [snap]) s).
  assert (dbInitialized s0 = true) as Hi0 by (subst s0; by open_state s).
  assert (canvas_snapshots s0 = canvas_snapshots s ++ [snap]) as Hs0
    by (subst s0; by open_state s).
  rewrite Hi0. eexists _, _, snap. split; [reflexivity|]. split; [reflexivity|].
  split; [|split; [|split; [done|exact Hc]]].
  - rewrite <- Hs0. by destruct s0.
  - rewrite <- Hs0, <- (proj1 (snapshots_bulkImportTx dots now s0)).
    by destruct (bulkImportTx dots now s0).
Qed.

Lemma snapshot_before_overwrite_witness :
  exists s1 s2 snap,
    CanvasService.clearCanvas Config.defaults 9 painted = Ok s1 /\
    CanvasService.importCanvas Config.defaults
      [ {| d_x := 0; d_y := 0; d_color := "#000000" |} ] 9 painted = Ok s2 /\
    canvas_snapshots s1 = canvas_snapshots painted ++ [snap] /\
    canvas_snapshots s2 = canvas_snapshots painted ++ [snap] /\
    snap_timestamp snap = 9 /\
    list_to_set (triple <$> snap_pixels snap) = table_cells painted.
Proof.
  apply (snapshot_before_overwrite Config.defaults 9
           [ {| d_x := 0; d_y := 0; d_color := "#000000" |} ] painted).
  apply reachable_painted.
Defined.

(** X8: the canvas that [getCanvas] sends carries as [pixelCount] the
    cache count, which is the length of its list of pixels whenever the
    database was opened without a backup that names a cell twice. *)
Theorem getCanvas_count cfg disk backup now ms :
  (forall dots, backup = Some dots -> NoDup (coord <$> dots)) ->
  exists s',
    run ms (initDatabase disk backup now) = Ok s' /\
    CanvasService.cv_pixelCount (CanvasService.getCanvas cfg s') =
      Z.of_nat (length (CanvasService.cv_pixels (CanvasService.getCanvas cfg s'))) /\
    CanvasService.cv_pixelCount (CanvasService.getCanvas cfg s') = getPixelCount s'.
Proof.
  intros Hb.
  destruct (run_coherent ms (initDatabase disk backup now)) as (s' & Hr & Hc & _).
  { by apply initDatabase_coherent_backup. }
  { apply initDatabase_initialized. }
  exists s'. split; [done|]. split; [|done].
  unfold CanvasService.getCanvas, CanvasService.getStatus, getPixelCount, getAllPixels.
  cbn [CanvasService.cv_pixelCount CanvasService.cv_pixels CanvasService.pixelCount].
  rewrite length_fmap, length_map_to_list. apply Hc.
Qed.

Lemma getCanvas_count_witness :
  exists s',
    run [(1, Place 0 0 "#ff0000" None)]
      (initDatabase empty_disk (Some [ {| d_x := 0; d_y := 0; d_color := "#000000" |} ]) 0)
      = Ok s' /\
    CanvasService.cv_pixelCount (CanvasService.getCanvas Config.defaults s') =
      Z.of_nat (length (CanvasService.cv_pixels (CanvasService.getCanvas Config.defaults s'))) /\
    CanvasService.cv_pixelCount (CanvasService.getCanvas Config.defaults s') = getPixelCount s'.
Proof.
  apply (getCanvas_count Config.defaults empty_disk
           (Some [ {| d_x := 0; d_y := 0; d_color := "#000000" |} ]) 0
           [(1, Place 0 0 "#ff0000" None)]).
  intros dots [= <-]. apply NoDup_singleton.
Defined.

End Snapshots.

Section Binary.
Import Js Database Inv Ledger.

Lemma binary_record_range p :
  p_x p < 0 \/ 65535 < p_x p \/ p_y p < 0 \/ 65535 < p_y p ->
  binary_record p = None.
Proof.
  intros H. unfold binary_record, writeUInt16LE.
  destruct (65535 <? p_x p) eqn:E1; [done|].
  destruct (p_x p <? 0) eqn:E2; [done|]. cbn [orb mbind option_bind].
  destruct (65535 <? p_y p) eqn:E3; [done|].
  destruct (p_y p <? 0) eqn:E4; [done|]. lia.
Qed.

(** X9: one cell placed outside the 16-bit range, as the WebSocket
    handlers allow, makes the binary export fail for the whole canvas. *)
Theorem binary_export_breaks x y color addr now s :
  dbInitialized s = true ->
  x < 0 \/ 65535 < x \/ y < 0 \/ 65535 < y ->
  exists s',
    placePixel x y color addr now s = Ok s' /\
    getCanvasBinary s' = None.
Proof.
  intros Hi Hx.
  destruct (dbInitialized_mutate now (Place x y color addr) s Hi) as (s1 & E1 & _ & ->).
  eexists. split; [exact E1|].
  unfold getCanvasBinary.
  set (p := {| p_x := x; p_y := y; p_color := color;
               p_placed_by := addr; p_placed_at := now |}).
  assert (p ∈ (map_to_list (cache_pixels (placePixelTx x y color addr now s))).*2) as Hp.
  { apply list_elem_of_fmap. exists (key x y, p). split; [done|].
    apply elem_of_map_to_list. rewrite cache_placePixelTx. apply lookup_insert_eq. }
  assert (mapM binary_record
            (map_to_list (cache_pixels (placePixelTx x y color addr now s))).*2 = None) as ->.
  { apply mapM_None, Exists_exists. exists p. split; [done|].
    by apply binary_record_range. }
  done.
Qed.

Lemma binary_export_breaks_witness :
  exists s',
    placePixel (-1) 5 "#ff0000" (Some "0xa") 10 fresh = Ok s' /\
    getCanvasBinary s' = None.
Proof.
  apply (binary_export_breaks (-1) 5 "#ff0000" (Some "0xa"%string) 10 fresh);
    [reflexivity|lia].
Defined.

End Binary.

(* ------------------------------------------------------------------ *)
(** ** The binary export *)

Section BinaryLength.
Import Js Database Inv Validation.

Lemma hex_digit_of_range c d : hex_digit_of c = Some d -> 0 <= d <= 15.
Proof.
  unfold hex_digit_of.
  repeat (case_match; [intros [= <-];
    repeat match goal with
           | H : (_ && _)%bool = true |- _ => apply andb_prop in H as [? ?]
           | H : (_ <=? _)%nat = true |- _ => apply Nat.leb_le in H
           end; lia|]).
  done.
Qed.

Lemma parseInt16_pair a b da db :
  hex_digit_of a = Some da -> hex_digit_of b = Some db ->
  parseInt16 (String a (String b EmptyString)) = Some (16 * da + db).
Proof.
  intros Ha Hb.
  assert (read_hex_digits None (String a (String b EmptyString)) = Some (16 * da + db)) as R.
  { cbn [read_hex_digits]. rewrite Ha. cbn [read_hex_digits]. rewrite Hb.
    cbn [read_hex_digits default from_option id]. f_equal; try lia. }
  destruct a as [[] [] [] [] [] [] [] []]; try discriminate Ha;
    try exact R.
  all: destruct b as [[] [] [] [] [] [] [] []]; try discriminate Hb; exact R.
Qed.

Lemma hexColorRegex_shape c :
  hexColorRegex c = true ->
  exists c1 c2 c3 c4 c5 c6,
    c = String "#" (String c1 (String c2 (String c3 (String c4 (String c5 (String c6 EmptyString)))))) /\
    Forall (fun a => is_Some (hex_digit_of a)) [c1; c2; c3; c4; c5; c6].
Proof.
  unfold hexColorRegex. destruct c as [|a r]; [done|].
  destruct (Ascii.eqb a "#") eqn:Ea.
  - apply Ascii.eqb_eq in Ea as ->. intros H. apply andb_prop in H as [Hl Hf].
    apply Nat.eqb_eq in Hl.
    destruct r as [|c1 [|c2 [|c3 [|c4 [|c5 [|c6 [|c7 r]]]]]]]; try discriminate Hl.
    exists c1, c2, c3, c4, c5, c6. split; [done|].
    cbn [list_ascii_of_string forallb] in Hf.
    repeat (apply andb_prop in Hf as [?H Hf]).
    unfold is_hex_digit in *.
    repeat constructor;
      match goal with |- is_Some (hex_digit_of ?c) => by destruct (hex_digit_of c) end.
  - intros H. exfalso.
    destruct a as [[] [] [] [] [] [] [] []]; try discriminate H; discriminate Ea.
Qed.

Lemma binary_record_length p :
  0 <= p_x p <= 65535 -> 0 <= p_y p <= 65535 -> hexColorRegex (p_color p) = true ->
  exists bytes, binary_record p = Some bytes /\ length bytes = 7%nat.
Proof.
  intros Hx Hy Hc. unfold binary_record, writeUInt16LE.
  destruct (hexColorRegex_shape _ Hc) as (c1 & c2 & c3 & c4 & c5 & c6 & -> & Hf).
  apply Forall_cons in Hf as [[d1 H1] Hf]. apply Forall_cons in Hf as [[d2 H2] Hf].
  apply Forall_cons in Hf as [[d3 H3] Hf]. apply Forall_cons in Hf as [[d4 H4] Hf].
  apply Forall_cons in Hf as [[d5 H5] Hf]. apply Forall_cons in Hf as [[d6 H6] _].
  assert ((65535 <? p_x p) = false) as -> by lia.
  assert ((p_x p <? 0) = false) as -> by lia.
  assert ((65535 <? p_y p) = false) as -> by lia.
  assert ((p_y p <? 0) = false) as -> by lia.
  cbn [orb mbind option_bind remove_first Ascii.eqb Bool.eqb slice substring Nat.sub].
  change (Ascii.eqb "#" "#") with true. cbv iota.
  cbn [slice substring Nat.sub].
  rewrite (parseInt16_pair c1 c2 d1 d2 H1 H2), (parseInt16_pair c3 c4 d3 d4 H3 H4),
    (parseInt16_pair c5 c6 d5 d6 H5 H6).
  unfold writeUInt8.
  repeat match goal with
         | H : hex_digit_of _ = Some _ |- _ => apply hex_digit_of_range in H
         end.
  repeat match goal with
         | |- context [(255 <? ?v) || (?v <? 0)] =>
             replace ((255 <? v) || (v <? 0)) with false by lia; cbn [mbind option_bind]
         end.
  by eexists.
Qed.

Lemma base64_length_aux n : forall bytes,
  (length bytes <= n)%nat ->
  Z.of_nat (String.length (base64 bytes)) = 4 * ((Z.of_nat (length bytes) + 2) / 3).
Proof.
  induction n as [n IH] using lt_wf_ind. intros bytes Hn.
  destruct bytes as [|a [|b [|c rest]]]; try done.
  cbn [base64 String.length length].
  rewrite !Nat2Z.inj_succ, (IH (length rest)); [|cbn [length] in Hn; lia|done].
  replace (Z.succ (Z.succ (Z.succ (Z.of_nat (length rest)))) + 2)
    with (Z.of_nat (length rest) + 2 + 1 * 3) by lia.
  rewrite Z.div_add by lia. lia.
Qed.

Lemma base64_length bytes :
  Z.of_nat (String.length (base64 bytes)) = 4 * ((Z.of_nat (length bytes) + 2) / 3).
Proof. by apply (base64_length_aux (length bytes)). Qed.

Lemma concat_length7 (records : list (list Z)) :
  Forall (fun r => length r = 7%nat) records ->
  length (concat records) = (7 * length records)%nat.
Proof.
  induction 1 as [|r records Hr _ IH]; [done|].
  cbn [concat length]. rewrite length_app, Hr, IH. lia.
Qed.

Lemma mapM_length7 (l : list Pixel) :
  Forall (fun p => exists bytes, binary_record p = Some bytes /\ length bytes = 7%nat) l ->
  exists records,
    mapM binary_record l = Some records /\
    Forall (fun r => length r = 7%nat) records /\ length records = length l.
Proof.
  induction 1 as [|p l (bytes & Hb & Hl) _ (records & IH & F & L)].
  - by exists [].
  - exists (bytes :: records). cbn [mapM]. rewrite Hb, IH. cbn.
    split; [done|]. split; [by constructor|]. by rewrite L.
Qed.

(** X10: when every cell lies in the 16-bit range and has a colour of the
    form #RRGGBB, the binary export is defined and holds seven bytes for
    each cell, in base 64. *)
Theorem binary_export_length s :
  (forall k p, cache_pixels s !! k = Some p ->
     0 <= p_x p <= 65535 /\ 0 <= p_y p <= 65535 /\ hexColorRegex (p_color p) = true) ->
  exists text,
    getCanvasBinary s = Some text /\
    Z.of_nat (String.length text) =
      4 * ((7 * Z.of_nat (size (cache_pixels s)) + 2) / 3).
Proof.
  intros H. unfold getCanvasBinary.
  assert (Forall (fun p => exists bytes, binary_record p = Some bytes /\ length bytes = 7%nat)
            (map_to_list (cache_pixels s)).*2) as F.
  { apply Forall_forall. intros p Hp.
    apply list_elem_of_fmap in Hp as ([k p'] & -> & Hp).
    apply elem_of_map_to_list in Hp. destruct (H k p' Hp) as (? & ? & ?).
    by apply binary_record_length. }
  assert (length (map_to_list (cache_pixels s)).*2 = size (cache_pixels s)) as <-
    by (by rewrite length_fmap, length_map_to_list).
  destruct (mapM_length7 _ F) as (records & -> & F7 & <-).
  eexists. split; [reflexivity|].
  rewrite base64_length, concat_length7 by done. f_equal. f_equal. lia.
Qed.

Lemma binary_export_length_witness :
  exists text,
    getCanvasBinary painted = Some text /\
    Z.of_nat (String.length text) =
      4 * ((7 * Z.of_nat (size (cache_pixels painted)) + 2) / 3).
Proof.
  apply (binary_export_length painted).
  intros k p Hp. apply elem_of_map_to_list in Hp. vm_compute in Hp.
  apply list_elem_of_singleton in Hp. injection Hp as _ ->. by vm_compute.
Defined.

End BinaryLength.

(* ------------------------------------------------------------------ *)
(** ** Validation and the HTTP routes *)

Section Decimal.
Import Js.

Lemma digit_of_pretty_N_char d :
  (d < 10)%N -> digit_of (pretty_N_char d) = Some (Z.of_N d).
Proof.
  intros H.
  assert (d = 0 \/ d = 1 \/ d = 2 \/ d = 3 \/ d = 4 \/ d = 5 \/ d = 6 \/ d = 7 \/
          d = 8 \/ d = 9)%N as Hd by lia.
  repeat destruct Hd as [->|Hd]; try reflexivity. by subst.
Qed.

Lemma read_digits_pretty_N_go x s :
  (0 < x)%N ->
  read_digits None (pretty_N_go x s) = read_digits (Some (Z.of_N x)) s.
Proof.
  revert s. induction (N.lt_wf_0 x) as [x _ IH]; intros s Hx.
  rewrite pretty_N_go_step by done.
  assert (x `mod` 10 < 10)%N as Hm by (apply N.mod_lt; lia).
  pose proof (N.div_mod x 10 ltac:(lia)) as Hdm.
  destruct (decide (x `div` 10 = 0)%N) as [E|E].
  - rewrite E, pretty_N_go_0. cbn [read_digits].
    rewrite (digit_of_pretty_N_char _ Hm). cbn [default from_option id].
    f_equal. f_equal. lia.
  - rewrite IH; [|apply N.div_lt; lia|lia]. cbn [read_digits].
    rewrite (digit_of_pretty_N_char _ Hm). cbn [default from_option id].
    f_equal. f_equal. lia.
Qed.

Lemma pretty_N_go_head x s :
  (0 < x)%N -> exists d rest, (d < 10)%N /\ pretty_N_go x s = String (pretty_N_char d) rest.
Proof.
  revert s. induction (N.lt_wf_0 x) as [x _ IH]; intros s Hx.
  rewrite pretty_N_go_step by done.
  destruct (decide (x `div` 10 = 0)%N) as [E|E].
  - rewrite E, pretty_N_go_0. eexists _, _. split; [|done]. apply N.mod_lt. lia.
  - apply IH; [apply N.div_lt; lia|by apply N.neq_0_lt_0].
Qed.

Lemma parseInt_digit_head d rest :
  (d < 10)%N ->
  parseInt (String (pretty_N_char d) rest) =
  read_digits None (String (pretty_N_char d) rest).
Proof.
  intros H.
  assert (d = 0 \/ d = 1 \/ d = 2 \/ d = 3 \/ d = 4 \/ d = 5 \/ d = 6 \/ d = 7 \/
          d = 8 \/ d = 9)%N as Hd by lia.
  repeat destruct Hd as [->|Hd]; try reflexivity. by subst.
Qed.

(** [parseInt] reads back the decimal text of an integer. *)
Lemma parseInt_pretty (z : Z) : parseInt (pretty z) = Some z.
Proof.
  destruct z as [|p|p]; [done|..]; unfold pretty, pretty_Z, pretty, pretty_positive,
    pretty, pretty_N; (destruct (decide (N.pos p = 0%N)); [done|]).
  - destruct (pretty_N_go_head (N.pos p) "") as (d & rest & Hd & E); [lia|].
    rewrite E, parseInt_digit_head by done. rewrite <- E.
    rewrite read_digits_pretty_N_go by lia. done.
  - change ("-" +:+ pretty_N_go (N.pos p) "") with (String "-" (pretty_N_go (N.pos p) "")).
    change (parseInt (String "-" (pretty_N_go (N.pos p) "")))
      with (Z.opp <$> read_digits None (pretty_N_go (N.pos p) "")).
    rewrite read_digits_pretty_N_go by lia. done.
Qed.

Lemma lower_ascii_idemp c : lower_ascii (lower_ascii c) = lower_ascii c.
Proof. by destruct c as [[] [] [] [] [] [] [] []]. Qed.

Lemma toLowerCase_idemp s : toLowerCase (toLowerCase s) = toLowerCase s.
Proof. induction s as [|c s IH]; [done|]. cbn. by rewrite lower_ascii_idemp, IH. Qed.

Lemma is_hex_digit_lower c :
  Validation.is_hex_digit (lower_ascii c) = Validation.is_hex_digit c.
Proof. by destruct c as [[] [] [] [] [] [] [] []]. Qed.

Lemma hexColorRegex_lower c :
  Validation.hexColorRegex (toLowerCase c) = Validation.hexColorRegex c.
Proof.
  destruct c as [|a r]; [done|].
  assert (forall r, String.length (toLowerCase r) = String.length r) as L.
  { intros r'. induction r' as [|? ? IH]; [done|]. cbn. by rewrite IH. }
  assert (forall r, forallb Validation.is_hex_digit (list_ascii_of_string (toLowerCase r)) =
                    forallb Validation.is_hex_digit (list_ascii_of_string r)) as F.
  { intros r'. induction r' as [|? ? IH]; [done|]. cbn. by rewrite is_hex_digit_lower, IH. }
  unfold Validation.hexColorRegex. cbn [toLowerCase].
  destruct a as [[] [] [] [] [] [] [] []]; try reflexivity.
  change (lower_ascii "#") with "#"%char. cbv iota. by rewrite L, F.
Qed.

End Decimal.

Section PixelValidation.
Import Js Database Validation Inv.

Lemma out_of_range_false cfg x y :
  out_of_range cfg x y = false <-> in_bounds cfg x y.
Proof.
  unfold out_of_range, in_bounds.
  rewrite !orb_false_iff, !Z.ltb_ge, !Z.leb_gt. lia.
Qed.

Lemma validatePixel_fits cfg body d :
  validatePixel cfg body = Next d -> Desk.fits cfg d.
Proof.
  unfold validatePixel.
  destruct (b_x body) as [x|]; [|done].
  destruct (b_y body) as [y|]; [|done].
  destruct (b_color body) as [color|]; [|done].
  destruct (truthy_value (Some color)); [|done]. cbn [negb].
  destruct (parseInt (toString x)) as [xNum|]; [|done].
  destruct (parseInt (toString y)) as [yNum|]; [|done].
  destruct (out_of_range cfg xNum yNum) eqn:Eo; [done|].
  destruct (hexColorRegex (toString color)); [|done]. cbn [negb].
  destruct color as [|b|n|c]; try done.
  case_bool_decide as Ep; [|done]. cbn [negb]. intros [= <-].
  split; [by apply out_of_range_false|done].
Qed.

(** X11: a body that [validatePixel] lets through has coordinates that
    read as a cell of the grid and a colour #RRGGBB whose lower-case form
    is in the palette; the request goes on with the parsed coordinates and
    that lower-case colour. *)
Theorem validatePixel_sound cfg body d :
  validatePixel cfg body = Next d ->
  in_bounds cfg (d_x d) (d_y d) /\
  d_color d ∈ Config.canvas_palette cfg /\
  exists x y c,
    b_x body = Some x /\ b_y body = Some y /\ b_color body = Some (VStr c) /\
    parseInt (toString x) = Some (d_x d) /\ parseInt (toString y) = Some (d_y d) /\
    hexColorRegex c = true /\ d_color d = toLowerCase c.
Proof.
  unfold validatePixel.
  destruct (b_x body) as [x|] eqn:Ex; [|done].
  destruct (b_y body) as [y|] eqn:Ey; [|done].
  destruct (b_color body) as [color|] eqn:Ec; [|done].
  destruct (truthy_value (Some color)); [|done]. cbn [negb].
  destruct (parseInt (toString x)) as [xNum|] eqn:Epx; [|done].
  destruct (parseInt (toString y)) as [yNum|] eqn:Epy; [|done].
  destruct (out_of_range cfg xNum yNum) eqn:Eo; [done|].
  destruct (hexColorRegex (toString color)) eqn:Eh; [|done]. cbn [negb].
  destruct color as [|b|n|c]; try done.
  case_bool_decide as Ep; [|done]. cbn [negb]. intros [= <-]. cbn.
  split; [by apply out_of_range_false|]. split; [done|].
  by exists x, y, c.
Qed.

Lemma validatePixel_sound_witness :
  in_bounds Config.defaults 12 7 /\
  "#ff7f00"%string ∈ Config.canvas_palette Config.defaults /\
  exists x y c,
    Some (VStr " 12px") = Some x /\ Some (VNum 7) = Some y /\
    Some (VStr "#FF7F00") = Some (VStr c) /\
    parseInt (toString x) = Some 12 /\ parseInt (toString y) = Some 7 /\
    hexColorRegex c = true /\ "#ff7f00"%string = toLowerCase c.
Proof.
  apply (validatePixel_sound Config.defaults
           {| b_x := Some (VStr " 12px"); b_y := Some (VNum 7);
              b_color := Some (VStr "#FF7F00") |}
           {| d_x := 12; d_y := 7; d_color := "#ff7f00" |}).
  by vm_compute.
Defined.

Lemma truthy_hex c : hexColorRegex c = true -> truthy (Some c) = true.
Proof. destruct c; cbn; [discriminate|done]. Qed.

(** X12: [validatePixel] accepts every request for a cell of the grid with
    a colour #RRGGBB that is in the palette once in lower case, and what it
    passes on is accepted again unchanged. *)
Theorem validatePixel_complete cfg x y c :
  in_bounds cfg x y -> hexColorRegex c = true ->
  toLowerCase c ∈ Config.canvas_palette cfg ->
  let d := {| d_x := x; d_y := y; d_color := toLowerCase c |} in
  validatePixel cfg {| b_x := Some (VNum x); b_y := Some (VNum y);
                       b_color := Some (VStr c) |} = Next d /\
  validatePixel cfg (normal_body d) = Next d.
Proof.
  intros Hb Hh Hp.
  assert (forall c', hexColorRegex c' = true -> toLowerCase c' = toLowerCase c ->
            validatePixel cfg {| b_x := Some (VNum x); b_y := Some (VNum y);
                                 b_color := Some (VStr c') |}
            = Next {| d_x := x; d_y := y; d_color := toLowerCase c |}) as G.
  { intros c' Hh' Hc'. unfold validatePixel.
    cbn [b_x b_y b_color truthy_value toString].
    rewrite (truthy_hex _ Hh'), !parseInt_pretty. cbn [negb].
    rewrite (proj2 (out_of_range_false cfg x y) Hb), Hh'. cbn [negb].
    rewrite Hc', bool_decide_eq_true_2 by done. done. }
  unfold normal_body. cbn [d_x d_y d_color]. split.
  - by apply G.
  - apply G; [by rewrite hexColorRegex_lower|apply toLowerCase_idemp].
Qed.

Lemma validatePixel_complete_witness :
  let d := {| d_x := 219; d_y := 149; d_color := toLowerCase "#FFFFFF" |} in
  validatePixel Config.defaults
    {| b_x := Some (VNum 219); b_y := Some (VNum 149);
       b_color := Some (VStr "#FFFFFF") |} = Next d /\
  validatePixel Config.defaults (normal_body d) = Next d.
Proof.
  apply (validatePixel_complete Config.defaults 219 149 "#FFFFFF");
    [by vm_compute|reflexivity|].
  vm_compute. repeat constructor.
Defined.

(** X13: [validateCanvasImport] lets a list through exactly when each of
    its elements has coordinates that read as a cell of the grid and a
    colour of the form #RRGGBB; the list goes on as it came: the palette is
    not consulted and nothing is normalised. *)
Theorem validateCanvasImport_accepts cfg pixels l :
  validateCanvasImport cfg pixels = Next l <->
  pixels = Some l /\
  Forall (fun p => exists x y color xNum yNum,
            b_x p = Some x /\ b_y p = Some y /\ b_color p = Some color /\
            truthy_value (Some color) = true /\
            parseInt (toString x) = Some xNum /\ parseInt (toString y) = Some yNum /\
            in_bounds cfg xNum yNum /\ hexColorRegex (toString color) = true) l.
Proof.
  assert (forall p, import_item cfg p = None <->
            exists x y color xNum yNum,
              b_x p = Some x /\ b_y p = Some y /\ b_color p = Some color /\
              truthy_value (Some color) = true /\
              parseInt (toString x) = Some xNum /\ parseInt (toString y) = Some yNum /\
              in_bounds cfg xNum yNum /\ hexColorRegex (toString color) = true) as I.
  { intros p. unfold import_item. split.
    - destruct (b_x p) as [x|] eqn:Ex; [|done].
      destruct (b_y p) as [y|] eqn:Ey; [|done].
      destruct (b_color p) as [color|] eqn:Ec; [|done].
      destruct (truthy_value (Some color)) eqn:Et; [|done]. cbn [negb].
      destruct (parseInt (toString x)) as [xNum|] eqn:Epx; [|done].
      destruct (parseInt (toString y)) as [yNum|] eqn:Epy; [|done].
      destruct (out_of_range cfg xNum yNum) eqn:Eo; [done|].
      destruct (hexColorRegex (toString color)) eqn:Eh; [|done]. intros _.
      exists x, y, color, xNum, yNum. do 6 (split; [done|]).
      split; [by apply out_of_range_false|done].
    - intros (x & y & color & xNum & yNum & -> & -> & -> & Et & -> & -> & Hb & Hh).
      rewrite Et, Hh, (proj2 (out_of_range_false cfg xNum yNum) Hb). done. }
  assert (forall l', import_loop cfg l' = None <->
            Forall (fun p => import_item cfg p = None) l') as L.
  { induction l' as [|p l' IH]; cbn [import_loop].
    - split; [constructor|done].
    - rewrite Forall_cons. destruct (import_item cfg p) as [e|].
      + split; [done|]. by intros [? _].
      + rewrite IH. split; [by split|by intros [_ ?]].  }
  unfold validateCanvasImport.
  destruct pixels as [l0|]; [|split; [done|by intros [? _]]].
  destruct (import_loop cfg l0) as [e|] eqn:E.
  - split; [done|]. intros [[= ->] F].
    assert (import_loop cfg l = None) as E'.
    { apply L. eapply Forall_impl; [exact F|]. intros p Hp. by apply I. }
    congruence.
  - apply L in E. split.
    + intros [= <-]. split; [done|]. eapply Forall_impl; [exact E|]. intros p Hp. by apply I.
    + by intros [[= ->] _].
Qed.

End PixelValidation.

Section HttpWrites.
Import Js Database Validation Inv Desk.
Variable config : Config.t.
Variable development : bool.
Variable jwt_verify : string -> Auth.Jwt.
Variable adminWallets : list string.

Lemma tidy_frame s s' : pixels s' = pixels s -> tidy config s -> tidy config s'.
Proof. unfold tidy. by intros ->. Qed.

Lemma tidy_insert s s' x y cell :
  pixels s' = <[(x, y) := cell]> (pixels s) ->
  in_bounds config x y -> c_color cell ∈ Config.canvas_palette config ->
  tidy config s -> tidy config s'.
Proof.
  intros E Hb Hc Ht x' y' c. rewrite E.
  destruct (decide ((x, y) = (x', y'))) as [[= <- <-]|Hne].
  - rewrite lookup_insert_eq. by intros [= <-].
  - rewrite lookup_insert_ne by done. apply Ht.
Qed.

Lemma tidy_placePixelTx d addr now s :
  fits config d -> tidy config s ->
  tidy config (placePixelTx (d_x d) (d_y d) (d_color d) addr now s).
Proof.
  intros [Hb Hc]. apply (tidy_insert s _ (d_x d) (d_y d)
    {| c_color := d_color d; c_placed_by := addr; c_placed_at := now |}); try done.
  destruct (placePixelTx_shape (d_x d) (d_y d) (d_color d) addr now s) as [us ->].
  by rewrite pixels_maybePruneHistory.
Qed.

Lemma tidy_eraseTx x y admin now s :
  tidy config s -> tidy config (eraseTx x y admin now s).
Proof.
  intros Ht x' y' c. rewrite eraseTx_shape. cbn [pixels].
  intros H. apply lookup_delete_Some in H as [_ H]. by apply Ht.
Qed.

Lemma tidy_placeBatch_loop addr now dots s n :
  Forall (fits config) dots -> tidy config s ->
  tidy config (foldl (placeBatch_step addr now) (s, n) dots).1.
Proof.
  intros F. revert s n. induction F as [|d dots [Hb Hc] _ IH]; intros s n Ht; [done|].
  cbn [foldl]. unfold placeBatch_step at 2.
  match goal with |- context [foldl _ (?a, ?b) dots] => apply (IH a b) end.
  apply (tidy_insert s _ (d_x d) (d_y d)
    {| c_color := d_color d; c_placed_by := addr; c_placed_at := now |}); try done.
  by open_state s.
Qed.

Lemma tidy_placeBatchTx dots addr now s :
  Forall (fits config) dots -> tidy config s -> tidy config (placeBatchTx dots addr now s).
Proof.
  intros F Ht.
  destruct (placeBatchTx_shape dots addr now s) as (s1 & n1 & us & E & ->).
  pose proof (tidy_placeBatch_loop addr now dots s 0 F Ht) as H1. rewrite E in H1.
  eapply tidy_frame; [|exact H1]. by rewrite pixels_maybePruneHistory.
Qed.

Lemma valid_pixels_fit pixels : Forall (fits config) (Routes.valid_pixels config pixels).
Proof.
  apply Forall_forall. intros d Hd. unfold Routes.valid_pixels in Hd.
  apply list_elem_of_omap in Hd as (q & Hq & Hd).
  apply list_elem_of_In, filter_In in Hq as [Hq Hp].
  apply filter_In in Hq as [_ Hi].
  apply bool_decide_eq_true in Hp.
  unfold Routes.to_dot in Hd. unfold Routes.inside in Hi.
  destruct (Routes.q_x q) as [x|]; [|done]. destruct (Routes.q_y q) as [y|]; [|done].
  injection Hd as <-. split; [|done]. cbn.
  apply out_of_range_false. by destruct (out_of_range config x y).
Qed.

Lemma length_omap_le {A B} (f : A -> option B) (l : list A) :
  (length (omap f l) <= length l)%nat.
Proof. induction l as [|a l IH]; [done|]. cbn. destruct (f a); cbn; lia. Qed.

Lemma valid_pixels_length pixels :
  (length (Routes.valid_pixels config pixels) <= length pixels)%nat.
Proof.
  unfold Routes.valid_pixels.
  etrans; [apply length_omap_le|].
  etrans; [apply List.filter_length_le|].
  etrans; [apply List.filter_length_le|].
  rewrite length_fmap. apply List.filter_length_le.
Qed.

Lemma tidy_serve now r s :
  tidy config s ->
  tidy config (Routes.db (serve config development jwt_verify adminWallets now r s)).
Proof.
  intros Ht. destruct r as [px py|authorization limited body|authorization pixels
                           |authorization px py]; cbn [serve].
  - unfold Routes.get_pixel.
    destruct (parseInt px); [|done]. destruct (parseInt py); [|done].
    by destruct (CanvasService.getPixel _ _ _).
  - unfold Routes.post_pixel.
    destruct (Auth.authenticateToken _ _) as [u|]; [|done].
    destruct (Auth.requireAuthorization _) as [u'|]; [|done].
    destruct limited; [done|].
    destruct (validatePixel config body) as [d|[e|m]] eqn:Ev; [|done|done].
    apply validatePixel_fits in Ev as [Hb Hc].
    unfold CanvasService.placePixel, placePixel, ensureInitialized.
    destruct (dbInitialized s); [|by destruct development].
    cbn [Routes.db]. by apply tidy_placePixelTx.
  - unfold Routes.post_batch.
    destruct (Auth.authenticateToken _ _) as [u|]; [|done].
    destruct (Auth.requireAuthorization _) as [u'|]; [|done].
    destruct pixels as [[|p l]|]; [done| |done].
    destruct (10 <? _); [done|].
    pose proof (valid_pixels_fit (p :: l)) as F.
    destruct (Routes.valid_pixels config (p :: l)) as [|d valid]; [done|].
    unfold CanvasService.placePixelsBatch, placePixelsBatch, ensureInitialized.
    destruct (dbInitialized s); [|by destruct development].
    cbn [Routes.db]. by apply tidy_placeBatchTx.
  - unfold Routes.delete_pixel.
    destruct (Auth.authenticateToken _ _) as [u|]; [|done].
    destruct (Auth.requireAdmin _ _) as [u'|]; [|done].
    destruct (parseInt px); [|done]. destruct (parseInt py); [|done].
    unfold erasePixel, ensureInitialized.
    destruct (dbInitialized s); [|by destruct development].
    cbn [Routes.db]. by apply tidy_eraseTx.
Qed.

(** X14: whatever requests the pixel routes serve, table [pixels] keeps
    every row within the grid and with a colour of the palette. *)
Theorem http_writes_stay_tidy rs s :
  tidy config s ->
  tidy config (serve_all config development jwt_verify adminWallets rs s).
Proof.
  intros Ht. unfold serve_all.
  apply (foldl_invariant (tidy config)); [done|].
  intros a [now r] Ha. by apply tidy_serve.
Qed.

Lemma validatePixel_400 body e :
  validatePixel config body = Throws (Operational e) -> statusCode e = 400.
Proof.
  unfold validatePixel.
  destruct (b_x body); [|by intros [= <-]].
  destruct (b_y body); [|by intros [= <-]].
  destruct (b_color body) as [color|]; [|by intros [= <-]].
  destruct (truthy_value _); [|by intros [= <-]]. cbn [negb].
  destruct (parseInt _); [|by intros [= <-]].
  destruct (parseInt _); [|by intros [= <-]].
  destruct (out_of_range _ _ _); [by intros [= <-]|].
  destruct (hexColorRegex _); [|by intros [= <-]]. cbn [negb].
  destruct color; try done.
  case_bool_decide; [done|]. by intros [= <-].
Qed.

Lemma authenticateToken_Next authorization u :
  Auth.authenticateToken jwt_verify authorization = Auth.Next u ->
  exists token, Auth.bearer authorization = Some token /\
                jwt_verify token = Auth.Decoded u.
Proof.
  unfold Auth.authenticateToken.
  destruct (Auth.bearer authorization) as [token|]; [|done].
  destruct (truthy (Some token)); [|done]. cbn [negb].
  destruct (jwt_verify token) eqn:E; try done. intros [= <-]. by exists token.
Qed.

Lemma authenticateToken_status authorization r :
  Auth.authenticateToken jwt_verify authorization = Auth.Respond r ->
  Auth.status r = 401 \/ Auth.status r = 403.
Proof.
  unfold Auth.authenticateToken.
  destruct (Auth.bearer authorization) as [token|]; [|intros [= <-]; by left].
  destruct (truthy (Some token)); [|intros [= <-]; by left]. cbn [negb].
  destruct (jwt_verify token); [done|intros [= <-]; by left|intros [= <-]; by right].
Qed.

Lemma requireAuthorization_cases u :
  (WebSocketServer.isAuthorized u = true /\
   Auth.requireAuthorization (Some u) = Auth.Next u) \/
  (exists r, Auth.requireAuthorization (Some u) = Auth.Respond r /\ Auth.status r = 403).
Proof.
  unfold Auth.requireAuthorization.
  destruct (WebSocketServer.isAuthorized u); [by left|right; by eexists].
Qed.

Lemma requireAdmin_cases u :
  (exists u', Auth.requireAdmin adminWallets (Some u) = Auth.Next u' /\
     WebSocketServer.address u' = WebSocketServer.address u /\
     WebSocketServer.isAdmin u' = true /\
     (WebSocketServer.isAdmin u = true \/
      toLowerCase (WebSocketServer.address u) ∈ adminWallets)) \/
  (exists r, Auth.requireAdmin adminWallets (Some u) = Auth.Respond r /\
     Auth.status r = 403 /\ WebSocketServer.isAdmin u = false /\
     toLowerCase (WebSocketServer.address u) ∉ adminWallets).
Proof.
  unfold Auth.requireAdmin.
  destruct (WebSocketServer.isAdmin u) eqn:Ea; cbn [orb negb].
  - left. eexists. repeat split; by left.
  - case_bool_decide as Ew; cbn [negb].
    + left. eexists. repeat split; by right.
    + right. by eexists.
Qed.

(** X15: [POST /pixels] answers 201 only to a verified token of an
    authorised user, within the rate limit and with a valid body; it then
    places that one cell under the user's address.  Every other answer
    leaves the database as it was and broadcasts nothing. *)
Theorem post_pixel_gate authorization limited body now s :
  let r := Routes.post_pixel config development jwt_verify authorization limited body now s in
  (Routes.status (Routes.response r) = 201 ->
   exists token u d,
     Auth.bearer authorization = Some token /\ jwt_verify token = Auth.Decoded u /\
     WebSocketServer.isAuthorized u = true /\ limited = false /\
     validatePixel config body = Next d /\ fits config d /\
     Routes.db r =
       placePixelTx (d_x d) (d_y d) (d_color d) (Some (WebSocketServer.address u)) now s /\
     Routes.broadcasts r =
       [Routes.BPixel (d_x d) (d_y d) (Some (d_color d)) (WebSocketServer.address u) false]) /\
  (Routes.status (Routes.response r) <> 201 ->
   Routes.db r = s /\ Routes.broadcasts r = []).
Proof.
  cbv zeta. unfold Routes.post_pixel.
  destruct (Auth.authenticateToken jwt_verify authorization) as [u|r0] eqn:Ea.
  2:{ destruct (authenticateToken_status _ _ Ea) as [E|E];
        (split; [cbn; rewrite E; lia|done]). }
  apply authenticateToken_Next in Ea as (token & Hb & Hj).
  destruct (requireAuthorization_cases u) as [[Hz ->]|(r1 & -> & E)].
  2:{ split; [cbn; rewrite E; lia|done]. }
  destruct limited; [split; [cbn; lia|done]|].
  destruct (validatePixel config body) as [d|[e|m]] eqn:Ev.
  3:{ split; [cbn; lia|done]. }
  2:{ split; [cbn; rewrite (validatePixel_400 _ _ Ev); lia|done]. }
  unfold CanvasService.placePixel, placePixel, ensureInitialized.
  destruct (dbInitialized s); [|split; [cbn; lia|done]].
  split; [|done]. intros _. exists token, u, d.
  pose proof (validatePixel_fits _ _ _ Ev) as [Hin Hpal].
  repeat split; try done; apply Hin.
Qed.

(** X16: [POST /pixels/batch] answers 201 only to a verified token of an
    authorised user; it then places between one and ten cells, each within
    the grid and with a colour of the palette.  Every other answer leaves
    the database as it was and broadcasts nothing. *)
Theorem post_batch_gate authorization pixels now s :
  let r := Routes.post_batch config development jwt_verify authorization pixels now s in
  (Routes.status (Routes.response r) = 201 ->
   exists token u valid,
     Auth.bearer authorization = Some token /\ jwt_verify token = Auth.Decoded u /\
     WebSocketServer.isAuthorized u = true /\
     (1 <= length valid <= 10)%nat /\ Forall (fits config) valid /\
     Routes.db r = placeBatchTx valid (Some (WebSocketServer.address u)) now s /\
     Routes.broadcasts r = [Routes.BBatch valid (WebSocketServer.address u)]) /\
  (Routes.status (Routes.response r) <> 201 ->
   Routes.db r = s /\ Routes.broadcasts r = []).
Proof.
  cbv zeta. unfold Routes.post_batch.
  destruct (Auth.authenticateToken jwt_verify authorization) as [u|r0] eqn:Ea.
  2:{ destruct (authenticateToken_status _ _ Ea) as [E|E];
        (split; [cbn; rewrite E; lia|done]). }
  apply authenticateToken_Next in Ea as (token & Hb & Hj).
  destruct (requireAuthorization_cases u) as [[Hz ->]|(r1 & -> & E)].
  2:{ split; [cbn; rewrite E; lia|done]. }
  destruct pixels as [[|p l]|]; [split; [cbn; lia|done]| |split; [cbn; lia|done]].
  destruct (10 <? Z.of_nat (length (p :: l))) eqn:E10; [split; [cbn; lia|done]|].
  apply Z.ltb_ge in E10.
  pose proof (valid_pixels_fit (p :: l)) as F.
  pose proof (valid_pixels_length (p :: l)) as L.
  destruct (Routes.valid_pixels config (p :: l)) as [|d valid]; [split; [cbn; lia|done]|].
  unfold CanvasService.placePixelsBatch, placePixelsBatch, ensureInitialized.
  destruct (dbInitialized s); [|split; [cbn; lia|done]].
  split; [|done]. intros _. exists token, u, (d :: valid).
  repeat split; try done; cbn [length] in *; lia.
Qed.

(** X17: [DELETE /pixels/:x/:y] answers 200 only to a verified token whose
    user is an administrator by the token or by the list of admin wallets;
    it then erases that one cell.  Every other answer leaves the database
    as it was and broadcasts nothing. *)
Theorem delete_pixel_gate authorization px py now s :
  let r := Routes.delete_pixel development jwt_verify adminWallets authorization px py now s in
  (Routes.status (Routes.response r) = 200 ->
   exists token u x y,
     Auth.bearer authorization = Some token /\ jwt_verify token = Auth.Decoded u /\
     (WebSocketServer.isAdmin u = true \/
      toLowerCase (WebSocketServer.address u) ∈ adminWallets) /\
     parseInt px = Some x /\ parseInt py = Some y /\
     Routes.db r = eraseTx x y (Some (WebSocketServer.address u)) now s /\
     Routes.broadcasts r = [Routes.BPixel x y None (WebSocketServer.address u) true]) /\
  (Routes.status (Routes.response r) <> 200 ->
   Routes.db r = s /\ Routes.broadcasts r = []).
Proof.
  cbv zeta. unfold Routes.delete_pixel.
  destruct (Auth.authenticateToken jwt_verify authorization) as [u|r0] eqn:Ea.
  2:{ destruct (authenticateToken_status _ _ Ea) as [E|E];
        (split; [cbn; rewrite E; lia|done]). }
  apply authenticateToken_Next in Ea as (token & Hb & Hj).
  destruct (requireAdmin_cases u) as [(u' & -> & Hu & _ & Had)|(r1 & -> & E & _)].
  2:{ split; [cbn; rewrite E; lia|done]. }
  destruct (parseInt px) as [x|]; [|split; [cbn; lia|done]].
  destruct (parseInt py) as [y|]; [|split; [cbn; lia|done]].
  unfold erasePixel, ensureInitialized.
  destruct (dbInitialized s); [|split; [cbn; lia|done]].
  split; [|done]. intros _. exists token, u, x, y. rewrite Hu. by repeat split.
Qed.

End HttpWrites.

Lemma http_writes_stay_tidy_witness :
  Desk.tidy Config.defaults
    (Desk.serve_all Config.defaults false Desk.desk_jwt []
       [(1, Desk.PostPixel (Some "Bearer good"%string) false
              {| Validation.b_x := Some (Validation.VNum 3);
                 Validation.b_y := Some (Validation.VNum 4);
                 Validation.b_color := Some (Validation.VStr "#FF0000") |});
        (2, Desk.PostPixel (Some "Bearer good"%string) false
              {| Validation.b_x := Some (Validation.VNum (-1));
                 Validation.b_y := Some (Validation.VNum 5);
                 Validation.b_color := Some (Validation.VStr "#ff0000") |})]
       Inv.fresh).
Proof.
  apply (http_writes_stay_tidy Config.defaults false Desk.desk_jwt []).
  intros x y c H. by vm_compute in H.
Defined.

Section HttpWitnesses.
Import Js Database Validation Inv Desk.

Lemma post_pixel_gate_witness :
  exists token u d,
    Auth.bearer (Some "Bearer good"%string) = Some token /\
    desk_jwt token = Auth.Decoded u /\
    WebSocketServer.isAuthorized u = true /\ false = false /\
    validatePixel Config.defaults
      {| b_x := Some (VNum 3); b_y := Some (VNum 4); b_color := Some (VStr "#FF0000") |}
      = Next d /\ fits Config.defaults d /\
    Routes.db (Routes.post_pixel Config.defaults false desk_jwt
                 (Some "Bearer good"%string) false
                 {| b_x := Some (VNum 3); b_y := Some (VNum 4);
                    b_color := Some (VStr "#FF0000") |} 7 fresh) =
      placePixelTx (d_x d) (d_y d) (d_color d) (Some (WebSocketServer.address u)) 7 fresh /\
    Routes.broadcasts (Routes.post_pixel Config.defaults false desk_jwt
                 (Some "Bearer good"%string) false
                 {| b_x := Some (VNum 3); b_y := Some (VNum 4);
                    b_color := Some (VStr "#FF0000") |} 7 fresh) =
      [Routes.BPixel (d_x d) (d_y d) (Some (d_color d)) (WebSocketServer.address u) false].
Proof.
  apply (proj1 (post_pixel_gate Config.defaults false desk_jwt
                  (Some "Bearer good"%string) false
                  {| b_x := Some (VNum 3); b_y := Some (VNum 4);
                     b_color := Some (VStr "#FF0000") |} 7 fresh)).
  reflexivity.
Defined.

Lemma post_batch_gate_witness :
  exists token u valid,
    Auth.bearer (Some "Bearer good"%string) = Some token /\
    desk_jwt token = Auth.Decoded u /\
    WebSocketServer.isAuthorized u = true /\
    (1 <= length valid <= 10)%nat /\ Forall (fits Config.defaults) valid /\
    Routes.db (Routes.post_batch Config.defaults false desk_jwt
                 (Some "Bearer good"%string)
                 (Some [ {| b_x := Some (VNum 3); b_y := Some (VNum 4);
                            b_color := Some (VStr "#FF0000") |};
                         {| b_x := Some (VNum 300); b_y := Some (VNum 4);
                            b_color := Some (VStr "#ff0000") |} ]) 7 fresh) =
      placeBatchTx valid (Some (WebSocketServer.address u)) 7 fresh /\
    Routes.broadcasts (Routes.post_batch Config.defaults false desk_jwt
                 (Some "Bearer good"%string)
                 (Some [ {| b_x := Some (VNum 3); b_y := Some (VNum 4);
                            b_color := Some (VStr "#FF0000") |};
                         {| b_x := Some (VNum 300); b_y := Some (VNum 4);
                            b_color := Some (VStr "#ff0000") |} ]) 7 fresh) =
      [Routes.BBatch valid (WebSocketServer.address u)].
Proof.
  apply (proj1 (post_batch_gate Config.defaults false desk_jwt
                  (Some "Bearer good"%string)
                  (Some [ {| b_x := Some (VNum 3); b_y := Some (VNum 4);
                             b_color := Some (VStr "#FF0000") |};
                          {| b_x := Some (VNum 300); b_y := Some (VNum 4);
                             b_color := Some (VStr "#ff0000") |} ]) 7 fresh)).
  reflexivity.
Defined.

Lemma delete_pixel_gate_witness :
  exists token u x y,
    Auth.bearer (Some "Bearer good"%string) = Some token /\
    desk_jwt token = Auth.Decoded u /\
    (WebSocketServer.isAdmin u = true \/
     toLowerCase (WebSocketServer.address u) ∈ ["0xa"%string]) /\
    parseInt "3" = Some x /\ parseInt "4" = Some y /\
    Routes.db (Routes.delete_pixel false desk_jwt ["0xa"%string]
                 (Some "Bearer good"%string) "3" "4" 7 painted) =
      eraseTx x y (Some (WebSocketServer.address u)) 7 painted /\
    Routes.broadcasts (Routes.delete_pixel false desk_jwt ["0xa"%string]
                 (Some "Bearer good"%string) "3" "4" 7 painted) =
      [Routes.BPixel x y None (WebSocketServer.address u) true].
Proof.
  apply (proj1 (delete_pixel_gate false desk_jwt ["0xa"%string]
                  (Some "Bearer good"%string) "3" "4" 7 painted)).
  reflexivity.
Defined.

End HttpWitnesses.

Section Bootstrap.
Import Js Database Validation Inv Desk.

(** X18: [POST /bootstrap] imports only into a canvas that counts no
    pixel: with one or more it answers 403 and leaves the cells, the cache
    and the snapshots alone; with none it saves a snapshot and imports the
    list it was sent. *)
Theorem bootstrap_only_when_empty config development body now s :
  reachable s ->
  let r := Routes.bootstrap config development body now s in
  (0 < getPixelCount s ->
   Routes.status (Routes.response r) = 403 /\
   pixels (Routes.db r) = pixels s /\
   cache_pixels (Routes.db r) = cache_pixels s /\
   canvas_snapshots (Routes.db r) = canvas_snapshots s) /\
  (getPixelCount s = 0 -> forall dots, body = Some dots ->
   Routes.status (Routes.response r) = 200 /\
   exists stats s1,
     getStats now s = Ok (stats, s1) /\
     CanvasService.importCanvas config dots now s1 = Ok (Routes.db r)).
Proof.
  intros Hr. cbv zeta. unfold Routes.bootstrap.
  destruct (getStats_reachable now s Hr)
    as (d & s1 & -> & Hp & _ & E1 & E2 & _ & E3 & _ & Hi1).
  rewrite Hp. split.
  - intros H0. apply Z.ltb_lt in H0. rewrite H0. by cbn.
  - intros H0 dots ->. rewrite H0. cbn [Z.ltb Z.compare].
    unfold CanvasService.importCanvas, saveSnapshot, bulkImport, ensureInitialized.
    rewrite Hi1.
    match goal with
    | |- context [dbInitialized (set_snapshots ?f s1)] =>
        assert (dbInitialized (set_snapshots f s1) = true) as ->
          by (destruct s1; exact Hi1)
    end.
    split; [done|]. exists d, s1. split; [done|].
    rewrite Hi1.
    match goal with
    | |- context [dbInitialized (set_snapshots ?f s1)] =>
        assert (dbInitialized (set_snapshots f s1) = true) as ->
          by (destruct s1; exact Hi1)
    end.
    reflexivity.
Qed.

Lemma bootstrap_only_when_empty_witness :
  (0 < getPixelCount painted ->
   Routes.status (Routes.response (Routes.bootstrap Config.defaults false
      (Some [ {| d_x := 0; d_y := 0; d_color := "#000000" |} ]) 9 painted)) = 403 /\
   pixels (Routes.db (Routes.bootstrap Config.defaults false
      (Some [ {| d_x := 0; d_y := 0; d_color := "#000000" |} ]) 9 painted)) = pixels painted /\
   cache_pixels (Routes.db (Routes.bootstrap Config.defaults false
      (Some [ {| d_x := 0; d_y := 0; d_color := "#000000" |} ]) 9 painted))
     = cache_pixels painted /\
   canvas_snapshots (Routes.db (Routes.bootstrap Config.defaults false
      (Some [ {| d_x := 0; d_y := 0; d_color := "#000000" |} ]) 9 painted))
     = canvas_snapshots painted) /\
  (getPixelCount painted = 0 -> forall dots,
   Some [ {| d_x := 0; d_y := 0; d_color := "#000000" |} ] = Some dots ->
   Routes.status (Routes.response (Routes.bootstrap Config.defaults false
      (Some [ {| d_x := 0; d_y := 0; d_color := "#000000" |} ]) 9 painted)) = 200 /\
   exists stats s1,
     getStats 9 painted = Ok (stats, s1) /\
     CanvasService.importCanvas Config.defaults dots 9 s1 =
       Ok (Routes.db (Routes.bootstrap Config.defaults false
             (Some [ {| d_x := 0; d_y := 0; d_color := "#000000" |} ]) 9 painted))).
Proof.
  apply (bootstrap_only_when_empty Config.defaults false
           (Some [ {| d_x := 0; d_y := 0; d_color := "#000000" |} ]) 9 painted).
  apply reachable_painted.
Defined.

End Bootstrap.

Section HttpReadBack.
Import Js Database Validation Inv Desk.

(** X19: after [POST /pixels] has answered 201, [GET /pixels/:x/:y] for the
    cell of the request shows it with the colour in lower case, the
    address of the token and the instant of the write. *)
Theorem get_after_post config development jwt_verify authorization limited body now s :
  let r := Routes.post_pixel config development jwt_verify authorization limited body now s in
  Routes.status (Routes.response r) = 201 ->
  exists d u,
    validatePixel config body = Next d /\
    Auth.authenticateToken jwt_verify authorization = Auth.Next u /\
    Routes.response (Routes.get_pixel (pretty (d_x d)) (pretty (d_y d)) (Routes.db r)) =
      {| Routes.status := 200;
         Routes.body := Routes.Found
           {| p_x := d_x d; p_y := d_y d; p_color := d_color d;
              p_placed_by := Some (WebSocketServer.address u); p_placed_at := now |} |}.
Proof.
  cbv zeta. unfold Routes.post_pixel.
  destruct (Auth.authenticateToken jwt_verify authorization) as [u|r0] eqn:Ea.
  2:{ destruct (authenticateToken_status _ _ _ Ea) as [E|E]; cbn; rewrite E; lia. }
  destruct (requireAuthorization_cases u) as [[Hz ->]|(r1 & -> & E)].
  2:{ cbn. rewrite E. lia. }
  destruct limited; [cbn; lia|].
  destruct (validatePixel config body) as [d|[e|m]] eqn:Ev.
  3:{ cbn; lia. }
  2:{ cbn. rewrite (validatePixel_400 _ _ _ Ev). lia. }
  unfold CanvasService.placePixel, placePixel, ensureInitialized.
  destruct (dbInitialized s); [|cbn; lia].
  intros _. exists d, u. split; [done|]. split; [done|].
  cbn [Routes.db]. unfold Routes.get_pixel. rewrite !parseInt_pretty.
  unfold CanvasService.getPixel, getPixel. rewrite cache_placePixelTx, lookup_insert_eq.
  done.
Qed.

Lemma get_after_post_witness :
  exists d u,
    validatePixel Config.defaults
      {| b_x := Some (VStr "3"); b_y := Some (VNum 4); b_color := Some (VStr "#FF0000") |}
      = Next d /\
    Auth.authenticateToken desk_jwt (Some "Bearer good"%string) = Auth.Next u /\
    Routes.response
      (Routes.get_pixel (pretty (d_x d)) (pretty (d_y d))
         (Routes.db (Routes.post_pixel Config.defaults false desk_jwt
                       (Some "Bearer good"%string) false
                       {| b_x := Some (VStr "3"); b_y := Some (VNum 4);
                          b_color := Some (VStr "#FF0000") |} 7 fresh))) =
      {| Routes.status := 200;
         Routes.body := Routes.Found
           {| p_x := d_x d; p_y := d_y d; p_color := d_color d;
              p_placed_by := Some (WebSocketServer.address u); p_placed_at := 7 |} |}.
Proof.
  apply (get_after_post Config.defaults false desk_jwt (Some "Bearer good"%string) false
           {| b_x := Some (VStr "3"); b_y := Some (VNum 4);
              b_color := Some (VStr "#FF0000") |} 7 fresh).
  reflexivity.
Defined.

End HttpReadBack.

(* ------------------------------------------------------------------ *)
(** ** Connections and the replay guard *)

Section SocketGate.
Import Js WebSocketServer.

Lemma find_socket_id id s c : find_socket id s = Some c -> ws_id c = id.
Proof.
  unfold find_socket. destruct (wss s) as [clients|]; [|done]. cbn.
  intros H. apply find_some in H as [_ H]. by apply bool_decide_eq_true in H.
Qed.

Lemma send_only c type data :
  Forall (fun e => exists type data, e = Send (ws_id c) type data) (send c type data).
Proof.
  unfold send. destruct (readyState c); repeat constructor. by eexists _, _.
Qed.

Lemma touch_frame now c :
  ws_id (touch now c) = ws_id c /\ user (touch now c) = user c /\
  readyState (touch now c) = readyState c.
Proof. by destruct c. Qed.

(** X20: unless the server runs in open mode, a message from a connection
    whose token is missing or does not authorise it changes nothing in the
    database, and all it causes is an answer to that connection. *)
Theorem ws_write_needs_authorisation config id raw now s db c :
  Config.openMode config = false ->
  find_socket id s = Some c ->
  match user c with Some u => isAuthorized u = false | None => True end ->
  let r := on_message config id raw now (s, db) in
  r.1.2 = db /\
  Forall (fun e => exists type data, e = Send id type data) r.2.
Proof.
  intros Ho Hf Hu. cbv zeta. unfold on_message.
  destruct raw as [m|]; [|by split]. rewrite Hf.
  destruct (listening c); [|by split].
  pose proof (find_socket_id _ _ _ Hf) as Hid.
  destruct (touch_frame now c) as (Ti & Tu & Tr).
  cbn [socket_on_message].
  assert (authorised config (touch now c) = false) as Ha.
  { unfold authorised. rewrite Ho, Tu. destruct (user c) as [u|]; [|done]. by rewrite Hu. }
  pose proof (fun type data => send_only (touch now c) type data) as Hs.
  rewrite Ti, Hid in Hs.
  destruct m as [ts|data|pixels|type]; cbn [handleMessage].
  - split; [done|apply Hs].
  - unfold handlePixel. destruct data as [[[x|] [y|] color]|]; try (split; [done|apply Hs]).
    rewrite Ha. cbn [negb]. split; [done|apply Hs].
  - unfold handleBatch. destruct pixels as [|p pixels]; [split; [done|apply Hs]|].
    rewrite Ha. cbn [negb]. split; [done|apply Hs].
  - by split.
Qed.

Lemma ws_write_needs_authorisation_witness :
  (on_message Config.defaults 7
     (Some (InPixel (Some {| m_x := Some 1; m_y := Some 1; m_color := Some "#ff0000"%string |})))
     10 (update_socket 7
           (set_user {| address := "0xb"; chainId := 1; isAuthorized := false;
                        isAdmin := true |}) Wire.hall, Inv.fresh)).1.2 = Inv.fresh /\
  Forall (fun e => exists type data, e = Send 7 type data)
    (on_message Config.defaults 7
       (Some (InPixel (Some {| m_x := Some 1; m_y := Some 1; m_color := Some "#ff0000"%string |})))
       10 (update_socket 7
             (set_user {| address := "0xb"; chainId := 1; isAuthorized := false;
                          isAdmin := true |}) Wire.hall, Inv.fresh)).2.
Proof.
  eapply (ws_write_needs_authorisation Config.defaults 7 _ 10 _ Inv.fresh);
    [reflexivity|reflexivity|reflexivity].
Defined.

(** X21: a ['pixel'] message without a colour erases the cell only when the
    token of the connection says that its user is an administrator; from
    any other connection it changes nothing in the database, in open mode
    too, and all it causes is an answer to that connection. *)
Theorem ws_erase_needs_admin config id x y color now s db c :
  find_socket id s = Some c ->
  match user c with Some u => isAdmin u | None => false end = false ->
  truthy color = false ->
  let r := on_message config id
             (Some (InPixel (Some {| m_x := x; m_y := y; m_color := color |})))
             now (s, db) in
  r.1.2 = db /\
  Forall (fun e => exists type data, e = Send id type data) r.2.
Proof.
  intros Hf Hu Hc. cbv zeta. unfold on_message. rewrite Hf.
  destruct (listening c); [|by split].
  pose proof (find_socket_id _ _ _ Hf) as Hid.
  destruct (touch_frame now c) as (Ti & Tu & Tr).
  cbn [socket_on_message handleMessage].
  pose proof (fun type data => send_only (touch now c) type data) as Hs.
  rewrite Ti, Hid in Hs.
  unfold handlePixel. destruct x as [x|]; [|split; [done|apply Hs]].
  destruct y as [y|]; [|split; [done|apply Hs]].
  destruct (authorised config (touch now c)); cbn [negb]; [|split; [done|apply Hs]].
  rewrite Hc, Tu, Hu. cbn [negb]. split; [done|apply Hs].
Qed.

Lemma ws_erase_needs_admin_witness :
  (on_message Config.defaults 7
     (Some (InPixel (Some {| m_x := Some 1; m_y := Some 2; m_color := None |})))
     10 (Wire.hall, Inv.painted)).1.2 = Inv.painted /\
  Forall (fun e => exists type data, e = Send 7 type data)
    (on_message Config.defaults 7
       (Some (InPixel (Some {| m_x := Some 1; m_y := Some 2; m_color := None |})))
       10 (Wire.hall, Inv.painted)).2.
Proof.
  eapply (ws_erase_needs_admin Config.defaults 7 (Some 1) (Some 2) None 10 Wire.hall Inv.painted);
    reflexivity.
Defined.

End SocketGate.

Section Caps.
Import Js WebSocketServer Floor.
Variables (MAX_PER_IP MAX_TOTAL : Z).
Variable jwt_verify : string -> option User.
Variable config : Config.t.
Variable db : Database.State.

Lemma filter_listening_fmap (g : Socket -> Socket) (l : list Socket) :
  (forall c, listening (g c) = listening c) ->
  length (List.filter listening (g <$> l)) = length (List.filter listening l).
Proof.
  intros Hg. induction l as [|c l IH]; [done|]. cbn. rewrite Hg.
  destruct (listening c); cbn; by rewrite IH.
Qed.

Lemma filter_filter_le (g : Socket -> bool) (l : list Socket) :
  (length (List.filter listening (List.filter g l)) <= length (List.filter listening l))%nat.
Proof.
  induction l as [|c l IH]; [done|]. cbn [List.filter].
  destruct (g c); cbn [List.filter]; destruct (listening c); cbn [length]; lia.
Qed.

Lemma served_le s : (length (served s) <= length (default [] (wss s)))%nat.
Proof. unfold served. apply List.filter_length_le. Qed.

Lemma served_update id f s :
  (forall c, listening (f c) = listening c) ->
  length (served (update_socket id f s)) = length (served s) /\
  connsByIP (update_socket id f s) = connsByIP s /\
  length (default [] (wss (update_socket id f s))) = length (default [] (wss s)).
Proof.
  intros Hf. unfold served, update_socket. destruct s as [[clients|] m r i p]; cbn; [|done].
  split; [|split; [done|by rewrite length_fmap]].
  apply filter_listening_fmap. intros c. by destruct (decide _).
Qed.

Lemma served_set_connsByIP f s :
  served (set_connsByIP f s) = served s /\
  wss (set_connsByIP f s) = wss s /\
  connsByIP (set_connsByIP f s) = f (connsByIP s).
Proof. by destruct s. Qed.

Lemma size_difference_le (X Y : gset nat) : (size (X ∖ Y) <= size X)%nat.
Proof. apply subseteq_size, subseteq_difference_l. reflexivity. Qed.

Lemma capped_frame s s' :
  connsByIP s' = connsByIP s ->
  (length (served s') <= length (served s))%nat ->
  capped MAX_PER_IP MAX_TOTAL s -> capped MAX_PER_IP MAX_TOTAL s'.
Proof.
  intros Ec Ea [Hip Htot]. split.
  - intros ip. unfold counted. rewrite Ec. apply Hip.
  - destruct Htot as [H|H]; [left; lia|right].
    rewrite H in Ea. destruct (served s'); [done|cbn in Ea; lia].
Qed.

Lemma served_arrival id s :
  length (served (set_wss (fun l => l ++ [new_socket id]) s)) = length (served s) /\
  connsByIP (set_wss (fun l => l ++ [new_socket id]) s) = connsByIP s.
Proof.
  unfold served. destruct s as [[clients|] m r i p]; cbn; [|done].
  split; [|done]. rewrite List.filter_app. cbn. by rewrite length_app, Nat.add_0_r.
Qed.

Lemma capped_accept id ip token now s :
  capped MAX_PER_IP MAX_TOTAL s ->
  capped MAX_PER_IP MAX_TOTAL
    (accept MAX_PER_IP MAX_TOTAL jwt_verify config id ip token now db s).1.
Proof.
  intros Hc. unfold accept.
  destruct (served_arrival id s) as [Ea0 Ec0].
  set (s0 := set_wss (fun l => l ++ [new_socket id]) s) in *.
  assert (capped MAX_PER_IP MAX_TOTAL s0) as Hc0
    by (apply (capped_frame s); [done|lia|done]).
  clearbody s0. clear Hc Ea0 Ec0 s.
  unfold on_connection. destruct (canConnect MAX_PER_IP MAX_TOTAL ip s0) as [reason|] eqn:Ecan.
  { cbn [fst].
    pose proof (served_update id (set_readyState CLOSING) s0 ltac:(by intros []))
      as (E1 & E2 & _).
    apply (capped_frame s0); [done|lia|done]. }
  unfold canConnect in Ecan.
  destruct (match wss s0 with
            | Some clients => MAX_TOTAL <=? Z.of_nat (length clients)
            | None => false
            end) eqn:Etot; [done|].
  destruct (MAX_PER_IP <=? Z.of_nat (size (default ∅ (connsByIP s0 !! ip)))) eqn:Eip; [done|].
  apply Z.leb_gt in Eip. clear Ecan.
  set (ins := fun m : gmap string (gset nat) => <[ip := {[ id ]} ∪ default ∅ (m !! ip)]> m).
  destruct (served_set_connsByIP ins s0) as (A1 & W1 & C1).
  set (s1 := set_connsByIP ins s0) in *.
  pose proof (served_update id (set_clientIP ip) s1 ltac:(by intros []))
    as (A2 & C2 & W2).
  set (s2 := update_socket id (set_clientIP ip) s1) in *.
  assert (forall ip', counted ip' s2 <= MAX_PER_IP) as Hip2.
  { intros ip'. unfold counted. rewrite C2, C1. unfold ins.
    destruct (decide (ip = ip')) as [<-|Hne].
    - rewrite lookup_insert_eq. cbn.
      pose proof (size_union_alt (C:=gset nat) {[ id ]} (default ∅ (connsByIP s0 !! ip))) as U.
      rewrite size_singleton in U.
      pose proof (size_difference_le (default ∅ (connsByIP s0 !! ip)) {[ id ]}). lia.
    - rewrite lookup_insert_ne by done. apply (proj1 Hc0). }
  assert (Z.of_nat (length (default [] (wss s2))) < MAX_TOTAL \/
          length (default [] (wss s2)) = 0%nat) as Htot2.
  { rewrite W2. subst s1. rewrite W1. destruct (wss s0) as [clients|]; [|by right].
    left. apply Z.leb_gt in Etot. done. }
  assert (forall s3 : Server,
            connsByIP s3 = connsByIP s2 ->
            length (default [] (wss s3)) = length (default [] (wss s2)) ->
            capped MAX_PER_IP MAX_TOTAL s3) as Hwelcome.
  { intros s3 E3 L3. split.
    - intros ip'. unfold counted. rewrite E3. apply Hip2.
    - pose proof (served_le s3) as Hle. rewrite L3 in Hle.
      destruct Htot2 as [H|H]; [left; lia|right].
      rewrite H in Hle. destruct (served s3); [done|cbn in Hle; lia]. }
  assert (forall (s3 : Server) verified authenticated,
            connsByIP s3 = connsByIP s2 ->
            length (default [] (wss s3)) = length (default [] (wss s2)) ->
            capped MAX_PER_IP MAX_TOTAL
              (update_socket id (fun c => touch now (set_listening c)) s3,
               verified ++
               match find_socket id s3 with
               | Some c =>
                   send c "welcome"
                     (Welcome (Z.of_nat (length (default [] (wss s3))))
                        (CanvasService.getStatus config db) authenticated)
               | None => []
               end).1) as Hw.
  { intros s3 verified authenticated E3 L3. cbn [fst]. apply Hwelcome.
    - rewrite <- E3. by destruct s3 as [[?|] ? ? ? ?].
    - rewrite <- L3. destruct s3 as [[?|] ? ? ? ?]; cbn; [by rewrite length_fmap|done]. }
  destruct token as [t|]; [|by apply Hw].
  destruct (truthy (Some t)); [|by apply Hw].
  destruct (jwt_verify t) as [u|].
  - apply Hw.
    + by destruct s2 as [[?|] ? ? ? ?].
    + destruct s2 as [[?|] ? ? ? ?]; cbn; [by rewrite length_fmap|done].
  - cbn [fst].
    set (del := fun m : gmap string (gset nat) =>
                  match m !! ip with
                  | Some ids => <[ip := ids ∖ {[ id ]}]> m
                  | None => m
                  end).
    destruct (served_set_connsByIP del s2) as (A3 & W3 & C3).
    pose proof (served_update id (set_readyState CLOSING) (set_connsByIP del s2)
                  ltac:(by intros [])) as (A4 & C4 & W4).
    split.
    + intros ip'. unfold counted. rewrite C4, C3. unfold del.
      destruct (connsByIP s2 !! ip) as [ids|] eqn:Eids; [|apply Hip2].
      destruct (decide (ip = ip')) as [<-|Hne].
      * rewrite lookup_insert_eq. cbn.
        pose proof (Hip2 ip) as H2. unfold counted in H2. rewrite Eids in H2. cbn in H2.
        pose proof (size_difference_le ids {[ id ]}). lia.
      * rewrite lookup_insert_ne by done. apply Hip2.
    + match goal with
      | |- _ \/ served ?s' = [] =>
          assert (length (served s') = length (served s0)) as EL
            by (by rewrite A4, A3, A2, A1)
      end.
      destruct (proj2 Hc0) as [H|H]; [left; lia|right].
      rewrite H in EL. by apply nil_length_inv.
Qed.

Lemma capped_visit now v s :
  capped MAX_PER_IP MAX_TOTAL s ->
  capped MAX_PER_IP MAX_TOTAL (visit MAX_PER_IP MAX_TOTAL jwt_verify config db now v s).
Proof.
  intros Hc. destruct v as [id ip token|id| |id]; cbn [visit].
  - by apply capped_accept.
  - unfold on_close.
    set (s1 := set_wss (List.filter (fun c => negb (bool_decide (ws_id c = id)))) s).
    assert (connsByIP s1 = connsByIP s /\ (length (served s1) <= length (served s))%nat)
      as [C1 A1].
    { subst s1. unfold served. destruct s as [[clients|] m r i p]; cbn; [|done].
      split; [done|]. apply filter_filter_le. }
    assert (capped MAX_PER_IP MAX_TOTAL s1) as Hc1 by (by apply (capped_frame s)).
    destruct (find_socket id s ≫= _) as [ip|]; [|done].
    set (del := fun m : gmap string (gset nat) =>
                  match m !! ip with
                  | Some ids =>
                      if bool_decide (ids ∖ {[ id ]} = ∅) then delete ip m
                      else <[ip := ids ∖ {[ id ]}]> m
                  | None => m
                  end).
    destruct (served_set_connsByIP del s1) as (A3 & W3 & C3).
    split.
    + intros ip'. unfold counted. rewrite C3. unfold del.
      destruct (connsByIP s1 !! ip) as [ids|] eqn:Eids; [|apply Hc1].
      pose proof (proj1 Hc1 ip') as H2. unfold counted in H2.
      destruct (decide (ip = ip')) as [<-|Hne].
      * rewrite Eids in H2. cbn in H2.
        case_bool_decide.
        -- rewrite lookup_delete_eq. cbn. rewrite size_empty. lia.
        -- rewrite lookup_insert_eq. cbn.
           pose proof (size_difference_le ids {[ id ]}). lia.
      * case_bool_decide; [by rewrite lookup_delete_ne|by rewrite lookup_insert_ne].
    + rewrite A3. apply Hc1.
  - unfold heartbeat. cbn [fst]. apply (capped_frame s); [by destruct s|..|done].
    unfold served. destruct s as [[clients|] m r i p]; cbn; [|done].
    rewrite filter_listening_fmap; [done|].
    intros c. unfold sweep_socket. destruct (doomed now c); by destruct c.
  - unfold on_pong.
    assert (forall c, listening (if listening c then touch now c else c) = listening c) as Hl.
    { intros c. destruct (listening c) eqn:E; [by destruct c|done]. }
    pose proof (served_update id (fun c => if listening c then touch now c else c) s Hl)
      as (A & C & _).
    apply (capped_frame s); [done|lia|done].
Qed.

(** X22: through every run of connections, closures, heartbeat sweeps and
    pongs, no address is counted for more connections than the cap per
    address, and the connections that are served stay below the total
    cap. *)
Theorem caps_hold vs s :
  capped MAX_PER_IP MAX_TOTAL s ->
  capped MAX_PER_IP MAX_TOTAL (visits MAX_PER_IP MAX_TOTAL jwt_verify config db vs s).
Proof.
  intros Hc. unfold visits.
  apply (foldl_invariant (capped MAX_PER_IP MAX_TOTAL)); [done|].
  intros a [now v] Ha. by apply capped_visit.
Qed.

End Caps.

Lemma caps_hold_witness :
  Floor.capped 2 3
    (Floor.visits 2 3 (fun _ => Some Wire.member) Config.defaults Inv.fresh
       [(0, Floor.Arrives 1 "10.0.0.1" None);
        (1, Floor.Arrives 2 "10.0.0.1" (Some "t"%string));
        (2, Floor.Arrives 3 "10.0.0.1" None);
        (3, Floor.Arrives 4 "10.0.0.2" None);
        (4, Floor.Sweeps);
        (5, Floor.Leaves 1);
        (6, Floor.Answers 2)]
       WebSocketServer.idle).
Proof.
  apply (caps_hold 2 3 (fun _ => Some Wire.member) Config.defaults Inv.fresh).
  split; [intros ip; by vm_compute|by right].
Defined.

Section NonceKeys.
Import Js NonceStore Replay.

Lemma lower_ascii_colon c : lower_ascii c = ":"%char -> c = ":"%char.
Proof. destruct c as [[] [] [] [] [] [] [] []]; cbv; congruence. Qed.

Lemma occurs_toLowerCase s : occurs ":" (toLowerCase s) -> occurs ":" s.
Proof.
  induction s as [|c s IH]; [done|]. cbn. intros [H|H]; [left|right; by apply IH].
  by apply lower_ascii_colon.
Qed.

(** Two pairs share a key only when their addresses agree up to case and
    their nonces are the same, as long as no address holds a colon. *)
Lemma key_separates a n a' n' :
  ~ occurs ":" a -> ~ occurs ":" a' ->
  key a n = key a' n' -> toLowerCase a = toLowerCase a' /\ n = n'.
Proof.
  intros Ha Ha'. unfold key.
  change ("nonce:" +:+ ?x) with
    (String "n" (String "o" (String "n" (String "c" (String "e" (String ":" x)))))).
  intros [= H].
  change (":" +:+ ?x) with (String ":" x) in H.
  apply (split_at_separator ":") in H; [done|..];
    intros Ho; by apply occurs_toLowerCase in Ho.
Qed.

Lemma key_case a a' n : toLowerCase a' = toLowerCase a -> key a' n = key a n.
Proof. unfold key. by intros ->. Qed.

(** X23: what one user does with the replay guard never changes the answer
    that another pair of address and nonce gets. *)
Theorem nonce_use_is_per_user a n t now up a' n' t' now' up' s :
  ~ occurs ":" a -> ~ occurs ":" a' ->
  toLowerCase a <> toLowerCase a' \/ n <> n' ->
  (checkAndUseNonce a' n' t' now' up' (checkAndUseNonce a n t now up s).2).1 =
  (checkAndUseNonce a' n' t' now' up' s).1.
Proof.
  intros Ha Ha' Hne.
  assert (key a n <> key a' n') as Hk.
  { intros E. apply key_separates in E as [? ?]; try done. by destruct Hne. }
  assert (forall s1 : State,
            store s1 !! key a' n' = store s !! key a' n' ->
            (forall r, redisClient s = Some r ->
               exists r1, redisClient s1 = Some r1 /\ r1 !! key a' n' = r !! key a' n') ->
            (redisClient s = None -> redisClient s1 = None) ->
            (checkAndUseNonce a' n' t' now' up' s1).1 =
            (checkAndUseNonce a' n' t' now' up' s).1) as G.
  { intros s1 Es Er En. unfold checkAndUseNonce.
    destruct (parseInt t') as [ts|]; [|done].
    destruct (5 * 60 * 1000 <? Z.abs (now' - ts)); [done|].
    rewrite Es.
    destruct (redisClient s) as [r|] eqn:E.
    - destruct (Er r eq_refl) as (r1 & -> & E1).
      destruct up'; [|by destruct (bool_decide _)].
      unfold redis_set_px_nx. rewrite E1.
      destruct (r !! key a' n') as [[v e]|]; [|done]. by destruct (now' <? e).
    - rewrite (En eq_refl). by destruct (bool_decide _). }
  apply G; unfold checkAndUseNonce.
  - destruct (parseInt t) as [ts|]; [|done].
    destruct (5 * 60 * 1000 <? Z.abs (now - ts)); [done|].
    destruct (redisClient s) as [r|]; [destruct up|].
    + by destruct (redis_set_px_nx _ _ _ _ _).
    + destruct (bool_decide _); [done|]. cbn. by rewrite lookup_insert_ne.
    + destruct (bool_decide _); [done|]. cbn. by rewrite lookup_insert_ne.
  - intros r Er.
    destruct (parseInt t) as [ts|]; [|by exists r].
    destruct (5 * 60 * 1000 <? Z.abs (now - ts)); [by exists r|].
    rewrite Er. destruct up.
    + unfold redis_set_px_nx.
      destruct (r !! key a n) as [[v e]|]; [destruct (now <? e)|]; cbn;
        eexists; (split; [reflexivity|]); by rewrite ?lookup_insert_ne.
    + destruct (bool_decide _); cbn; by exists r.
  - intros Er.
    destruct (parseInt t) as [ts|]; [|done].
    destruct (5 * 60 * 1000 <? Z.abs (now - ts)); [done|].
    rewrite Er. by destruct (bool_decide _).
Qed.

Lemma nonce_use_is_per_user_witness :
  (checkAndUseNonce "0xB" "n1" "1000" 1000 false
     (checkAndUseNonce "0xA" "n1" "1000" 1000 false initial).2).1 =
  (checkAndUseNonce "0xB" "n1" "1000" 1000 false initial).1.
Proof.
  apply (nonce_use_is_per_user "0xA" "n1" "1000" 1000 false "0xB" "n1" "1000" 1000 false initial).
  - cbn. intros H. repeat (destruct H as [H|H]; [discriminate H|]). done.
  - cbn. intros H. repeat (destruct H as [H|H]; [discriminate H|]). done.
  - left. discriminate.
Defined.

Lemma local_record_step k now0 now e s :
  redisClient s = None -> store s !! k = Some now0 -> now <= now0 + TTL ->
  redisClient (step now e s) = None /\ store (step now e s) !! k = Some now0.
Proof.
  intros Hr Hk Hn. destruct e as [a n t up|]; cbn [step].
  - unfold checkAndUseNonce.
    destruct (parseInt t) as [ts|]; [|done].
    destruct (5 * 60 * 1000 <? Z.abs (now - ts)); [done|].
    rewrite Hr. case_bool_decide as Ek; [done|]. cbn. split; [done|].
    rewrite lookup_insert_ne; [done|]. intros <-. apply Ek. by rewrite Hk.
  - unfold cleanup. cbn. split; [done|].
    apply map_lookup_filter_Some. split; [done|]. cbn. lia.
Qed.

Lemma local_record_run k now0 evs s :
  redisClient s = None -> store s !! k = Some now0 ->
  Forall (fun ne => ne.1 <= now0 + TTL) evs ->
  redisClient (run evs s) = None /\ store (run evs s) !! k = Some now0.
Proof.
  intros Hr Hk Hev. revert s Hr Hk. unfold run.
  induction Hev as [|[now e] evs Hn _ IH]; intros s Hr Hk; [done|].
  cbn [foldl]. destruct (local_record_step k now0 now e s Hr Hk Hn) as [Hr' Hk'].
  by apply IH.
Qed.

(** X24: without a shared backend, a signed triple of address, nonce and
    timestamp that was accepted once is never accepted again, whatever
    checks and clean-ups come in between and however the address is
    spelled: the record outlives the window of its timestamp. *)
Theorem signed_request_single_use a a' n t now0 up0 evs now1 up1 s :
  redisClient s = None ->
  toLowerCase a' = toLowerCase a ->
  (checkAndUseNonce a n t now0 up0 s).1 = Valid ->
  Forall (fun ne => ne.1 <= now1) evs ->
  exists reason,
    (checkAndUseNonce a' n t now1 up1
       (run evs (checkAndUseNonce a n t now0 up0 s).2)).1 = Invalid reason /\
    (reason = "nonce_reused"%string \/ reason = "expired_timestamp"%string).
Proof.
  intros Hr Hl Hv Hev.
  assert (exists ts, parseInt t = Some ts /\ Z.abs (now0 - ts) <= 5 * 60 * 1000 /\
            redisClient (checkAndUseNonce a n t now0 up0 s).2 = None /\
            store (checkAndUseNonce a n t now0 up0 s).2 !! key a n = Some now0)
    as (ts & Hp & Hw & Hr1 & Hk1).
  { revert Hv. unfold checkAndUseNonce.
    destruct (parseInt t) as [ts|]; [|done].
    destruct (5 * 60 * 1000 <? Z.abs (now0 - ts)) eqn:E; [done|].
    apply Z.ltb_ge in E. rewrite Hr.
    case_bool_decide; [done|]. intros _. exists ts. cbn.
    by rewrite lookup_insert_eq. }
  set (s1 := (checkAndUseNonce a n t now0 up0 s).2) in *.
  unfold checkAndUseNonce at 1. rewrite Hp, (key_case a a' n Hl).
  destruct (5 * 60 * 1000 <? Z.abs (now1 - ts)) eqn:E.
  { exists "expired_timestamp"%string. by split; [|right]. }
  apply Z.ltb_ge in E.
  destruct (local_record_run (key a n) now0 evs s1 Hr1 Hk1) as [Hr2 Hk2].
  { eapply Forall_impl; [exact Hev|]. intros [now e] H. cbn in *. unfold TTL. lia. }
  rewrite Hr2, Hk2. rewrite bool_decide_eq_true_2 by done.
  exists "nonce_reused"%string. by split; [|left].
Qed.

Lemma signed_request_single_use_witness :
  exists reason,
    (checkAndUseNonce "0xabc1" "n1" "1000000" 1900000 false
       (run [(1200000, Check "0xabc1" "n1" "1000000" false);
             (1700000, Cleanup)]
          (checkAndUseNonce "0xAbC1" "n1" "1000000" 1000000 false initial).2)).1
      = Invalid reason /\
    (reason = "nonce_reused"%string \/ reason = "expired_timestamp"%string).
Proof.
  apply (signed_request_single_use "0xAbC1" "0xabc1" "n1" "1000000" 1000000 false
           [(1200000, Check "0xabc1" "n1" "1000000" false); (1700000, Cleanup)]
           1900000 false initial); try reflexivity.
  repeat constructor; cbn; lia.
Defined.

End NonceKeys.

Section RoundTripClose.
Import Js WebSocketServer Floor Wire.
Variables (MAX_PER_IP MAX_TOTAL : Z).
Variable jwt_verify : string -> option User.
Variable config : Config.t.

Lemma fmap_other_ids id (f : Socket -> Socket) (clients : list Socket) :
  Forall (fun c => ws_id c <> id) clients ->
  (fun c => if decide (ws_id c = id) then f c else c) <$> clients = clients.
Proof.
  induction 1 as [|c l Hc _ IH]; [done|]. cbn. rewrite IH.
  by destruct (decide (ws_id c = id)).
Qed.

Lemma find_other_ids id (clients : list Socket) c :
  Forall (fun c => ws_id c <> id) clients -> ws_id c = id ->
  List.find (fun c => bool_decide (ws_id c = id)) (clients ++ [c]) = Some c /\
  List.filter (fun c => negb (bool_decide (ws_id c = id))) (clients ++ [c]) = clients.
Proof.
  intros F Hc. induction F as [|c0 l Hc0 _ [IH1 IH2]]; cbn.
  - by rewrite !bool_decide_eq_true_2.
  - rewrite !bool_decide_eq_false_2 by done. cbn. by rewrite IH1, IH2.
Qed.

Lemma update_last id f (clients : list Socket) c m r i p :
  Forall (fun c => ws_id c <> id) clients -> ws_id c = id ->
  update_socket id f (Build_Server (Some (clients ++ [c])) m r i p) =
  Build_Server (Some (clients ++ [f c])) m r i p.
Proof.
  intros F Hc. unfold update_socket. cbn. rewrite fmap_app, fmap_other_ids by done.
  cbn. by destruct (decide (ws_id c = id)).
Qed.

(** X25: a connection that is served and then closes leaves the set of
    connections and the count per address as they were. *)
Theorem close_undoes_accept id ip token now db s clients :
  wss s = Some clients ->
  Forall (fun c => ws_id c <> id) clients ->
  Z.of_nat (length clients) + 1 < MAX_TOTAL ->
  counted ip s < MAX_PER_IP ->
  token_ok jwt_verify token ->
  id ∉ default ∅ (connsByIP s !! ip) ->
  connsByIP s !! ip <> Some ∅ ->
  on_close id (accept MAX_PER_IP MAX_TOTAL jwt_verify config id ip token now db s).1 = s.
Proof.
  intros Hw F Htot Hip Htok Hid Hne.
  destruct s as [w m r i p]. cbn in Hw. subst w. unfold counted in Hip. cbn in Hip, Hid, Hne.
  unfold accept. cbn [set_wss fmap option_fmap option_map].
  unfold on_connection, canConnect. cbn [wss connsByIP].
  assert ((MAX_TOTAL <=? Z.of_nat (length (clients ++ [new_socket id]))) = false) as ->.
  { apply Z.leb_gt. rewrite length_app. cbn. lia. }
  assert ((MAX_PER_IP <=? Z.of_nat (size (default ∅ (m !! ip)))) = false) as ->
    by (by apply Z.leb_gt).
  cbn [set_connsByIP].
  rewrite (update_last id (set_clientIP ip)) by done.
  set (m1 := <[ip := {[ id ]} ∪ default ∅ (m !! ip)]> m).
  assert (forall c verified authenticated,
            ws_id c = id -> clientIP c = Some ip -> 
            on_close id
              (update_socket id (fun c => touch now (set_listening c))
                 (Build_Server (Some (clients ++ [c])) m1 r i p),
               verified ++
               match find_socket id (Build_Server (Some (clients ++ [c])) m1 r i p) with
               | Some c0 =>
                   send c0 "welcome"
                     (Welcome (Z.of_nat (length (default []
                        (wss (Build_Server (Some (clients ++ [c])) m1 r i p)))))
                        (CanvasService.getStatus config db) authenticated)
               | None => []
               end).1 = Build_Server (Some clients) m r i p) as G.
  { intros c verified authenticated Hc Hcip. cbn [fst].
    rewrite (update_last id) by done.
    set (c' := touch now (set_listening c)).
    assert (ws_id c' = id /\ listening c' = true /\ clientIP c' = Some ip) as (Hi' & Hl' & Hp')
      by (subst c'; by destruct c).
    unfold on_close, find_socket. cbn [wss mbind option_bind].
    destruct (find_other_ids id clients c' F Hi') as [-> Ef].
    cbn [mbind option_bind]. rewrite Hl', Hp'. cbn [set_wss fmap option_fmap option_map].
    rewrite Ef. cbn [set_connsByIP]. f_equal.
    subst m1. rewrite lookup_insert_eq.
    assert (({[ id ]} ∪ default ∅ (m !! ip)) ∖ {[ id ]} = default ∅ (m !! ip)) as ->.
    { rewrite difference_union_distr_l_L, difference_diag_L, (left_id_L ∅ (∪)).
      apply difference_disjoint_L. by apply disjoint_singleton_r. }
    destruct (m !! ip) as [ids|] eqn:E; cbn.
    - rewrite bool_decide_eq_false_2 by congruence.
      rewrite insert_insert_eq. by apply insert_id.
    - rewrite bool_decide_eq_true_2 by done.
      rewrite delete_insert_eq. by apply delete_id. }
  destruct Htok as [Ht|(t & u & -> & Hj)].
  - destruct token as [t|]; [rewrite Ht|]; by apply G.
  - destruct (truthy (Some t)); [|by apply G].
    rewrite Hj. rewrite (update_last id (set_user u)) by done. by apply G.
Qed.

End RoundTripClose.

Lemma close_undoes_accept_witness :
  WebSocketServer.on_close 8
    (WebSocketServer.accept 10 10000 (fun _ => Some Wire.member) Config.defaults
       8 "10.0.0.1" (Some "t"%string) 5 Inv.fresh Wire.hall).1 = Wire.hall.
Proof.
  apply (close_undoes_accept 10 10000 (fun _ => Some Wire.member) Config.defaults
           8 "10.0.0.1" (Some "t"%string) 5 Inv.fresh Wire.hall [Wire.guest]).
  - reflexivity.
  - repeat constructor. by vm_compute.
  - cbn. lia.
  - by vm_compute.
  - right. by exists "t"%string, Wire.member.
  - by vm_compute.
  - by vm_compute.
Defined.
